(** * research_summarizer: the PDF parser (app/services/pdf_parser.py)

    A shallow embedding of the figure-cropping and key-page selection code
    of [pdf_parser.py], and the properties of it that the specification
    states.

    Conventions of the embedding:
    - Python floats and the coordinates of PyMuPDF rectangles are exact
      rationals ([Q]); float literals such as [0.30] and [0.5] are the
      rationals they denote.
    - A Python [str] is a list of Unicode code points.
    - Code that logs, touches the document handle, renders or raises lives
      in the monad [M]: a trace of the effects performed so far together
      with either a returned value or a raised exception.
    - PyMuPDF ([fitz]) and the regular expression engine ([re]) are
      libraries outside the repository.  A page is the record of what the
      PyMuPDF calls made by the parser return for it; rectangles follow
      PyMuPDF's [Rect] class; the two regular expression tests are
      parameters of the development. *)

From Stdlib Require Import QArith Lqa ZArith Ascii String.
From stdpp Require Import base list sorting gmap sets.

Local Open Scope Q_scope.

(** ** Python numbers *)

Definition Qltb (a b : Q) : bool := negb (Qle_bool b a).
Definition Qgtb (a b : Q) : bool := Qltb b a.

(** [min(a, b)] and [max(a, b)]: the first argument is kept unless the
    second one is strictly better. *)
Definition py_min (a b : Q) : Q := if Qltb b a then b else a.
Definition py_max (a b : Q) : Q := if Qgtb b a then b else a.

(** ** Python strings *)

Definition char := N.
Definition str := list char.

(** [str.isspace] for one code point. *)
Definition isspace (c : char) : bool :=
  ((9 <=? c) && (c <=? 13) || (28 <=? c) && (c <=? 32)
   || (c =? 133) || (c =? 160) || (c =? 5760)
   || (8192 <=? c) && (c <=? 8202)
   || (c =? 8232) || (c =? 8233) || (c =? 8239) || (c =? 8287)
   || (c =? 12288))%N.

Fixpoint lstrip (s : str) : str :=
  match s with
  | c :: s' => if isspace c then lstrip s' else s
  | [] => []
  end.

Definition rstrip (s : str) : str := reverse (lstrip (reverse s)).

(** [s.strip()] *)
Definition strip (s : str) : str := rstrip (lstrip s).

(** [sep.join(parts)] *)
Fixpoint join (sep : str) (parts : list str) : str :=
  match parts with
  | [] => []
  | [p] => p
  | p :: ps => p ++ sep ++ join sep ps
  end.

(** The code points of an ASCII literal. *)
Fixpoint lit (s : string) : str :=
  match s with
  | EmptyString => []
  | String a s' => N_of_ascii a :: lit s'
  end.

(** ** PyMuPDF rectangles *)

Module fitz.

Record Rect := mkRect { x0 : Q; y0 : Q; x1 : Q; y1 : Q }.

Definition FZ_MIN_INF_RECT : Q := -2147483648.
Definition FZ_MAX_INF_RECT : Q := 2147483520.

(** [Rect.width] and [Rect.height]: [max(0, x1 - x0)], [max(0, y1 - y0)]. *)
Definition width (r : Rect) : Q := py_max 0 (x1 r - x0 r).
Definition height (r : Rect) : Q := py_max 0 (y1 r - y0 r).

(** [Rect.is_empty]: [x0 >= x1 or y0 >= y1]. *)
Definition is_empty (r : Rect) : bool :=
  Qle_bool (x1 r) (x0 r) || Qle_bool (y1 r) (y0 r).

Definition is_infinite (r : Rect) : bool :=
  Qeq_bool (x0 r) FZ_MIN_INF_RECT && Qeq_bool (y0 r) FZ_MIN_INF_RECT
  && Qeq_bool (x1 r) FZ_MAX_INF_RECT && Qeq_bool (y1 r) FZ_MAX_INF_RECT.

(** [bool(rect)]: false only for the rectangle whose coordinates are
    all zero. *)
Definition truth (r : Rect) : bool :=
  negb (Qeq_bool (x0 r) 0 && Qeq_bool (y0 r) 0
        && Qeq_bool (x1 r) 0 && Qeq_bool (y1 r) 0).

Definition INFINITE : Rect :=
  mkRect FZ_MIN_INF_RECT FZ_MIN_INF_RECT FZ_MAX_INF_RECT FZ_MAX_INF_RECT.

(** [a | b] ([Rect.include_rect] on a copy of [a]). *)
Definition union (a b : Rect) : Rect :=
  if is_infinite b || is_infinite a then INFINITE
  else if is_empty b then a
  else if is_empty a then b
  else mkRect (py_min (x0 a) (x0 b)) (py_min (y0 a) (y0 b))
              (py_max (x1 a) (x1 b)) (py_max (y1 a) (y1 b)).

(** [a & b] ([Rect.intersect] on a copy of [a]). *)
Definition inter (a b : Rect) : Rect :=
  if is_infinite b then a
  else if is_infinite a then b
  else if is_empty b then b
  else if is_empty a then a
  else mkRect (py_max (x0 a) (x0 b)) (py_max (y0 a) (y0 b))
              (py_min (x1 a) (x1 b)) (py_min (y1 a) (y1 b)).

(** One block of [page.get_text("dict")]: its type (0 text, 1 image),
    its bounding box, and for each line the texts of its spans. *)
Record Block := mkBlock {
  blk_type : Z;
  blk_bbox : Rect;
  blk_lines : list (list str);
}.

(** What the PyMuPDF calls of the parser return on one page.  [None]
    stands for a call that raises. *)
Record Page := mkPage {
  rect : Rect;
  get_text : str;                          (* get_text("text") *)
  get_text_dict_ws : list Block;           (* get_text("dict", flags=TEXT_PRESERVE_WHITESPACE) *)
  get_text_dict : list Block;              (* get_text("dict") *)
  get_images : list Z;                     (* get_images(full=False) *)
  get_drawings : option (list Rect);       (* the "rect" of each drawing *)
  get_pixmap_clip : Rect -> Z -> option str; (* base64 of get_pixmap(clip=..) at a dpi *)
  get_pixmap : Z -> option str;            (* base64 of the full page at a dpi *)
}.

Abbreviation Document := (list Page).

End fitz.

(** ** Effects: the trace and the exceptions *)

(** [PDFExtractionError] of app/core/exceptions.py, with its message and
    the exception it wraps, and the exceptions the libraries may raise. *)
#[warnings="-register-all"]
Inductive exn :=
| PDFExtractionError (message : string) (original : option exn)
| RuntimeError
| IndexError
| ZeroDivisionError.

Inductive log_arg :=
| ArgInt (n : Z)
| ArgStr (s : str)
| ArgFloat (q : Q).

(** The observable actions of a run, in the order they happen. *)
Inductive event :=
| WriteTempPdf                               (* write_temp_pdf(pdf_bytes) *)
| FitzOpen                                   (* fitz.open(tmp_path) *)
| DocClose                                   (* doc.close() *)
| SafeUnlink                                 (* safe_unlink(tmp_path) *)
| PixmapClip (clip : fitz.Rect) (dpi : Z)    (* page.get_pixmap(matrix, clip) *)
| PixmapPage (dpi : Z)                       (* page.get_pixmap(matrix) *)
| LogDebug (fmt : string) (args : list log_arg)
| LogInfo (fmt : string) (args : list log_arg).

Inductive outcome (A : Type) :=
| Return (a : A)
| Raise (e : exn).
Arguments Return {A} a.
Arguments Raise {A} e.

Definition M (A : Type) : Type := list event * outcome A.

Definition ret {A} (a : A) : M A := ([], Return a).
Definition raise {A} (e : exn) : M A := ([], Raise e).
Definition emit (e : event) : M unit := ([e], Return tt).

Definition bind {A B} (m : M A) (f : A -> M B) : M B :=
  match m with
  | (t, Return a) => let '(t', r) := f a in (t ++ t', r)
  | (t, Raise e) => (t, Raise e)
  end.

Notation "x <- m ;; k" := (bind m (fun x => k))
  (at level 100, m at next level, right associativity).
Notation "m ;;; k" := (bind m (fun _ => k))
  (at level 100, right associativity).

(** [try: m except Exception as e: h e] *)
Definition try_except {A} (m : M A) (h : exn -> M A) : M A :=
  match m with
  | (t, Raise e) => let '(t', r) := h e in (t ++ t', r)
  | (t, Return a) => (t, Return a)
  end.

(** [try: m finally: c] *)
Definition try_finally {A} (m : M A) (c : M unit) : M A :=
  match m, c with
  | (t, r), (t', Return _) => (t ++ t', r)
  | (t, _), (t', Raise e) => (t ++ t', Raise e)
  end.

Definition trace {A} (m : M A) : list event := fst m.
Definition result {A} (m : M A) : outcome A := snd m.

Fixpoint mapM {A B} (f : A -> M B) (l : list A) : M (list B) :=
  match l with
  | [] => ret []
  | a :: l' => b <- f a ;; bs <- mapM f l' ;; ret (b :: bs)
  end.

(** ** Constants *)

Definition MAX_VISION_PAGES : nat := 8.
Definition FULL_PAGE_DPI : Z := 150.
Definition CROP_DPI : Z := 200.
Definition CROP_PAD : Q := 8.
Definition MIN_DRAWING_W : Q := 10.
Definition MIN_DRAWING_H : Q := 10.

(** The code points of the 48 characters of [MATH_SYMBOLS]. *)
Definition MATH_SYMBOLS : list char :=
  [8721; 8719; 8747; 8706; 8711; 945; 946; 947; 948; 949; 950; 951; 952;
   955; 956; 957; 960; 961; 963; 966; 968; 969; 937; 915; 916; 920; 923;
   926; 928; 931; 934; 936; 8776; 8800; 8804; 8805; 8592; 8594; 8658;
   8660; 8712; 8713; 8709; 8734; 177; 215; 247; 8730]%N.

(** ** Data structures *)

Record CroppedFigure := mkCroppedFigure {
  cf_page_number : nat;
  caption : str;
  cf_png_b64 : str;
}.

Record PageData := mkPageData {
  page_number : nat;
  text : str;
  has_figure_keyword : bool;
  math_density : Q;
  image_count : nat;
  is_key_page : bool;
  png_b64 : str;
  cropped_figures : list CroppedFigure;
}.

Record ParsedPDF := mkParsedPDF {
  pages : list PageData;
  full_text : str;
  key_pages : list PageData;
}.

Definition page_count (p : ParsedPDF) : nat := length (pages p).

Definition all_cropped_figures (p : ParsedPDF) : list CroppedFigure :=
  concat (map cropped_figures (pages p)).

(** ** Render helpers *)

(** [_render_rect]: the pixmap of the clip at the given resolution, as
    base64 text.  The call is recorded; PyMuPDF may raise in it. *)
Definition _render_rect (page : fitz.Page) (rect : fitz.Rect) (dpi : Z) : M str :=
  emit (PixmapClip rect dpi) ;;;
  match fitz.get_pixmap_clip page rect dpi with
  | Some png => ret png
  | None => raise RuntimeError
  end.

Definition _render_full_page (page : fitz.Page) (dpi : Z) : M str :=
  emit (PixmapPage dpi) ;;;
  match fitz.get_pixmap page dpi with
  | Some png => ret png
  | None => raise RuntimeError
  end.

(** ** Core figure extraction *)

(** [_collect_text_blocks]: (bbox, text) of every non-empty text block. *)
Fixpoint text_blocks_of (blocks : list fitz.Block) : list (fitz.Rect * str) :=
  match blocks with
  | [] => []
  | blk :: rest =>
      if negb (fitz.blk_type blk =? 0)%Z then text_blocks_of rest
      else
        let text := strip (join (lit " ") (concat (fitz.blk_lines blk))) in
        match text with
        | [] => text_blocks_of rest
        | _ :: _ => (fitz.blk_bbox blk, text) :: text_blocks_of rest
        end
  end.

Definition _collect_text_blocks (page : fitz.Page) : list (fitz.Rect * str) :=
  text_blocks_of (fitz.get_text_dict_ws page).

(** The size test shared by the raster and the drawing collectors. *)
Definition big_enough (r : fitz.Rect) : bool :=
  Qgtb (fitz.width r) MIN_DRAWING_W && Qgtb (fitz.height r) MIN_DRAWING_H.

Definition _collect_raster_blocks (page : fitz.Page) : list fitz.Rect :=
  List.filter big_enough
    (map fitz.blk_bbox
       (List.filter (fun blk => (fitz.blk_type blk =? 1)%Z) (fitz.get_text_dict page))).

(** [_collect_drawing_rects]: an exception of [page.get_drawings()] is
    swallowed and leaves the list empty. *)
Definition _collect_drawing_rects (page : fitz.Page) : list fitz.Rect :=
  match fitz.get_drawings page with
  | Some ds => List.filter big_enough ds
  | None => []
  end.

Definition _union_rects (rects : list fitz.Rect) : option fitz.Rect :=
  match rects with
  | [] => None
  | r0 :: rest => Some (foldl fitz.union r0 rest)
  end.

Definition _figure_is_above_caption (caption_rect : fitz.Rect) (page_height : Q) : bool :=
  Qgtb (fitz.y0 caption_rect) (page_height * 0.30).

(** The parts of [_crop_for_caption], in the order of the source. *)

(** Lines 207-212: the zone searched for drawing elements. *)
Definition search_zone (caption_rect page_rect : fitz.Rect) : fitz.Rect :=
  let fig_above := _figure_is_above_caption caption_rect (fitz.height page_rect) in
  let x0 := fitz.x0 page_rect in
  let x1 := fitz.x1 page_rect in
  if fig_above
  then fitz.mkRect x0 (fitz.y0 page_rect) x1 (fitz.y0 caption_rect)
  else fitz.mkRect x0 (fitz.y1 caption_rect) x1 (fitz.y1 page_rect).

(** Lines 217-218: the test a drawing or raster rectangle has to pass. *)
Definition in_zone (zone r : fitz.Rect) : bool :=
  let inter := fitz.inter r zone in
  negb (fitz.is_empty inter)
  && Qgtb (fitz.width inter) MIN_DRAWING_W
  && Qgtb (fitz.height inter) MIN_DRAWING_H.

(** Lines 215-219. *)
Definition zone_rects (caption_rect page_rect : fitz.Rect)
    (drawing_rects raster_rects : list fitz.Rect) : list fitz.Rect :=
  List.filter (in_zone (search_zone caption_rect page_rect))
    (drawing_rects ++ raster_rects).

(** Lines 221-226: the union of the surviving rectangles and the caption,
    when that branch returns. *)
Definition union_region (caption_rect : fitz.Rect) (zone : list fitz.Rect)
  : option fitz.Rect :=
  match zone with
  | [] => None
  | _ :: _ =>
      match _union_rects zone with
      | Some combined =>
          if fitz.truth combined
             && Qgtb (fitz.width combined) 20
             && Qgtb (fitz.height combined) 20
          then Some (fitz.union combined caption_rect)
          else None
      | None => None
      end
  end.

(** Line 231. *)
Definition fallback_h (caption_rect page_rect : fitz.Rect) : Q :=
  if _figure_is_above_caption caption_rect (fitz.height page_rect)
  then py_min 200 (fitz.y0 caption_rect - fitz.y0 page_rect)
  else 200.

(** Lines 232-240. *)
Definition fallback_region (caption_rect page_rect : fitz.Rect) : option fitz.Rect :=
  let fig_above := _figure_is_above_caption caption_rect (fitz.height page_rect) in
  let fallback_h := fallback_h caption_rect page_rect in
  if fig_above && Qgtb fallback_h 40
  then Some (fitz.mkRect (fitz.x0 caption_rect - 20)
                         (fitz.y0 caption_rect - fallback_h)
                         (fitz.x1 caption_rect + 20)
                         (fitz.y1 caption_rect))
  else None.

Definition _crop_for_caption (caption_rect : fitz.Rect) (caption_text : str)
    (page : fitz.Page) (drawing_rects raster_rects : list fitz.Rect)
    (text_blocks : list (fitz.Rect * str)) : option fitz.Rect :=
  let page_rect := fitz.rect page in
  match union_region caption_rect
          (zone_rects caption_rect page_rect drawing_rects raster_rects) with
  | Some combined => Some combined
  | None => fallback_region caption_rect page_rect
  end.

(** Lines 287-292: pad by [CROP_PAD] and clamp to the page. *)
Definition clamp_to_page (crop_rect page_rect : fitz.Rect) : fitz.Rect :=
  fitz.mkRect
    (py_max (fitz.x0 crop_rect - CROP_PAD) (fitz.x0 page_rect))
    (py_max (fitz.y0 crop_rect - CROP_PAD) (fitz.y0 page_rect))
    (py_min (fitz.x1 crop_rect + CROP_PAD) (fitz.x1 page_rect))
    (py_min (fitz.y1 crop_rect + CROP_PAD) (fitz.y1 page_rect)).

(** Line 294. *)
Definition too_small (crop_rect : fitz.Rect) : bool :=
  Qltb (fitz.width crop_rect) 20 || Qltb (fitz.height crop_rect) 20.

Definition int_of_nat (n : nat) : log_arg := ArgInt (Z.of_nat n).

(** Lines 272-304: the loop over the captions of one page. *)
Fixpoint caption_loop (page : fitz.Page) (page_number : nat)
    (drawing_rects raster_rects : list fitz.Rect)
    (text_blocks captions : list (fitz.Rect * str))
    (figures : list CroppedFigure) : M (list CroppedFigure) :=
  match captions with
  | [] => ret figures
  | (cap_rect, cap_text) :: rest =>
      match _crop_for_caption cap_rect cap_text page
              drawing_rects raster_rects text_blocks with
      | None =>
          emit (LogDebug "Page %d: could not determine crop for '%s'"
                  [int_of_nat page_number; ArgStr (take 40 cap_text)]) ;;;
          caption_loop page page_number drawing_rects raster_rects
            text_blocks rest figures
      | Some crop_rect =>
          let crop_rect := clamp_to_page crop_rect (fitz.rect page) in
          if too_small crop_rect
          then caption_loop page page_number drawing_rects raster_rects
                 text_blocks rest figures
          else
            png_b64 <- _render_rect page crop_rect CROP_DPI ;;
            let figures :=
              figures ++ [mkCroppedFigure page_number (strip cap_text) png_b64] in
            emit (LogDebug "Page %d: cropped figure '%s' (%.0fx%.0f pt)"
                    [int_of_nat page_number; ArgStr (take 30 cap_text);
                     ArgFloat (fitz.width crop_rect);
                     ArgFloat (fitz.height crop_rect)]) ;;;
            caption_loop page page_number drawing_rects raster_rects
              text_blocks rest figures
      end
  end.

(** ** Scoring for key page selection *)

(** [a / b] on numbers: raises on a zero divisor. *)
Definition truediv (a b : Q) : M Q :=
  if Qeq_bool b 0 then raise ZeroDivisionError else ret (a / b).

Definition count_math (text : str) : nat :=
  length (List.filter (fun ch => bool_decide (ch ∈ MATH_SYMBOLS)) text).

Definition Q_of_nat (n : nat) : Q := inject_Z (Z.of_nat n).

Definition _math_density (text : str) : M Q :=
  match text with
  | [] => ret 0
  | _ :: _ => truediv (Q_of_nat (count_math text)) (Q_of_nat (length text))
  end.

Definition _score_page (pd : PageData) : M Q :=
  let score := 0.0 in
  let score := if has_figure_keyword pd then score + 4.0 else score in
  let score :=
    match cropped_figures pd with
    | [] => score
    | _ :: _ => score + 3.0 * Q_of_nat (length (cropped_figures pd))
    end in
  let score :=
    if (0 <? image_count pd)%nat
    then score + 2.0 * Q_of_nat (Nat.min (image_count pd) 3)
    else score in
  d <- _math_density (text pd) ;;
  ret (score + d * 20.0).

(** ** [sorted]: a stable sort *)

(** [before y x] says that [y] has to come before [x] even when [x] was
    first in the input: [y]'s key is strictly better.  Equal keys keep the
    order of the input. *)
Fixpoint insert_by {A} (before : A -> A -> bool) (x : A) (l : list A) : list A :=
  match l with
  | [] => [x]
  | y :: l' => if before y x then y :: insert_by before x l' else x :: l
  end.

Definition sort_by {A} (before : A -> A -> bool) (l : list A) : list A :=
  foldr (insert_by before) [] l.

(** [sorted(pages, key=_score_page, reverse=True)]: the keys are computed
    once, in order, then the pages are sorted on them, highest first. *)
Definition sorted_by_score_desc (pages : list PageData) : M (list PageData) :=
  keys <- mapM _score_page pages ;;
  ret (map fst (sort_by (fun y x => Qgtb (snd y) (snd x)) (zip pages keys))).

(** [sorted(key_page_list, key=lambda p: p.page_number)] *)
Definition sorted_by_page_number (l : list PageData) : list PageData :=
  sort_by (fun y x => (page_number y <? page_number x)%nat) l.

(** [l[i]] with Python's negative indices. *)
Definition getitem {A} (l : list A) (i : Z) : M A :=
  let n := Z.of_nat (length l) in
  let j := (if i <? 0 then n + i else i)%Z in
  if (j <? 0)%Z then raise IndexError
  else match l !! Z.to_nat j with
       | Some a => ret a
       | None => raise IndexError
       end.

(** ** Public API *)

Section Parser.

(** [FIGURE_CAPTION_RE.match(t)] finds a match. *)
Variable FIGURE_CAPTION_RE : str -> bool.
(** [re.search(r"\b(figure|fig\.|table|equation|eq\.)\b", text, re.I)]
    finds a match. *)
Variable keyword_re : str -> bool.

Definition _extract_cropped_figures (page : fitz.Page) (page_number : nat)
  : M (list CroppedFigure) :=
  let figures := [] in
  let text_blocks := _collect_text_blocks page in
  let drawing_rects := _collect_drawing_rects page in
  let raster_rects := _collect_raster_blocks page in
  let captions := List.filter (fun rt => FIGURE_CAPTION_RE (snd rt)) text_blocks in
  match captions with
  | [] =>
      emit (LogDebug "Page %d: no figure captions found." [int_of_nat page_number]) ;;;
      ret figures
  | _ :: _ =>
      emit (LogDebug "Page %d: %d caption(s), %d drawings, %d rasters."
              [int_of_nat page_number; int_of_nat (length captions);
               int_of_nat (length drawing_rects);
               int_of_nat (length raster_rects)]) ;;;
      caption_loop page page_number drawing_rects raster_rects
        text_blocks captions figures
  end.

(** Lines 343-359: one [PageData] per page of the document. *)
Fixpoint page_loop (doc : list fitz.Page) (i : nat) (pages : list PageData)
  : M (list PageData) :=
  match doc with
  | [] => ret pages
  | fitz_page :: rest =>
      let page_num := (i + 1)%nat in
      let text := fitz.get_text fitz_page in
      let img_list := fitz.get_images fitz_page in
      cropped <- _extract_cropped_figures fitz_page page_num ;;
      density <- _math_density text ;;
      let pd := {| page_number := page_num;
                   text := text;
                   has_figure_keyword := keyword_re text;
                   math_density := density;
                   image_count := length img_list;
                   is_key_page := false;
                   png_b64 := [];
                   cropped_figures := cropped |} in
      page_loop rest (S i) (pages ++ [pd])
  end.

(** Lines 374-376. *)
Fixpoint select_loop (top : list PageData) (key_pages_set : gset nat)
  : M (gset nat) :=
  match top with
  | [] => ret key_pages_set
  | pd :: rest =>
      score <- _score_page pd ;;
      select_loop rest
        (if Qgtb score 0.5 then key_pages_set ∪ {[page_number pd]}
         else key_pages_set)
  end.

(** Lines 378-383.  The loop updates the page objects in place, so the
    pages of the result are the updated ones; the loop returns them next
    to [key_page_list]. *)
Fixpoint mark_loop (doc : fitz.Document) (key_pages_set : gset nat)
    (todo : list PageData) (key_page_list : list PageData)
  : M (list PageData * list PageData) :=
  match todo with
  | [] => ret ([], key_page_list)
  | pd :: rest =>
      if bool_decide (page_number pd ∈ key_pages_set)
      then
        fitz_page <- getitem doc (Z.of_nat (page_number pd) - 1) ;;
        png <- _render_full_page fitz_page FULL_PAGE_DPI ;;
        let pd := {| page_number := page_number pd;
                     text := text pd;
                     has_figure_keyword := has_figure_keyword pd;
                     math_density := math_density pd;
                     image_count := image_count pd;
                     is_key_page := true;
                     png_b64 := png;
                     cropped_figures := cropped_figures pd |} in
        r <- mark_loop doc key_pages_set rest (key_page_list ++ [pd]) ;;
        ret (pd :: fst r, snd r)
      else
        r <- mark_loop doc key_pages_set rest key_page_list ;;
        ret (pd :: fst r, snd r)
  end.

Definition initial_key_pages (n : nat) : gset nat :=
  if (1 <? n)%nat then {[1%nat]} ∪ {[n]} else {[1%nat]}.

(** Lines 371-376: page 1, the last page, and the pages among the
    [MAX_VISION_PAGES] best whose score exceeds 0.5. *)
Definition select_key_pages (pages : list PageData) : M (gset nat) :=
  let key_pages_set := initial_key_pages (length pages) in
  ranked <- sorted_by_score_desc pages ;;
  select_loop (take MAX_VISION_PAGES ranked) key_pages_set.

(** Lines 340-397: the body of the [try] block. *)
Definition parse_pdf_body (doc : fitz.Document) : M ParsedPDF :=
  emit FitzOpen ;;;
  pages <- page_loop doc 0 [] ;;
  match pages with
  | [] => raise (PDFExtractionError "PDF appears to have no pages." None)
  | _ :: _ =>
      let full_text := strip (join [10; 10]%N (map text pages)) in
      if (length full_text <? 100)%nat
      then raise (PDFExtractionError
                    "Very little text extracted — PDF may be scanned or image-only."
                    None)
      else
        key_pages_set <- select_key_pages pages ;;
        marked <- mark_loop doc key_pages_set pages [] ;;
        let pages := fst marked in
        let key_page_list := snd marked in
        emit DocClose ;;;
        let n_figs := sum_list (map (fun p => length (cropped_figures p)) pages) in
        emit (LogInfo
                "Parsed PDF: %d pages, %d chars, %d figures cropped, %d key pages."
                [int_of_nat (length pages); int_of_nat (length full_text);
                 int_of_nat n_figs; int_of_nat (length key_page_list)]) ;;;
        ret {| pages := pages;
               full_text := full_text;
               key_pages := sorted_by_page_number key_page_list |}
  end.

(** Lines 399-402: the two [except] clauses. *)
Definition parse_pdf_handler (exc : exn) : M ParsedPDF :=
  match exc with
  | PDFExtractionError _ _ => raise exc
  | _ => raise (PDFExtractionError "Failed to parse PDF." (Some exc))
  end.

(** [parse_pdf], on the document that [fitz.open] yields for the bytes. *)
Definition parse_pdf (doc : fitz.Document) : M ParsedPDF :=
  emit WriteTempPdf ;;;
  try_finally (try_except (parse_pdf_body doc) parse_pdf_handler)
              (emit SafeUnlink).

End Parser.

(** * Values computed by the monadic code *)

(** The density that [_math_density] returns. *)
Definition math_density_of (s : str) : Q :=
  match s with
  | [] => 0
  | _ :: _ => Q_of_nat (count_math s) / Q_of_nat (length s)
  end.

(** The score that [_score_page] returns. *)
Definition score_of (pd : PageData) : Q :=
  let score := 0.0 in
  let score := if has_figure_keyword pd then score + 4.0 else score in
  let score :=
    match cropped_figures pd with
    | [] => score
    | _ :: _ => score + 3.0 * Q_of_nat (length (cropped_figures pd))
    end in
  let score :=
    if (0 <? image_count pd)%nat
    then score + 2.0 * Q_of_nat (Nat.min (image_count pd) 3)
    else score in
  score + math_density_of (text pd) * 20.0.

(** The pages in the order in which
    [sorted(pages, key=_score_page, reverse=True)] returns them. *)
Definition ranked (pages : list PageData) : list PageData :=
  sort_by (fun y x => Qgtb (score_of y) (score_of x)) pages.

(** The pages that the loop of lines 374-376 adds: those among the first
    [MAX_VISION_PAGES] of the ranking whose score exceeds 0.5. *)
Definition scored_additions (pages : list PageData) : list PageData :=
  List.filter (fun pd => Qgtb (score_of pd) 0.5)
    (take MAX_VISION_PAGES (ranked pages)).

(** The set of page numbers that [select_key_pages] returns. *)
Definition key_set_of (pages : list PageData) : gset nat :=
  initial_key_pages (length pages)
  ∪ list_to_set (map page_number (scored_additions pages)).

(** The membership test of line 380. *)
Definition in_key_set (key_pages_set : gset nat) (pd : PageData) : bool :=
  bool_decide (page_number pd ∈ key_pages_set).

(** The text that [parse_pdf] measures: the page texts joined by two
    newlines, stripped. *)
Definition joined_text (doc : fitz.Document) : str :=
  strip (join [10; 10]%N (map fitz.get_text doc)).

(** The three extraction errors of [parse_pdf]. *)
Definition no_pages_error : exn :=
  PDFExtractionError "PDF appears to have no pages." None.
Definition little_text_error : exn :=
  PDFExtractionError
    "Very little text extracted — PDF may be scanned or image-only." None.
Definition failed_error (original : exn) : exn :=
  PDFExtractionError "Failed to parse PDF." (Some original).

(** * Predicates of the statements *)

(** The fallback of lines 228-238 is the return that produces the region:
    the union branch (lines 221-226) did not return, and the fallback
    test passed. *)
Definition fallback_used (caption_rect page_rect : fitz.Rect)
    (drawing_rects raster_rects : list fitz.Rect) : Prop :=
  union_region caption_rect
    (zone_rects caption_rect page_rect drawing_rects raster_rects) = None
  /\ fallback_region caption_rect page_rect <> None.

(** A rectangle handed to the renderer is acceptable on a page: at least
    20 points wide and high, and inside the page rectangle. *)
Definition crop_ok (page_rect r : fitz.Rect) : Prop :=
  20 <= fitz.width r /\ 20 <= fitz.height r
  /\ fitz.x0 page_rect <= fitz.x0 r /\ fitz.x0 r <= fitz.x1 r
  /\ fitz.x1 r <= fitz.x1 page_rect
  /\ fitz.y0 page_rect <= fitz.y0 r /\ fitz.y0 r <= fitz.y1 r
  /\ fitz.y1 r <= fitz.y1 page_rect.

(** An event that renders a clip renders an acceptable one. *)
Definition clips_ok (page_rect : fitz.Rect) (e : event) : Prop :=
  match e with
  | PixmapClip r _ => crop_ok page_rect r
  | _ => True
  end.

(** The figure [fig] carries the rendering of the clip [r] of [page]. *)
Definition rendered_from (page : fitz.Page) (r : fitz.Rect) (fig : CroppedFigure) : Prop :=
  fitz.get_pixmap_clip page r CROP_DPI = Some (cf_png_b64 fig).

(** No rendering of a crop fails on the page; no rendering at all fails
    in the document. *)
Definition clips_render (page : fitz.Page) : Prop :=
  forall r, fitz.get_pixmap_clip page r CROP_DPI <> None.


(** The events that reading and marking the pages may produce. *)
Definition page_event (e : event) : Prop :=
  match e with
  | LogDebug _ _ | PixmapClip _ _ | PixmapPage _ => True
  | _ => False
  end.

(** * Example inputs *)

(** The caption pattern [^\s*(figure|fig\.?)\s*\d], case-insensitive, on
    texts whose letters and digits are ASCII.  It instantiates the
    parameter [FIGURE_CAPTION_RE] in the examples. *)
Definition lower (c : char) : char :=
  if ((65 <=? c) && (c <=? 90))%N then (c + 32)%N else c.

Fixpoint match_literal (p s : str) : option str :=
  match p, s with
  | [], _ => Some s
  | a :: p', b :: s' => if (a =? lower b)%N then match_literal p' s' else None
  | _ :: _, [] => None
  end.

Definition isdigit (c : char) : bool := ((48 <=? c) && (c <=? 57))%N.

Definition digit_after_spaces (s : str) : bool :=
  match lstrip s with
  | d :: _ => isdigit d
  | [] => false
  end.

Definition after_literal (p : string) (s : str) : bool :=
  match match_literal (lit p) s with
  | Some r => digit_after_spaces r
  | None => false
  end.

Definition ascii_caption_match (t : str) : bool :=
  let s := lstrip t in
  after_literal "figure" s || after_literal "fig." s || after_literal "fig" s.

(** The keyword search on the texts of the examples, none of which has a
    keyword: it instantiates the parameter [keyword_re]. *)
Definition no_keyword (t : str) : bool := false.

(** A US letter page, two caption blocks in its lower half, and two
    drawings above them: one of 100 by 100 points, one of 15 by 15. *)
Definition letter_rect : fitz.Rect := fitz.mkRect 0 0 612 792.
Definition caption_box : fitz.Rect := fitz.mkRect 100 400 300 415.
Definition second_caption_box : fitz.Rect := fitz.mkRect 100 700 300 715.
Definition large_drawing : fitz.Rect := fitz.mkRect 100 200 200 300.
Definition small_drawing : fitz.Rect := fitz.mkRect 100 200 115 215.

(** A text of 100 letters x. *)
Definition plain_text : str := repeat 120%N 100.

(** A renderer of clips that succeeds, and one that fails on the crop of
    the first caption only. *)
Definition always_renders (r : fitz.Rect) (dpi : Z) : option str :=
  Some (lit "PNG").

Definition fails_on_first (r : fitz.Rect) (dpi : Z) : option str :=
  if Qeq_bool (fitz.y1 r) 423 then None else Some (lit "PNG").

(** A page with one caption block, "Figure 1: Test", below the large
    drawing. *)
Definition figure_page : fitz.Page :=
  fitz.mkPage letter_rect plain_text
    [fitz.mkBlock 0 caption_box [[lit "Figure 1: Test"]]]
    [] [] (Some [large_drawing])
    always_renders (fun _ => Some (lit "PAGE")).

(** A page with two caption blocks below the large drawing, with a given
    renderer of clips. *)
Definition two_caption_page (render : fitz.Rect -> Z -> option str) : fitz.Page :=
  fitz.mkPage letter_rect plain_text
    [fitz.mkBlock 0 caption_box [[lit "Figure 1: Test"]];
     fitz.mkBlock 0 second_caption_box [[lit "Figure 2: More"]]]
    [] [] (Some [large_drawing])
    render (fun _ => Some (lit "PAGE")).

(** Pages without blocks or drawings: one of plain text, one of plain text
    whose full-page rendering fails, one with three characters of text. *)
Definition text_page : fitz.Page :=
  fitz.mkPage letter_rect plain_text [] [] [] (Some [])
    always_renders (fun _ => Some (lit "PAGE")).


Definition short_page : fitz.Page :=
  fitz.mkPage letter_rect (lit "abc") [] [] [] (Some [])
    always_renders (fun _ => Some (lit "PAGE")).

Definition two_page_doc : fitz.Document := [text_page; text_page].

(** The data of a page of 40 characters, one of them a summation sign:
    its score is 20 times 1/40. *)
Definition half_score_page : PageData :=
  {| page_number := 1;
     text := 8721%N :: repeat 120%N 39;
     has_figure_keyword := false;
     math_density := 1 / 40;
     image_count := 0;
     is_key_page := false;
     png_b64 := [];
     cropped_figures := [] |}.

(** * Predicates of the further properties *)




(** The number of crop renderings, and of full-page renderings, in a
    trace. *)
Definition is_clip (e : event) : bool :=
  match e with PixmapClip _ _ => true | _ => false end.

Definition is_page_render (e : event) : bool :=
  match e with PixmapPage _ => true | _ => false end.

Definition count_clips (l : list event) : nat := length (List.filter is_clip l).

Definition count_page_renders (l : list event) : nat :=
  length (List.filter is_page_render l).

(** The data that lines 344-358 record for the page [page] numbered
    [pn]. *)
Definition describes (FIG KW : str -> bool) (page : fitz.Page) (pn : nat)
    (pd : PageData) : Prop :=
  page_number pd = pn
  /\ text pd = fitz.get_text page
  /\ has_figure_keyword pd = KW (fitz.get_text page)
  /\ math_density pd = math_density_of (fitz.get_text page)
  /\ image_count pd = length (fitz.get_images page)
  /\ result (_extract_cropped_figures FIG page pn) = Return (cropped_figures pd).

(** [pd'] is [pd] up to the two fields that the marking loop sets. *)
Definition same_page_data (pd pd' : PageData) : Prop :=
  page_number pd' = page_number pd
  /\ text pd' = text pd
  /\ has_figure_keyword pd' = has_figure_keyword pd
  /\ math_density pd' = math_density pd
  /\ image_count pd' = image_count pd
  /\ cropped_figures pd' = cropped_figures pd.

(** The two events of lines 385-391, after the marking loop returned
    [marked]. *)
Definition closing_events (full_text : str)
    (marked : list PageData * list PageData) : list event :=
  [DocClose;
   LogInfo "Parsed PDF: %d pages, %d chars, %d figures cropped, %d key pages."
     [int_of_nat (length (fst marked)); int_of_nat (length full_text);
      int_of_nat (sum_list (map (fun p => length (cropped_figures p)) (fst marked)));
      int_of_nat (length (snd marked))]].

(** The events of a run between the opening of the document and the
    removal of the temporary file. *)
Definition run_events (FIG KW : str -> bool) (doc : fitz.Document) : list event :=
  trace (page_loop FIG KW doc 0 [])
  ++ match result (page_loop FIG KW doc 0 []) with
     | Return (pd :: pds) =>
         let full_text := strip (join [10; 10]%N (map text (pd :: pds))) in
         if (length full_text <? 100)%nat then []
         else
           trace (mark_loop doc (key_set_of (pd :: pds)) (pd :: pds) [])
           ++ match result (mark_loop doc (key_set_of (pd :: pds)) (pd :: pds) []) with
              | Return marked => closing_events full_text marked
              | Raise _ => []
              end
     | _ => []
     end.

(** * Matching described figures to crops

    [vision_service.py] and [gemini_vision_service.py] each have a
    [_match_cropped]; both are called with [parsed.all_cropped_figures]. *)

(** [re.findall(r'\d+', s)]: the maximal runs of characters of the class
    [\d], from left to right.  [run] holds the current run, reversed. *)
Fixpoint findall_digits (digit : char -> bool) (run : str) (s : str) : list str :=
  match s with
  | [] => match run with [] => [] | _ :: _ => [rev run] end
  | c :: s' =>
    if digit c then findall_digits digit (c :: run) s'
    else match run with
         | [] => findall_digits digit [] s'
         | _ :: _ => rev run :: findall_digits digit [] s'
         end
  end.

(** [set(re.findall(r'\d+', s))] *)
Definition digit_runs (digit : char -> bool) (s : str) : gset str :=
  list_to_set (findall_digits digit [] s).

(** The truth value of [nums_llm & nums_crop]. *)
Definition share_number (nums_llm nums_crop : gset str) : bool :=
  bool_decide (nums_llm ∩ nums_crop ≠ ∅).

Module vision_service.
Section Matching.
(** [str.lower] and the character class [\d] of [re] on [str]. *)
Variable py_lower : str -> str.
Variable digit : char -> bool.

(** Lines 136-143: the loop that returns at the first crop sharing a
    number with the caption; [None] when it runs to its end. *)
Fixpoint keyword_loop (caption_lower : str) (same_page : list CroppedFigure)
    : option str :=
  match same_page with
  | [] => None
  | crop :: rest =>
    let crop_cap := py_lower (caption crop) in
    let nums_llm := digit_runs digit caption_lower in
    let nums_crop := digit_runs digit crop_cap in
    if share_number nums_llm nums_crop then Some (cf_png_b64 crop)
    else keyword_loop caption_lower rest
  end.

Definition _match_cropped (caption : str) (page_number : nat)
    (cropped_figures : list CroppedFigure) : str :=
  let caption_lower := py_lower caption in
  let same_page :=
    List.filter (fun c => cf_page_number c =? page_number)%nat cropped_figures in
  match keyword_loop caption_lower same_page with
  | Some png => png
  | None =>
    match same_page with
    | c :: _ => cf_png_b64 c
    | [] => []
    end
  end.
End Matching.
End vision_service.

Module gemini_vision_service.
Section Matching.
Variable py_lower : str -> str.
Variable digit : char -> bool.

(** Lines 168-172. *)
Fixpoint number_loop (caption_lower : str) (same_page : list CroppedFigure)
    : option str :=
  match same_page with
  | [] => None
  | crop :: rest =>
    let nums_llm := digit_runs digit caption_lower in
    let nums_crop := digit_runs digit (py_lower (caption crop)) in
    if share_number nums_llm nums_crop then Some (cf_png_b64 crop)
    else number_loop caption_lower rest
  end.

Definition _match_cropped (caption : str) (page_number : nat)
    (cropped_figures : list CroppedFigure) : str :=
  let caption_lower := py_lower caption in
  let same_page :=
    List.filter (fun c => cf_page_number c =? page_number)%nat cropped_figures in
  match number_loop caption_lower same_page with
  | Some png => png
  | None =>
    match same_page with
    | c :: _ => cf_png_b64 c
    | [] => []
    end
  end.
End Matching.
End gemini_vision_service.

(** [str.lower] on ASCII text, for the examples. *)
Definition ascii_lower (s : str) : str := map lower s.

Definition crop_of (pn : nat) (cap png : string) : CroppedFigure :=
  mkCroppedFigure pn (lit cap) (lit png).

(** The crop's caption and the described caption have a run of digits in
    common (the test of [_match_cropped]). *)
Definition shares (py_lower : str -> str) (digit : char -> bool)
    (described : str) (crop : CroppedFigure) : bool :=
  share_number (digit_runs digit (py_lower described))
               (digit_runs digit (py_lower (caption crop))).

(** No crop of [l] on page [pn] shares a number with the caption. *)
Definition none_shares (py_lower : str -> str) (digit : char -> bool)
    (described : str) (pn : nat) (l : list CroppedFigure) : Prop :=
  Forall (fun c => cf_page_number c = pn -> shares py_lower digit described c = false) l.

(** * Chunks of the full text ([utils/chunker.py])

    [summarizer_service.extract_sections] cuts the text it is given into
    the chunks of [chunk_text]. *)

Module chunker.

Definition DIRECT_THRESHOLD : Z := 5000.
Definition CHUNK_SIZE : Z := 6000.
Definition OVERLAP : Z := 500.
Definition MAX_CHUNKS : Z := 12.

Record Chunk := mkChunk {
  index : Z;
  text : str;
  start : Z;
  end_ : Z;
}.

(** [len(s)] *)
Definition len (s : str) : Z := Z.of_nat (length s).

(** The position that a slice bound [i] stands for in a string of length
    [n]: negative bounds count from the end, and all are clamped. *)
Definition slice_index (n i : Z) : Z :=
  if (i <? 0)%Z then Z.max 0 (n + i) else Z.min i n.

(** [s[i:j]] *)
Definition slice (s : str) (i j : Z) : str :=
  let a := slice_index (len s) i in
  let b := slice_index (len s) j in
  take (Z.to_nat (b - a)) (drop (Z.to_nat a) s).

(** The highest of the [n] positions [lo], ..., [lo + n - 1] at which
    [sub] occurs in [s], and -1 when there is none. *)
Fixpoint rfind_from (s sub : str) (lo : Z) (n : nat) : Z :=
  match n with
  | O => -1
  | S n' =>
    let i := (lo + Z.of_nat n')%Z in
    if bool_decide (take (length sub) (drop (Z.to_nat i) s) = sub) then i
    else rfind_from s sub lo n'
  end.

(** [s.rfind(sub, start, end)]: the highest index of an occurrence of
    [sub] that lies within [s[start:end]], and -1 when there is none. *)
Definition rfind (s sub : str) (start end_ : Z) : Z :=
  let a := slice_index (len s) start in
  let b := slice_index (len s) end_ in
  rfind_from s sub a (Z.to_nat (b - len sub - a + 1)).

(** Lines 61-72: the end of the chunk that starts at [start]. *)
Definition chunk_end (text : str) (start : Z) : Z :=
  let end_ := Z.min (start + CHUNK_SIZE) (len text) in
  if (end_ <? len text)%Z then
    let para_break := rfind text [10; 10]%N (start + CHUNK_SIZE / 2) end_ in
    if negb (para_break =? -1)%Z then (para_break + 2)%Z
    else
      let sent_break := rfind text [46; 32]%N (start + CHUNK_SIZE / 2) end_ in
      if negb (sent_break =? -1)%Z then (sent_break + 2)%Z
      else end_
  else end_.

(** The [while] loop of lines 60-78.  [fuel] bounds the number of
    iterations; [None] means that it was used up before the loop
    condition became false. *)
Fixpoint chunk_loop (fuel : nat) (text : str) (start idx : Z)
    (chunks : list Chunk) : option (list Chunk) :=
  if ((start <? len text) && (idx <? MAX_CHUNKS))%Z then
    match fuel with
    | O => None
    | S fuel' =>
      let end_ := chunk_end text start in
      let chunks := chunks ++ [mkChunk idx (slice text start end_) start end_] in
      let start := Z.max (end_ - OVERLAP) (end_ - CHUNK_SIZE / 4) in
      let idx := (idx + 1)%Z in
      chunk_loop fuel' text start idx chunks
    end
  else Some chunks.

(** [chunk_text], with the loop given [fuel] iterations. *)
Definition chunk_text_with (fuel : nat) (text : str) : option (M (list Chunk)) :=
  if (len text <=? DIRECT_THRESHOLD)%Z then
    Some (ret [mkChunk 0 text 0 (len text)])
  else
    match chunk_loop fuel text 0 0 [] with
    | None => None
    | Some chunks =>
      Some (emit (LogInfo "Chunked %d chars into %d chunks (max %d chars each)."
                    [ArgInt (len text); ArgInt (Z.of_nat (length chunks));
                     ArgInt CHUNK_SIZE]) ;;;
            ret chunks)
    end.

(** [chunk_text]: the loop condition fails after [MAX_CHUNKS] iterations
    at the latest, so that many suffice. *)
Definition chunk_text (text : str) : option (M (list Chunk)) :=
  chunk_text_with (Z.to_nat MAX_CHUNKS) text.

Definition is_single_chunk (text : str) : bool :=
  (len text <=? DIRECT_THRESHOLD)%Z.

End chunker.

(** ** Predicates on chunks *)

(** Position [p] of the text lies in the chunk. *)
Definition in_chunk (p : Z) (c : chunker.Chunk) : Prop :=
  (chunker.start c <= p < chunker.end_ c)%Z.

(** The end of the last chunk. *)
Definition last_end (chunks : list chunker.Chunk) : Z :=
  match last chunks with
  | Some c => chunker.end_ c
  | None => 0
  end.

(** The chunk is cut out of [text] at its own bounds, which lie within
    the text. *)
Definition well_cut (text : str) (c : chunker.Chunk) : Prop :=
  (0 <= chunker.start c)%Z
  /\ (chunker.start c < chunker.end_ c)%Z
  /\ (chunker.end_ c <= chunker.len text)%Z
  /\ (chunker.end_ c - chunker.start c <= chunker.CHUNK_SIZE)%Z
  /\ chunker.text c = chunker.slice text (chunker.start c) (chunker.end_ c)
  /\ chunker.len (chunker.text c) = (chunker.end_ c - chunker.start c)%Z.

(** The chunks that the loop appends from [start] and [idx] on: each is
    cut at [chunk_end], and the next starts [OVERLAP] before its end. *)
Fixpoint chained (text : str) (start idx : Z) (l : list chunker.Chunk) : Prop :=
  match l with
  | [] => True
  | c :: rest =>
    chunker.index c = idx
    /\ chunker.start c = start
    /\ chunker.end_ c = chunker.chunk_end text start
    /\ chunker.text c = chunker.slice text start (chunker.end_ c)
    /\ chained text (chunker.end_ c - chunker.OVERLAP) (idx + 1) rest
  end.

(** A text of 5200 characters with a paragraph break at 4000. *)
Definition long_text : str :=
  repeat 120%N 4000 ++ [10; 10]%N ++ repeat 121%N 1198.

(** * Properties *)

(** ** Comparisons, [min] and [max] *)

Lemma Qltb_lt (a b : Q) : Qltb a b = true <-> a < b.
Proof.
  unfold Qltb. rewrite negb_true_iff.
  destruct (Qle_bool b a) eqn:E.
  - apply Qle_bool_iff in E. split; [discriminate | intros H; lra].
  - split; [intros _ | reflexivity].
    destruct (Qlt_le_dec a b) as [H | H]; [exact H |].
    apply Qle_bool_iff in H. congruence.
Qed.

Lemma Qltb_ge (a b : Q) : Qltb a b = false <-> b <= a.
Proof.
  destruct (Qltb a b) eqn:E.
  - apply Qltb_lt in E. split; [discriminate | intros H; lra].
  - split; [intros _ | reflexivity].
    destruct (Qlt_le_dec a b) as [H | H]; [| exact H].
    apply Qltb_lt in H. congruence.
Qed.

Lemma Qgtb_gt (a b : Q) : Qgtb a b = true <-> b < a.
Proof. apply Qltb_lt. Qed.

Lemma Qgtb_le (a b : Q) : Qgtb a b = false <-> a <= b.
Proof. apply Qltb_ge. Qed.

(** Case analysis on every comparison in the goal or in a hypothesis. *)
Ltac cmp_cases :=
  repeat match goal with
  | |- context [Qltb ?a ?b] =>
      let E := fresh "E" in
      destruct (Qltb a b) eqn:E;
      [apply Qltb_lt in E | apply Qltb_ge in E]
  | H : context [Qltb ?a ?b] |- _ =>
      let E := fresh "E" in
      destruct (Qltb a b) eqn:E;
      [apply Qltb_lt in E | apply Qltb_ge in E]
  end.

Lemma py_min_spec (a b : Q) :
  (b < a /\ py_min a b = b) \/ (a <= b /\ py_min a b = a).
Proof. unfold py_min. cmp_cases; auto. Qed.

Lemma py_max_spec (a b : Q) :
  (a < b /\ py_max a b = b) \/ (b <= a /\ py_max a b = a).
Proof. unfold py_max, Qgtb. cmp_cases; auto. Qed.

Lemma py_min_le_l (a b : Q) : py_min a b <= a.
Proof. destruct (py_min_spec a b) as [[? ->] | [? ->]]; lra. Qed.

Lemma py_min_le_r (a b : Q) : py_min a b <= b.
Proof. destruct (py_min_spec a b) as [[? ->] | [? ->]]; lra. Qed.


Lemma py_max_ge_r (a b : Q) : b <= py_max a b.
Proof. destruct (py_max_spec a b) as [[? ->] | [? ->]]; lra. Qed.


(** ** Symbol density *)

Lemma Q_of_nat_pos (n : nat) : (0 < n)%nat -> 0 < Q_of_nat n.
Proof.
  intros H. unfold Q_of_nat. change 0 with (inject_Z 0).
  rewrite <- Zlt_Qlt. lia.
Qed.

Lemma Q_of_nat_nonneg (n : nat) : 0 <= Q_of_nat n.
Proof.
  unfold Q_of_nat. change 0 with (inject_Z 0). rewrite <- Zle_Qle. lia.
Qed.

Lemma Q_of_nat_le (n m : nat) : (n <= m)%nat -> Q_of_nat n <= Q_of_nat m.
Proof. intros H. unfold Q_of_nat. rewrite <- Zle_Qle. lia. Qed.

Lemma count_math_le (s : str) : (count_math s <= length s)%nat.
Proof. unfold count_math. apply List.filter_length_le. Qed.

Lemma truediv_nonzero (a b : Q) : 0 < b -> truediv a b = ret (a / b).
Proof.
  intros Hb. unfold truediv. destruct (Qeq_bool b 0) eqn:E; [| reflexivity].
  apply Qeq_bool_iff in E. lra.
Qed.

Lemma _math_density_ret (s : str) : _math_density s = ret (math_density_of s).
Proof.
  destruct s as [| c s]; [reflexivity |].
  unfold _math_density, math_density_of.
  apply truediv_nonzero, Q_of_nat_pos. simpl. lia.
Qed.

Lemma math_density_of_range (s : str) :
  0 <= math_density_of s /\ math_density_of s <= 1.
Proof.
  destruct s as [| c s]; [simpl; lra |].
  unfold math_density_of.
  assert (Hlen : 0 < Q_of_nat (length (c :: s)))
    by (apply Q_of_nat_pos; simpl; lia).
  pose proof (Q_of_nat_nonneg (count_math (c :: s))) as H0.
  pose proof (Q_of_nat_le _ _ (count_math_le (c :: s))) as H1.
  split.
  - apply Qle_shift_div_l; [exact Hlen | lra].
  - apply Qle_shift_div_r; [exact Hlen | lra].
Qed.

(** C10: for every string the symbol density is returned (never a raised
    [ZeroDivisionError]) and lies in the closed interval from 0 to 1; for
    the empty string it is exactly 0, the guard before the division, and
    where the division is performed the length is not zero. *)
Theorem math_density_unit_interval :
  (forall s : str, exists q, _math_density s = ret q /\ 0 <= q /\ q <= 1)
  /\ _math_density [] = ret 0
  /\ (forall s : str, result (_math_density s) <> Raise ZeroDivisionError)
  /\ (forall (c : char) (s : str),
        _math_density (c :: s)
        = truediv (Q_of_nat (count_math (c :: s))) (Q_of_nat (length (c :: s)))
        /\ ~ Q_of_nat (length (c :: s)) == 0).
Proof.
  split; [| split; [| split]].
  - intros s. exists (math_density_of s).
    split; [apply _math_density_ret | apply math_density_of_range].
  - reflexivity.
  - intros s. rewrite _math_density_ret. discriminate.
  - intros c s. split; [reflexivity |].
    pose proof (Q_of_nat_pos (length (c :: s))) as H.
    simpl length in *. intros E. rewrite E in H.
    apply (Qlt_irrefl 0), H. lia.
Qed.

(** ** Region inference *)




Lemma fallback_h_above (cap page_rect : fitz.Rect) :
  _figure_is_above_caption cap (fitz.height page_rect) = true ->
  fallback_h cap page_rect = py_min 200 (fitz.y0 cap - fitz.y0 page_rect).
Proof. intros E. unfold fallback_h. rewrite E. reflexivity. Qed.

Lemma py_min_200_gt_40 (span : Q) : 40 < py_min 200 span <-> 40 < span.
Proof. destruct (py_min_spec 200 span) as [[? ->] | [? ->]]; lra. Qed.

(** The fallback test of line 232. *)
Lemma fallback_region_cases (cap page_rect : fitz.Rect) :
  let span := fitz.y0 cap - fitz.y0 page_rect in
  (_figure_is_above_caption cap (fitz.height page_rect) = true
   /\ 40 < span
   /\ fallback_region cap page_rect
      = Some (fitz.mkRect (fitz.x0 cap - 20) (fitz.y0 cap - py_min 200 span)
                          (fitz.x1 cap + 20) (fitz.y1 cap)))
  \/
  ((_figure_is_above_caption cap (fitz.height page_rect) = false \/ span <= 40)
   /\ fallback_region cap page_rect = None).
Proof.
  intros span. unfold fallback_region.
  destruct (_figure_is_above_caption cap (fitz.height page_rect)) eqn:E.
  - rewrite (fallback_h_above _ _ E). fold span. simpl.
    destruct (Qgtb (py_min 200 span) 40) eqn:G.
    + apply Qgtb_gt in G. apply (proj1 (py_min_200_gt_40 span)) in G.
      left. auto.
    + apply Qgtb_le in G. right. split; [right | reflexivity].
      destruct (Qlt_le_dec 40 span) as [L | L]; [| exact L].
      apply (proj2 (py_min_200_gt_40 span)) in L. lra.
  - right. simpl. auto.
Qed.

(** The test of line 223. *)
Lemma union_region_cases (cap : fitz.Rect) (zone : list fitz.Rect) :
  (exists combined,
      zone <> [] /\ _union_rects zone = Some combined
      /\ fitz.truth combined = true
      /\ 20 < fitz.width combined /\ 20 < fitz.height combined
      /\ union_region cap zone = Some (fitz.union combined cap))
  \/
  ((zone = []
    \/ exists combined,
         _union_rects zone = Some combined
         /\ (fitz.truth combined = false
             \/ fitz.width combined <= 20 \/ fitz.height combined <= 20))
   /\ union_region cap zone = None).
Proof.
  destruct zone as [| r0 rest]; [right; auto |].
  unfold union_region.
  destruct (_union_rects (r0 :: rest)) as [combined |] eqn:U; [| discriminate].
  destruct (fitz.truth combined) eqn:T; simpl.
  - destruct (Qgtb (fitz.width combined) 20) eqn:W; simpl.
    + destruct (Qgtb (fitz.height combined) 20) eqn:H.
      * apply Qgtb_gt in W, H. left. exists combined.
        repeat split; auto; discriminate.
      * apply Qgtb_le in H. right. split; [right | reflexivity].
        exists combined. auto.
    + apply Qgtb_le in W. right. split; [right | reflexivity].
      exists combined. auto.
  - right. split; [right | reflexivity]. exists combined. auto.
Qed.

(** C3, as the code has it: the fixed-height fallback region (the caption
    and at most 200 points above it, 20 points wider on each side) is used
    exactly when the union branch does not return (no rectangle survives
    the zone filter, or the union of the survivors is not more than 20
    points wide and high), the figure was classified above, and the span
    from page top to caption top exceeds 40 points; in every other case in
    which the union branch does not return, no region is found. *)
Theorem fallback_exactly_when_no_union_returned
    (cap : fitz.Rect) (t : str) (page : fitz.Page)
    (dr rr : list fitz.Rect) (tb : list (fitz.Rect * str)) :
  let page_rect := fitz.rect page in
  let zone := zone_rects cap page_rect dr rr in
  let span := fitz.y0 cap - fitz.y0 page_rect in
  let above := _figure_is_above_caption cap (fitz.height page_rect) in
  (exists combined,
      zone <> [] /\ _union_rects zone = Some combined
      /\ fitz.truth combined = true
      /\ 20 < fitz.width combined /\ 20 < fitz.height combined
      /\ _crop_for_caption cap t page dr rr tb = Some (fitz.union combined cap)
      /\ ~ fallback_used cap page_rect dr rr)
  \/
  ((zone = []
    \/ exists combined,
         _union_rects zone = Some combined
         /\ (fitz.truth combined = false
             \/ fitz.width combined <= 20 \/ fitz.height combined <= 20))
   /\
   ((above = true /\ 40 < span
     /\ fallback_used cap page_rect dr rr
     /\ py_min 200 span <= 200
     /\ _crop_for_caption cap t page dr rr tb
        = Some (fitz.mkRect (fitz.x0 cap - 20) (fitz.y0 cap - py_min 200 span)
                            (fitz.x1 cap + 20) (fitz.y1 cap)))
    \/
    ((above = false \/ span <= 40)
     /\ ~ fallback_used cap page_rect dr rr
     /\ _crop_for_caption cap t page dr rr tb = None))).
Proof.
  intros page_rect zone span above. subst span above.
  unfold _crop_for_caption, fallback_used. fold page_rect. fold zone.
  destruct (union_region_cases cap zone)
    as [(combined & Hne & HU & HT & HW & HH & HR) | [Hzone HR]].
  - left. exists combined. rewrite HR.
    repeat split; auto. intros [HN _]. discriminate.
  - right. split; [exact Hzone |]. rewrite HR.
    destruct (fallback_region_cases cap page_rect)
      as [(Ha & Hs & HF) | [Hn HF]].
    + left. rewrite HF. repeat split; auto; try discriminate.
      apply py_min_le_l.
    + right. rewrite HF. repeat split; auto. intros [_ HN]. congruence.
Qed.

(** C3 as stated fails: a 15 by 15 point drawing survives the zone filter,
    its union is too small for the union branch, and the fallback region
    is returned although a rectangle survived. *)
Lemma fallback_used_with_survivor :
  zone_rects caption_box letter_rect [small_drawing] [] = [small_drawing]
  /\ _crop_for_caption caption_box (lit "Figure 1: Test") text_page
       [small_drawing] [] []
     = Some (fitz.mkRect 80 200 320 415)
  /\ fallback_used caption_box letter_rect [small_drawing] []
  /\ ~ (fallback_used caption_box letter_rect [small_drawing] []
        <-> (zone_rects caption_box letter_rect [small_drawing] [] = []
             /\ _figure_is_above_caption caption_box (fitz.height letter_rect) = true
             /\ 40 < fitz.y0 caption_box - fitz.y0 letter_rect)).
Proof.
  assert (Z : zone_rects caption_box letter_rect [small_drawing] []
              = [small_drawing]) by (vm_compute; reflexivity).
  assert (F : fallback_used caption_box letter_rect [small_drawing] []).
  { split; [vm_compute; reflexivity | vm_compute; discriminate]. }
  split; [exact Z | split; [vm_compute; reflexivity | split; [exact F |]]].
  intros [H _]. destruct (H F) as [Hnil _]. rewrite Z in Hnil. discriminate.
Qed.

(** ** The monad *)

Arguments bind : simpl never.
Arguments emit : simpl never.
Arguments ret : simpl never.
Arguments raise : simpl never.

Lemma bind_ret_l {A B} (a : A) (f : A -> M B) : bind (ret a) f = f a.
Proof. unfold bind, ret. destruct (f a). reflexivity. Qed.

Lemma bind_raise_l {A B} (e : exn) (f : A -> M B) : bind (raise e) f = raise e.
Proof. reflexivity. Qed.

Lemma bind_emit {B} (e : event) (k : M B) :
  bind (emit e) (fun _ => k) = (e :: trace k, result k).
Proof. unfold bind, emit. destruct k. reflexivity. Qed.

Lemma trace_bind {A B} (m : M A) (f : A -> M B) (e : event) :
  e ∈ trace (bind m f)
  <-> e ∈ trace m \/ exists a, result m = Return a /\ e ∈ trace (f a).
Proof.
  destruct m as [t [a | x]]; unfold bind; simpl.
  - destruct (f a) as [t' r] eqn:F; simpl. rewrite elem_of_app. split.
    + intros [H | H]; [left; exact H | right].
      exists a. rewrite F. auto.
    + intros [H | (a' & Ha & H)]; [left; exact H | right].
      inversion Ha; subst. rewrite F in H. exact H.
  - split; [auto |]. intros [H | (a' & Ha & _)]; [exact H | discriminate].
Qed.

Lemma Forall_trace_bind {A B} (P : event -> Prop) (m : M A) (f : A -> M B) :
  Forall P (trace m) ->
  (forall a, result m = Return a -> Forall P (trace (f a))) ->
  Forall P (trace (bind m f)).
Proof.
  intros Hm Hf. apply Forall_forall. intros e He.
  apply trace_bind in He. destruct He as [He | (a & Ha & He)].
  - eapply Forall_forall in Hm; eauto.
  - specialize (Hf a Ha). eapply Forall_forall in Hf; eauto.
Qed.

Lemma result_bind_return {A B} (m : M A) (f : A -> M B) (b : B) :
  result (bind m f) = Return b
  <-> exists a, result m = Return a /\ result (f a) = Return b.
Proof.
  destruct m as [t [a | x]]; unfold bind; simpl.
  - destruct (f a) as [t' r] eqn:F; simpl. split.
    + intros ->. exists a. rewrite F. auto.
    + intros (a' & Ha & H). inversion Ha; subst. rewrite F in H. exact H.
  - split; [discriminate | intros (a' & Ha & _); discriminate].
Qed.

Lemma result_bind_raise {A B} (m : M A) (f : A -> M B) (x : exn) :
  result (bind m f) = Raise x
  <-> result m = Raise x
      \/ exists a, result m = Return a /\ result (f a) = Raise x.
Proof.
  destruct m as [t [a | y]]; unfold bind; simpl.
  - destruct (f a) as [t' r] eqn:F; simpl. split.
    + intros ->. right. exists a. rewrite F. auto.
    + intros [H | (a' & Ha & H)]; [discriminate |].
      inversion Ha; subst. rewrite F in H. exact H.
  - split; [intros H; left; inversion H; reflexivity |].
    intros [H | (a' & Ha & _)]; [inversion H; reflexivity | discriminate].
Qed.

(** ** Crops handed to the renderer *)

Lemma clamp_not_too_small (c page_rect : fitz.Rect) :
  too_small (clamp_to_page c page_rect) = false ->
  crop_ok page_rect (clamp_to_page c page_rect).
Proof.
  intros H. unfold too_small in H.
  destruct (orb_false_elim _ _ H) as [HW HH].
  apply Qltb_ge in HW, HH.
  assert (Wd : 20 <= fitz.x1 (clamp_to_page c page_rect)
                     - fitz.x0 (clamp_to_page c page_rect)).
  { revert HW. unfold fitz.width.
    destruct (py_max_spec 0 (fitz.x1 (clamp_to_page c page_rect)
                             - fitz.x0 (clamp_to_page c page_rect)))
      as [[? ->] | [? ->]]; lra. }
  assert (Hd : 20 <= fitz.y1 (clamp_to_page c page_rect)
                     - fitz.y0 (clamp_to_page c page_rect)).
  { revert HH. unfold fitz.height.
    destruct (py_max_spec 0 (fitz.y1 (clamp_to_page c page_rect)
                             - fitz.y0 (clamp_to_page c page_rect)))
      as [[? ->] | [? ->]]; lra. }
  unfold crop_ok. split; [exact HW | split; [exact HH |]].
  simpl in *.
  pose proof (py_max_ge_r (fitz.x0 c - CROP_PAD) (fitz.x0 page_rect)).
  pose proof (py_max_ge_r (fitz.y0 c - CROP_PAD) (fitz.y0 page_rect)).
  pose proof (py_min_le_r (fitz.x1 c + CROP_PAD) (fitz.x1 page_rect)).
  pose proof (py_min_le_r (fitz.y1 c + CROP_PAD) (fitz.y1 page_rect)).
  repeat split; lra.
Qed.

Lemma _render_rect_trace (page : fitz.Page) (r : fitz.Rect) (dpi : Z) :
  trace (_render_rect page r dpi) = [PixmapClip r dpi].
Proof.
  unfold _render_rect. rewrite bind_emit.
  destruct (fitz.get_pixmap_clip page r dpi); reflexivity.
Qed.

Lemma _render_rect_result (page : fitz.Page) (r : fitz.Rect) (dpi : Z) :
  result (_render_rect page r dpi)
  = match fitz.get_pixmap_clip page r dpi with
    | Some png => Return png
    | None => Raise RuntimeError
    end.
Proof.
  unfold _render_rect. rewrite bind_emit.
  destruct (fitz.get_pixmap_clip page r dpi); reflexivity.
Qed.

Lemma caption_loop_clips_ok (page : fitz.Page) (pn : nat)
    (dr rr : list fitz.Rect) (tb caps : list (fitz.Rect * str)) :
  forall figs,
    Forall (clips_ok (fitz.rect page))
           (trace (caption_loop page pn dr rr tb caps figs)).
Proof.
  induction caps as [| [cap t] rest IH]; intros figs; simpl.
  - constructor.
  - destruct (_crop_for_caption cap t page dr rr tb) as [c |].
    + destruct (too_small (clamp_to_page c (fitz.rect page))) eqn:TS.
      * apply IH.
      * apply Forall_trace_bind.
        -- rewrite _render_rect_trace. constructor; [| constructor].
           simpl. apply clamp_not_too_small, TS.
        -- intros png _. rewrite bind_emit. simpl.
           constructor; [exact I | apply IH].
    + rewrite bind_emit. simpl. constructor; [exact I | apply IH].
Qed.

Lemma caption_loop_figures (page : fitz.Page) (pn : nat)
    (dr rr : list fitz.Rect) (tb caps : list (fitz.Rect * str)) :
  forall figs figs',
    result (caption_loop page pn dr rr tb caps figs) = Return figs' ->
    forall fig, fig ∈ figs' ->
      fig ∈ figs
      \/ exists r,
           PixmapClip r CROP_DPI ∈ trace (caption_loop page pn dr rr tb caps figs)
           /\ crop_ok (fitz.rect page) r /\ rendered_from page r fig.
Proof.
  induction caps as [| [cap t] rest IH]; intros figs figs' HR fig Hin; simpl in *.
  - inversion HR; subst. left. exact Hin.
  - destruct (_crop_for_caption cap t page dr rr tb) as [c |].
    + destruct (too_small (clamp_to_page c (fitz.rect page))) eqn:TS.
      * apply (IH _ _ HR _ Hin).
      * apply result_bind_return in HR as (png & Hpng & HR).
        rewrite bind_emit in HR. simpl in HR.
        rewrite _render_rect_result in Hpng.
        destruct (fitz.get_pixmap_clip page (clamp_to_page c (fitz.rect page)) CROP_DPI)
          as [png' |] eqn:G; [| discriminate].
        inversion Hpng; subst png'.
        destruct (IH _ _ HR _ Hin) as [Hold | (r & Hr & Hok & Hfrom)].
        -- apply elem_of_app in Hold as [Hold | Hnew]; [left; exact Hold |].
           apply list_elem_of_singleton in Hnew. subst fig. right.
           exists (clamp_to_page c (fitz.rect page)). split; [| split].
           ++ apply trace_bind. left. rewrite _render_rect_trace.
              apply list_elem_of_singleton. reflexivity.
           ++ apply clamp_not_too_small, TS.
           ++ exact G.
        -- right. exists r. split; [| split; assumption].
           apply trace_bind. right. exists png.
           split; [rewrite _render_rect_result, G; reflexivity |].
           rewrite bind_emit. simpl. apply elem_of_cons. right. exact Hr.
    + rewrite bind_emit in HR. simpl in HR.
      destruct (IH _ _ HR _ Hin) as [Hold | (r & Hr & Hok & Hfrom)];
        [left; exact Hold | right].
      exists r. split; [| split; assumption].
      rewrite bind_emit. simpl. apply elem_of_cons. right. exact Hr.
Qed.

(** The two ways in which a caption is passed over. *)
Lemma caption_loop_no_region (page : fitz.Page) (pn : nat)
    (dr rr : list fitz.Rect) (tb rest : list (fitz.Rect * str))
    (cap : fitz.Rect) (t : str) (figs : list CroppedFigure) :
  _crop_for_caption cap t page dr rr tb = None ->
  caption_loop page pn dr rr tb ((cap, t) :: rest) figs
  = (emit (LogDebug "Page %d: could not determine crop for '%s'"
             [int_of_nat pn; ArgStr (take 40 t)]) ;;;
     caption_loop page pn dr rr tb rest figs).
Proof. intros H. simpl. rewrite H. reflexivity. Qed.

Lemma caption_loop_too_small (page : fitz.Page) (pn : nat)
    (dr rr : list fitz.Rect) (tb rest : list (fitz.Rect * str))
    (cap c : fitz.Rect) (t : str) (figs : list CroppedFigure) :
  _crop_for_caption cap t page dr rr tb = Some c ->
  too_small (clamp_to_page c (fitz.rect page)) = true ->
  caption_loop page pn dr rr tb ((cap, t) :: rest) figs
  = caption_loop page pn dr rr tb rest figs.
Proof. intros H TS. simpl. rewrite H, TS. reflexivity. Qed.

Lemma _extract_cropped_figures_unfold (FIG : str -> bool)
    (page : fitz.Page) (pn : nat) :
  let tb := _collect_text_blocks page in
  let dr := _collect_drawing_rects page in
  let rr := _collect_raster_blocks page in
  let caps := List.filter (fun rt => FIG (snd rt)) tb in
  (caps = []
   /\ _extract_cropped_figures FIG page pn
      = (emit (LogDebug "Page %d: no figure captions found." [int_of_nat pn]) ;;;
         ret []))
  \/
  (caps <> []
   /\ _extract_cropped_figures FIG page pn
      = (emit (LogDebug "Page %d: %d caption(s), %d drawings, %d rasters."
                 [int_of_nat pn; int_of_nat (length caps);
                  int_of_nat (length dr); int_of_nat (length rr)]) ;;;
         caption_loop page pn dr rr tb caps [])).
Proof.
  intros tb dr rr caps. unfold _extract_cropped_figures.
  fold tb. fold dr. fold rr. fold caps.
  destruct caps; [left | right]; split; auto; discriminate.
Qed.

(** C5: every crop rectangle handed to the renderer, and so every one
    rendered into a [CroppedFigure], is after padding and clamping at least
    20 points wide and high and lies within the page rectangle; a caption
    whose padded and clamped rectangle is narrower or shorter than that
    yields no figure and no rendering. *)
Theorem rendered_crops_inside_page_and_not_small
    (FIG : str -> bool) (page : fitz.Page) (pn : nat) :
  (forall r dpi,
      PixmapClip r dpi ∈ trace (_extract_cropped_figures FIG page pn) ->
      crop_ok (fitz.rect page) r)
  /\ (forall figs fig,
        result (_extract_cropped_figures FIG page pn) = Return figs ->
        fig ∈ figs ->
        exists r,
          PixmapClip r CROP_DPI ∈ trace (_extract_cropped_figures FIG page pn)
          /\ crop_ok (fitz.rect page) r /\ rendered_from page r fig)
  /\ (forall cap t c rest dr rr tb figs,
        _crop_for_caption cap t page dr rr tb = Some c ->
        too_small (clamp_to_page c (fitz.rect page)) = true ->
        caption_loop page pn dr rr tb ((cap, t) :: rest) figs
        = caption_loop page pn dr rr tb rest figs).
Proof.
  split; [| split].
  - intros r dpi Hin.
    assert (F : Forall (clips_ok (fitz.rect page))
                  (trace (_extract_cropped_figures FIG page pn))).
    { destruct (_extract_cropped_figures_unfold FIG page pn) as [[_ ->] | [_ ->]];
        rewrite bind_emit; simpl; constructor; try exact I.
      - constructor.
      - apply caption_loop_clips_ok. }
    eapply Forall_forall in F; [| exact Hin]. exact F.
  - intros figs fig HR Hin.
    destruct (_extract_cropped_figures_unfold FIG page pn) as [[_ E] | [_ E]];
      rewrite E in *; rewrite bind_emit in *; simpl in *.
    + inversion HR; subst. inversion Hin.
    + destruct (caption_loop_figures _ _ _ _ _ _ _ _ HR _ Hin)
        as [Hold | (r & Hr & Hok & Hfrom)]; [inversion Hold |].
      exists r. split; [| split; assumption].
      apply elem_of_cons. right. exact Hr.
  - intros cap t c rest dr rr tb figs. apply caption_loop_too_small.
Qed.

Lemma rendered_crops_witness :
  PixmapClip (fitz.mkRect 92 192 308 423) CROP_DPI
    ∈ trace (_extract_cropped_figures ascii_caption_match figure_page 1)
  /\ crop_ok letter_rect (fitz.mkRect 92 192 308 423).
Proof.
  assert (H : PixmapClip (fitz.mkRect 92 192 308 423) CROP_DPI
                ∈ trace (_extract_cropped_figures ascii_caption_match figure_page 1)).
  { vm_compute. apply list_elem_of_In. right. left. reflexivity. }
  split; [exact H |].
  exact (proj1 (rendered_crops_inside_page_and_not_small
                  ascii_caption_match figure_page 1) _ _ H).
Defined.

(** ** The stable sort *)

Section sort_by.

Context {A : Type} (before : A -> A -> bool).

Lemma insert_by_perm (x : A) (l : list A) : insert_by before x l ≡ₚ x :: l.
Proof.
  induction l as [| y l IH]; simpl; [reflexivity |].
  destruct (before y x); [| reflexivity].
  rewrite IH. apply Permutation_swap.
Qed.

Lemma sort_by_perm (l : list A) : sort_by before l ≡ₚ l.
Proof.
  induction l as [| x l IH]; simpl; [reflexivity |].
  rewrite insert_by_perm, IH. reflexivity.
Qed.



(** A list in which no element has to overtake an earlier one is
    left as it is. *)
Lemma sort_by_sorted_id (l : list A) :
  StronglySorted (fun x y => before y x = false) l -> sort_by before l = l.
Proof.
  induction 1 as [| x l HS IH HF]; simpl; [reflexivity |].
  rewrite IH. destruct l as [| y l]; simpl; [reflexivity |].
  inversion HF as [| ? ? Hy _]; subst. rewrite Hy. reflexivity.
Qed.

Section sorted.

Context (R : relation A) `{!Transitive R}.
Hypothesis before_true : forall y x, before y x = true -> R y x.
Hypothesis before_false : forall y x, before y x = false -> R x y.



End sorted.

End sort_by.

Lemma insert_by_map {A B} (before : A -> A -> bool) (g : B -> A) (x : B) (l : list B) :
  insert_by before (g x) (map g l)
  = map g (insert_by (fun y x => before (g y) (g x)) x l).
Proof.
  induction l as [| y l IH]; simpl; [reflexivity |].
  destruct (before (g y) (g x)); simpl; [rewrite IH |]; reflexivity.
Qed.

Lemma sort_by_map {A B} (before : A -> A -> bool) (g : B -> A) (l : list B) :
  sort_by before (map g l) = map g (sort_by (fun y x => before (g y) (g x)) l).
Proof.
  induction l as [| x l IH]; simpl; [reflexivity |].
  rewrite IH. apply insert_by_map.
Qed.

(** ** Scores *)

Lemma _score_page_ret (pd : PageData) : _score_page pd = ret (score_of pd).
Proof.
  unfold _score_page, score_of. rewrite _math_density_ret, bind_ret_l.
  reflexivity.
Qed.

Lemma mapM_score_ret (pages : list PageData) :
  mapM _score_page pages = ret (map score_of pages).
Proof.
  induction pages as [| pd pages IH]; simpl; [reflexivity |].
  rewrite _score_page_ret, bind_ret_l, IH, bind_ret_l. reflexivity.
Qed.

Lemma zip_with_keys {A B} (f : A -> B) (l : list A) :
  zip l (map f l) = map (fun a => (a, f a)) l.
Proof. induction l as [| a l IH]; simpl; [| rewrite IH]; reflexivity. Qed.

Lemma sorted_by_score_desc_ret (pages : list PageData) :
  sorted_by_score_desc pages = ret (ranked pages).
Proof.
  unfold sorted_by_score_desc, ranked.
  rewrite mapM_score_ret, bind_ret_l, zip_with_keys.
  rewrite (sort_by_map (fun y x => Qgtb (snd y) (snd x))
             (fun a => (a, score_of a))).
  simpl. rewrite List.map_map. simpl. rewrite List.map_id. reflexivity.
Qed.

Lemma select_loop_ret (top : list PageData) :
  forall key_pages_set : gset nat,
    select_loop top key_pages_set
    = ret (key_pages_set
           ∪ list_to_set
               (map page_number
                  (List.filter (fun pd => Qgtb (score_of pd) 0.5) top))).
Proof.
  induction top as [| pd top IH]; intros S; simpl.
  - rewrite (right_id_L ∅ (∪)). reflexivity.
  - rewrite _score_page_ret, bind_ret_l, IH.
    destruct (Qgtb (score_of pd) 0.5); simpl; [| reflexivity].
    rewrite (assoc_L (∪)). reflexivity.
Qed.

Lemma select_key_pages_ret (pages : list PageData) :
  select_key_pages pages
  = ret (initial_key_pages (length pages)
         ∪ list_to_set (map page_number (scored_additions pages))).
Proof.
  unfold select_key_pages. rewrite sorted_by_score_desc_ret, bind_ret_l.
  apply select_loop_ret.
Qed.

Lemma score_of_formula (pd : PageData) :
  score_of pd ==
    4.0 * (if has_figure_keyword pd then 1 else 0)
    + 3.0 * Q_of_nat (length (cropped_figures pd))
    + 2.0 * Q_of_nat (Nat.min (image_count pd) 3)
    + 20.0 * math_density_of (text pd).
Proof.
  unfold score_of.
  destruct (has_figure_keyword pd);
    destruct (cropped_figures pd) as [| f fs];
    destruct (image_count pd) as [| n];
    cbv zeta; unfold Nat.ltb; simpl Nat.leb; simpl Nat.min; cbv iota;
    try (change (length (@nil CroppedFigure)) with 0%nat);
    try (change (Q_of_nat 0) with 0); lra.
Qed.


Lemma ranked_perm (pages : list PageData) : ranked pages ≡ₚ pages.
Proof. apply sort_by_perm. Qed.




Lemma scored_additions_spec (pages : list PageData) (pd : PageData) :
  pd ∈ scored_additions pages
  <-> pd ∈ take MAX_VISION_PAGES (ranked pages) /\ 0.5 < score_of pd.
Proof.
  unfold scored_additions.
  rewrite !list_elem_of_In, List.filter_In, Qgtb_gt. reflexivity.
Qed.

Lemma scored_additions_length (pages : list PageData) :
  (length (scored_additions pages) <= MAX_VISION_PAGES)%nat.
Proof.
  unfold scored_additions.
  etransitivity; [apply List.filter_length_le |].
  rewrite length_take. lia.
Qed.



(** ** Results and traces of composed computations *)

Lemma result_bind {A B} (m : M A) (f : A -> M B) :
  result (bind m f)
  = match result m with
    | Return a => result (f a)
    | Raise e => Raise e
    end.
Proof.
  destruct m as [t [a | e]]; unfold bind; simpl; [| reflexivity].
  destruct (f a); reflexivity.
Qed.

Lemma trace_bind_app {A B} (m : M A) (f : A -> M B) :
  trace (bind m f)
  = trace m ++ match result m with
               | Return a => trace (f a)
               | Raise _ => []
               end.
Proof.
  destruct m as [t [a | e]]; unfold bind; simpl.
  - destruct (f a); reflexivity.
  - rewrite app_nil_r. reflexivity.
Qed.

Lemma result_try_except {A} (m : M A) (h : exn -> M A) :
  result (try_except m h)
  = match result m with
    | Return a => Return a
    | Raise e => result (h e)
    end.
Proof.
  destruct m as [t [a | e]]; unfold try_except; simpl; [reflexivity |].
  destruct (h e); reflexivity.
Qed.

Lemma trace_try_except {A} (m : M A) (h : exn -> M A) :
  trace (try_except m h)
  = trace m ++ match result m with
               | Return _ => []
               | Raise e => trace (h e)
               end.
Proof.
  destruct m as [t [a | e]]; unfold try_except; simpl.
  - rewrite app_nil_r. reflexivity.
  - destruct (h e); reflexivity.
Qed.

Lemma result_try_finally_emit {A} (m : M A) (e : event) :
  result (try_finally m (emit e)) = result m.
Proof. destruct m as [t r]. reflexivity. Qed.

Lemma trace_try_finally_emit {A} (m : M A) (e : event) :
  trace (try_finally m (emit e)) = trace m ++ [e].
Proof. destruct m as [t r]. reflexivity. Qed.

Lemma result_emit_then {B} (e : event) (k : M B) :
  result (bind (emit e) (fun _ => k)) = result k.
Proof. rewrite bind_emit. reflexivity. Qed.

(** ** The caption loop and the page loop *)

Lemma caption_loop_raise (page : fitz.Page) (pn : nat)
    (dr rr : list fitz.Rect) (tb caps : list (fitz.Rect * str)) :
  forall figs e,
    result (caption_loop page pn dr rr tb caps figs) = Raise e ->
    e = RuntimeError.
Proof.
  induction caps as [| [cap t] rest IH]; intros figs e HR; simpl in HR.
  - discriminate.
  - destruct (_crop_for_caption cap t page dr rr tb) as [c |].
    + destruct (too_small (clamp_to_page c (fitz.rect page))).
      * eapply IH, HR.
      * rewrite result_bind, _render_rect_result in HR.
        destruct (fitz.get_pixmap_clip page (clamp_to_page c (fitz.rect page)) CROP_DPI).
        -- rewrite result_emit_then in HR. eapply IH, HR.
        -- inversion HR. reflexivity.
    + rewrite result_emit_then in HR. eapply IH, HR.
Qed.

Lemma caption_loop_returns (page : fitz.Page) (pn : nat)
    (dr rr : list fitz.Rect) (tb caps : list (fitz.Rect * str)) :
  clips_render page ->
  forall figs, exists figs',
    result (caption_loop page pn dr rr tb caps figs) = Return figs'.
Proof.
  intros HC. induction caps as [| [cap t] rest IH]; intros figs; simpl.
  - eexists. reflexivity.
  - destruct (_crop_for_caption cap t page dr rr tb) as [c |].
    + destruct (too_small (clamp_to_page c (fitz.rect page))).
      * apply IH.
      * rewrite result_bind, _render_rect_result.
        destruct (fitz.get_pixmap_clip page (clamp_to_page c (fitz.rect page)) CROP_DPI)
          eqn:G; [| destruct (HC _ G)].
        rewrite result_emit_then. apply IH.
    + rewrite result_emit_then. apply IH.
Qed.

Lemma _extract_cropped_figures_raise (FIG : str -> bool)
    (page : fitz.Page) (pn : nat) (e : exn) :
  result (_extract_cropped_figures FIG page pn) = Raise e -> e = RuntimeError.
Proof.
  destruct (_extract_cropped_figures_unfold FIG page pn) as [[_ ->] | [_ ->]];
    rewrite result_emit_then; [discriminate | apply caption_loop_raise].
Qed.

Lemma _extract_cropped_figures_returns (FIG : str -> bool)
    (page : fitz.Page) (pn : nat) :
  clips_render page ->
  exists figs, result (_extract_cropped_figures FIG page pn) = Return figs.
Proof.
  intros HC.
  destruct (_extract_cropped_figures_unfold FIG page pn) as [[_ ->] | [_ ->]];
    rewrite result_emit_then.
  - eexists. reflexivity.
  - apply caption_loop_returns, HC.
Qed.

Lemma result_ret {A} (a : A) : result (ret a) = Return a.
Proof. reflexivity. Qed.

Lemma page_loop_result (FIG KW : str -> bool) (doc : fitz.Document) :
  forall i acc,
    (exists pds,
        result (page_loop FIG KW doc i acc) = Return (acc ++ pds)
        /\ map page_number pds = seq (i + 1) (length doc)
        /\ map text pds = map fitz.get_text doc
        /\ (forall j page, doc !! j = Some page ->
              exists figs,
                result (_extract_cropped_figures FIG page (i + j + 1))
                = Return figs))
    \/
    (result (page_loop FIG KW doc i acc) = Raise RuntimeError
     /\ exists j page,
          doc !! j = Some page
          /\ result (_extract_cropped_figures FIG page (i + j + 1))
             = Raise RuntimeError).
Proof.
  induction doc as [| p rest IH]; intros i acc.
  - left. exists []. rewrite app_nil_r. repeat split; auto.
    intros j page H. discriminate.
  - simpl page_loop. rewrite result_bind.
    destruct (result (_extract_cropped_figures FIG p (i + 1))) as [cropped | e] eqn:E.
    + rewrite _math_density_ret, bind_ret_l.
      match goal with
      | |- context [page_loop _ _ rest (S i) (acc ++ [?x])] => set (pd := x)
      end.
      destruct (IH (S i) (acc ++ [pd])) as [(pds & HR & Hpn & Htx & Hok) | (HR & j & page & Hj & He)].
      * left. exists (pd :: pds). rewrite HR, <- app_assoc. simpl.
        split; [reflexivity |]. split; [| split].
        -- f_equal. rewrite Hpn. f_equal; lia.
        -- f_equal. exact Htx.
        -- intros [| j] page Hj; simpl in Hj.
           ++ inversion Hj; subst. exists cropped.
              replace (i + 0 + 1)%nat with (i + 1)%nat by lia. exact E.
           ++ destruct (Hok j page Hj) as [figs Hf]. exists figs.
              replace (i + S j + 1)%nat with (S i + j + 1)%nat by lia. exact Hf.
      * right. split; [exact HR |]. exists (S j), page. split; [exact Hj |].
        replace (i + S j + 1)%nat with (S i + j + 1)%nat by lia. exact He.
    + right. apply _extract_cropped_figures_raise in E as E'. subst e.
      split; [reflexivity |]. exists 0%nat, p. split; [reflexivity |].
      replace (i + 0 + 1)%nat with (i + 1)%nat by lia. exact E.
Qed.

(** ** Marking the key pages *)

Lemma _render_full_page_result (page : fitz.Page) (dpi : Z) :
  result (_render_full_page page dpi)
  = match fitz.get_pixmap page dpi with
    | Some png => Return png
    | None => Raise RuntimeError
    end.
Proof.
  unfold _render_full_page. rewrite result_emit_then.
  destruct (fitz.get_pixmap page dpi); reflexivity.
Qed.

Lemma getitem_page {A} (l : list A) (n : nat) :
  (1 <= n <= length l)%nat ->
  exists a, l !! (n - 1)%nat = Some a /\ getitem l (Z.of_nat n - 1) = ret a.
Proof.
  intros Hn. unfold getitem.
  destruct (Z.ltb_spec (Z.of_nat n - 1) 0) as [? | _]; [lia |].
  destruct (Z.ltb_spec (Z.of_nat n - 1) 0) as [? | _]; [lia |].
  replace (Z.to_nat (Z.of_nat n - 1)) with (n - 1)%nat by lia.
  destruct (l !! (n - 1)%nat) as [a |] eqn:E; [eauto |].
  apply lookup_ge_None in E. lia.
Qed.

Lemma mark_loop_result (doc : fitz.Document) (S : gset nat) (todo : list PageData) :
  forall acc,
    Forall (fun pd => (1 <= page_number pd <= length doc)%nat) todo ->
    (exists ps,
        result (mark_loop doc S todo acc)
        = Return (ps, acc ++ List.filter (in_key_set S) ps)
        /\ map page_number ps = map page_number todo
        /\ map text ps = map text todo
        /\ (forall pd page,
              pd ∈ todo -> page_number pd ∈ S ->
              doc !! (page_number pd - 1)%nat = Some page ->
              fitz.get_pixmap page FULL_PAGE_DPI <> None))
    \/
    (result (mark_loop doc S todo acc) = Raise RuntimeError
     /\ exists pd page,
          pd ∈ todo /\ page_number pd ∈ S
          /\ doc !! (page_number pd - 1)%nat = Some page
          /\ fitz.get_pixmap page FULL_PAGE_DPI = None).
Proof.
  induction todo as [| pd rest IH]; intros acc HF.
  - left. exists []. simpl. rewrite app_nil_r. repeat split; auto.
    intros pd page H. inversion H.
  - inversion HF as [| ? ? Hpd HF']; subst. simpl mark_loop.
    destruct (bool_decide (page_number pd ∈ S)) eqn:B.
    + destruct (getitem_page doc (page_number pd) Hpd) as (page & Hpage & ->).
      rewrite bind_ret_l, result_bind, _render_full_page_result.
      apply bool_decide_eq_true in B.
      destruct (fitz.get_pixmap page FULL_PAGE_DPI) as [png |] eqn:G.
      * rewrite result_bind.
        match goal with
        | |- context [mark_loop doc S rest (acc ++ [?x])] => set (pd' := x)
        end.
        destruct (IH (acc ++ [pd']) HF')
          as [(ps & HR & Hpn & Htx & Hok) | (HR & qd & qpage & Hq)].
        -- left. exists (pd' :: ps). rewrite HR, result_ret. simpl.
           unfold in_key_set at 2. simpl page_number.
           rewrite (bool_decide_eq_true_2 _ B), <- app_assoc. simpl.
           split; [reflexivity |]. split; [f_equal; exact Hpn |].
           split; [f_equal; exact Htx |].
           intros qd qpage Hin HS Hlook.
           apply elem_of_cons in Hin as [Heq | Hin]; [| eauto].
           rewrite Heq, Hpage in Hlook. inversion Hlook as [Hq].
           rewrite <- Hq, G. discriminate.
        -- right. rewrite HR. split; [reflexivity |].
           exists qd, qpage. destruct Hq as (Hin & Hrest).
           split; [apply elem_of_cons; right; exact Hin | exact Hrest].
      * right. split; [reflexivity |]. exists pd, page.
        split; [apply elem_of_cons; left; reflexivity | auto].
    + apply bool_decide_eq_false in B. rewrite result_bind.
      destruct (IH acc HF')
        as [(ps & HR & Hpn & Htx & Hok) | (HR & qd & qpage & Hq)].
      * left. exists (pd :: ps). rewrite HR, result_ret. simpl.
        unfold in_key_set at 2.
        rewrite (bool_decide_eq_false_2 _ B).
        split; [reflexivity |]. split; [f_equal; exact Hpn |].
        split; [f_equal; exact Htx |].
        intros qd qpage Hin HS Hlook.
        apply elem_of_cons in Hin as [Heq | Hin]; [| eauto].
        rewrite Heq in HS. contradiction.
      * right. rewrite HR. split; [reflexivity |].
        exists qd, qpage. destruct Hq as (Hin & Hrest).
        split; [apply elem_of_cons; right; exact Hin | exact Hrest].
Qed.

(** ** The result of [parse_pdf] *)

Lemma parse_pdf_body_result (FIG KW : str -> bool) (doc : fitz.Document) :
  result (parse_pdf_body FIG KW doc)
  = match result (page_loop FIG KW doc 0 []) with
    | Raise e => Raise e
    | Return [] => Raise no_pages_error
    | Return (pd :: pds) =>
        let full := strip (join [10; 10]%N (map text (pd :: pds))) in
        if (length full <? 100)%nat then Raise little_text_error
        else
          match result (mark_loop doc (key_set_of (pd :: pds)) (pd :: pds) []) with
          | Return marked =>
              Return {| pages := fst marked;
                        full_text := full;
                        key_pages := sorted_by_page_number (snd marked) |}
          | Raise e => Raise e
          end
    end.
Proof.
  unfold parse_pdf_body. rewrite result_emit_then, result_bind.
  destruct (result (page_loop FIG KW doc 0 [])) as [[| pd pds] | e];
    [reflexivity | | reflexivity].
  cbv zeta.
  destruct (length (strip (join [10; 10]%N (map text (pd :: pds)))) <? 100)%nat;
    [reflexivity |].
  rewrite select_key_pages_ret, bind_ret_l, result_bind.
  fold (key_set_of (pd :: pds)).
  destruct (result (mark_loop doc (key_set_of (pd :: pds)) (pd :: pds) []))
    as [marked | e]; [| reflexivity].
  rewrite result_emit_then, result_emit_then. reflexivity.
Qed.

Lemma parse_pdf_result (FIG KW : str -> bool) (doc : fitz.Document) :
  result (parse_pdf FIG KW doc)
  = match result (parse_pdf_body FIG KW doc) with
    | Return P => Return P
    | Raise e => result (parse_pdf_handler e)
    end.
Proof.
  unfold parse_pdf.
  rewrite result_emit_then, result_try_finally_emit, result_try_except.
  reflexivity.
Qed.

Lemma parse_pdf_handler_typed (e : exn) :
  exists msg orig,
    result (parse_pdf_handler e) = Raise (PDFExtractionError msg orig).
Proof. destruct e; simpl; eauto. Qed.

(** What a successful run went through. *)
Lemma parse_pdf_return_inv (FIG KW : str -> bool) (doc : fitz.Document) (P : ParsedPDF) :
  result (parse_pdf FIG KW doc) = Return P ->
  exists pages0 ps,
    result (page_loop FIG KW doc 0 []) = Return pages0
    /\ pages0 <> []
    /\ map page_number pages0 = seq 1 (length doc)
    /\ map text pages0 = map fitz.get_text doc
    /\ (100 <= length (joined_text doc))%nat
    /\ map page_number ps = map page_number pages0
    /\ map text ps = map text pages0
    /\ pages P = ps
    /\ full_text P = joined_text doc
    /\ key_pages P
       = sorted_by_page_number (List.filter (in_key_set (key_set_of pages0)) ps).
Proof.
  rewrite parse_pdf_result, parse_pdf_body_result.
  destruct (page_loop_result FIG KW doc 0 [])
    as [(pds & HR & Hpn & Htx & _) | (HR & _)]; rewrite HR; simpl app.
  - change (0 + 1)%nat with 1%nat in Hpn.
    destruct pds as [| pd pds]; [simpl; discriminate |].
    cbv zeta. unfold joined_text. rewrite <- Htx.
    destruct (Nat.ltb_spec (length (strip (join [10; 10]%N (map text (pd :: pds))))) 100)
      as [Hlt | Hge]; [simpl; discriminate |].
    assert (HF : Forall (fun q => (1 <= page_number q <= length doc)%nat) (pd :: pds)).
    { apply Forall_forall. intros q Hq.
      assert (Hq' : page_number q ∈ seq 1 (length doc)).
      { rewrite <- Hpn. apply list_elem_of_In, List.in_map, list_elem_of_In, Hq. }
      apply list_elem_of_In, List.in_seq in Hq'. lia. }
    destruct (mark_loop_result doc (key_set_of (pd :: pds)) (pd :: pds) [] HF)
      as [(ps & HM & Hmpn & Hmtx & _) | (HM & _)]; rewrite HM;
      [| simpl; discriminate].
    intros HP. inversion HP; subst P. simpl.
    exists (pd :: pds), ps. repeat split; auto; discriminate.
  - simpl. discriminate.
Qed.

(** ** Pages and full text of the result *)

(** C8, as the code has it: a PDF of N pages that parses yields exactly N
    pages, numbered 1 to N in this order, each with the text of its page,
    and [full_text] is the page texts joined by two newline characters (a
    blank line between consecutive pages), stripped of leading and trailing
    whitespace. *)
Theorem parsed_pages_and_full_text
    (FIG KW : str -> bool) (doc : fitz.Document) (P : ParsedPDF) :
  result (parse_pdf FIG KW doc) = Return P ->
  length (pages P) = length doc
  /\ map page_number (pages P) = seq 1 (length doc)
  /\ map text (pages P) = map fitz.get_text doc
  /\ full_text P = strip (join [10; 10]%N (map text (pages P))).
Proof.
  intros HP.
  destruct (parse_pdf_return_inv FIG KW doc P HP)
    as (pages0 & ps & _ & _ & Hpn0 & Htx0 & _ & Hpn & Htx & -> & Hfull & _).
  assert (Hnum : map page_number ps = seq 1 (length doc)) by congruence.
  assert (Htext : map text ps = map fitz.get_text doc) by congruence.
  split; [| split; [exact Hnum | split; [exact Htext |]]].
  - rewrite <- (List.length_map page_number), Hnum. apply List.length_seq.
  - rewrite Hfull, Htext. reflexivity.
Qed.

Lemma parsed_pages_and_full_text_witness :
  exists P,
    result (parse_pdf ascii_caption_match no_keyword two_page_doc) = Return P
    /\ length (pages P) = 2%nat
    /\ map page_number (pages P) = [1; 2]%nat
    /\ map text (pages P) = [plain_text; plain_text]
    /\ full_text P = strip (join [10; 10]%N (map text (pages P))).
Proof.
  eexists. split; [vm_compute; reflexivity |].
  apply (parsed_pages_and_full_text ascii_caption_match no_keyword two_page_doc).
  vm_compute. reflexivity.
Defined.

(** C8 as stated fails for a separator of one newline: the two page texts
    of [two_page_doc] are joined by two. *)
Lemma full_text_not_joined_by_one_newline :
  exists P,
    result (parse_pdf ascii_caption_match no_keyword two_page_doc) = Return P
    /\ full_text P <> strip (join [10]%N (map text (pages P))).
Proof.
  eexists. split; [vm_compute; reflexivity |].
  intros H. apply (f_equal length) in H. vm_compute in H. discriminate.
Qed.

(** ** Key pages of the result *)

Lemma seq_strongly_sorted (a n : nat) : StronglySorted lt (seq a n).
Proof.
  revert a. induction n as [| n IH]; intros a; simpl; constructor.
  - apply IH.
  - apply Forall_forall. intros x Hx.
    apply list_elem_of_In, List.in_seq in Hx. lia.
Qed.

Lemma sorted_by_number_of_map (l : list PageData) :
  StronglySorted lt (map page_number l) ->
  StronglySorted (fun a b => (page_number a < page_number b)%nat) l.
Proof.
  induction l as [| a l IH]; simpl; intros H; [constructor |].
  apply StronglySorted_inv in H as [HS HF]. constructor; [apply IH, HS |].
  apply Forall_forall. intros b Hb.
  rewrite Forall_forall in HF. apply HF.
  apply list_elem_of_In, List.in_map, list_elem_of_In, Hb.
Qed.

Lemma filter_strongly_sorted {A} (R : relation A) (f : A -> bool) (l : list A) :
  StronglySorted R l -> StronglySorted R (List.filter f l).
Proof.
  induction 1 as [| a l HS IH HF]; simpl; [constructor |].
  destruct (f a); [| exact IH]. constructor; [exact IH |].
  apply Forall_forall. intros b Hb.
  apply list_elem_of_In, List.filter_In in Hb as [Hb _].
  rewrite Forall_forall in HF. apply HF, list_elem_of_In, Hb.
Qed.

Lemma filter_sublist {A} (f : A -> bool) (l : list A) :
  List.filter f l `sublist_of` l.
Proof.
  induction l as [| a l IH]; simpl; [constructor |].
  destruct (f a); [apply sublist_skip | apply sublist_cons]; exact IH.
Qed.

Lemma sorted_by_number_NoDup (l : list PageData) :
  StronglySorted (fun a b => (page_number a < page_number b)%nat) l ->
  NoDup (map page_number l).
Proof.
  induction 1 as [| a l HS IH HF]; simpl; constructor; [| exact IH].
  intros Hin. apply list_elem_of_In, List.in_map_iff in Hin as (b & Hb & Hin).
  rewrite Forall_forall in HF.
  apply list_elem_of_In, HF in Hin. lia.
Qed.

Lemma strongly_sorted_weaken {A} (R R' : relation A) (l : list A) :
  (forall a b, R a b -> R' a b) -> StronglySorted R l -> StronglySorted R' l.
Proof.
  intros HR. induction 1 as [| a l HS IH HF]; constructor; [exact IH |].
  eapply Forall_impl; [exact HF | apply HR].
Qed.

Lemma sorted_by_page_number_id (l : list PageData) :
  StronglySorted (fun a b => (page_number a < page_number b)%nat) l ->
  sorted_by_page_number l = l.
Proof.
  intros H. apply sort_by_sorted_id.
  eapply strongly_sorted_weaken; [| exact H]; simpl.
  intros a b Hab. apply Nat.ltb_ge. lia.
Qed.

Lemma NoDup_length_le_size (l : list nat) (S : gset nat) :
  NoDup l -> (forall x, x ∈ l -> x ∈ S) -> (length l <= size S)%nat.
Proof.
  intros HN HS. rewrite <- (size_list_to_set (C := gset nat) l HN).
  apply subseteq_size. intros x Hx. apply elem_of_list_to_set in Hx. auto.
Qed.

Lemma size_union_le (X Y : gset nat) : (size (X ∪ Y) <= size X + size Y)%nat.
Proof.
  rewrite size_union_alt.
  assert (size (Y ∖ X) <= size Y)%nat.
  { apply subseteq_size. intros x Hx.
    apply elem_of_difference in Hx as [Hx _]. exact Hx. }
  lia.
Qed.

Lemma size_list_to_set_le (l : list nat) :
  (size (list_to_set l : gset nat) <= length l)%nat.
Proof.
  induction l as [| x l IH].
  - rewrite list_to_set_nil, size_empty. simpl. lia.
  - rewrite list_to_set_cons. simpl length.
    etransitivity; [apply size_union_le |]. rewrite size_singleton. lia.
Qed.

Lemma initial_key_pages_size (n : nat) : (size (initial_key_pages n) <= 2)%nat.
Proof.
  unfold initial_key_pages. destruct (1 <? n)%nat.
  - etransitivity; [apply size_union_le |]. rewrite !size_singleton. lia.
  - rewrite size_singleton. lia.
Qed.

Lemma key_set_of_size (pages : list PageData) :
  (size (key_set_of pages) <= 2 + MAX_VISION_PAGES)%nat.
Proof.
  unfold key_set_of. etransitivity; [apply size_union_le |].
  pose proof (initial_key_pages_size (length pages)).
  pose proof (size_list_to_set_le (map page_number (scored_additions pages))) as H1.
  rewrite List.length_map in H1.
  pose proof (scored_additions_length pages). lia.
Qed.

Lemma one_in_key_set (pages : list PageData) : 1%nat ∈ key_set_of pages.
Proof.
  unfold key_set_of, initial_key_pages.
  destruct (1 <? length pages)%nat; set_solver.
Qed.

Lemma last_in_key_set (pages : list PageData) :
  (1 < length pages)%nat -> length pages ∈ key_set_of pages.
Proof.
  intros H. unfold key_set_of, initial_key_pages.
  apply Nat.ltb_lt in H. rewrite H. set_solver.
Qed.

Lemma page_with_number (l : list PageData) (n k : nat) :
  map page_number l = seq 1 n -> (1 <= k <= n)%nat ->
  exists pd, pd ∈ l /\ page_number pd = k.
Proof.
  intros Hl Hk.
  assert (Hin : List.In k (map page_number l)).
  { rewrite Hl. apply List.in_seq. lia. }
  apply List.in_map_iff in Hin as (pd & Hpd & Hin).
  exists pd. split; [apply list_elem_of_In, Hin | exact Hpd].
Qed.

(** C7: the key pages of a parsed PDF of N pages are pages of the result
    (a sublist of them), in strictly increasing page number; page 1 is
    among them, and page N when N > 1; there are at most min(N, 2 + 8) of
    them. *)
Theorem key_pages_invariant
    (FIG KW : str -> bool) (doc : fitz.Document) (P : ParsedPDF) :
  result (parse_pdf FIG KW doc) = Return P ->
  (forall pd, pd ∈ key_pages P -> pd ∈ pages P)
  /\ key_pages P `sublist_of` pages P
  /\ StronglySorted (fun a b => (page_number a < page_number b)%nat) (key_pages P)
  /\ (exists pd, pd ∈ key_pages P /\ page_number pd = 1%nat)
  /\ ((1 < length doc)%nat ->
      exists pd, pd ∈ key_pages P /\ page_number pd = length doc)
  /\ (length (key_pages P) <= Nat.min (length doc) (2 + 8))%nat.
Proof.
  intros HP.
  destruct (parse_pdf_return_inv FIG KW doc P HP)
    as (pages0 & ps & _ & Hne & Hpn0 & _ & _ & Hpn & _ & -> & _ & Hkey).
  assert (Hnum : map page_number ps = seq 1 (length doc)) by congruence.
  assert (Hlen0 : length pages0 = length doc).
  { rewrite <- (List.length_map page_number), Hpn0. apply List.length_seq. }
  assert (Hlen : length ps = length doc).
  { rewrite <- (List.length_map page_number), Hnum. apply List.length_seq. }
  assert (Hpos : (1 <= length doc)%nat).
  { destruct pages0; [congruence | simpl in Hlen0; lia]. }
  set (S := key_set_of pages0) in *.
  assert (Hsorted : StronglySorted
                      (fun a b => (page_number a < page_number b)%nat)
                      (List.filter (in_key_set S) ps)).
  { apply filter_strongly_sorted, sorted_by_number_of_map.
    rewrite Hnum. apply seq_strongly_sorted. }
  rewrite (sorted_by_page_number_id _ Hsorted) in Hkey. rewrite Hkey.
  assert (Hmem : forall pd, pd ∈ ps -> page_number pd ∈ S ->
                            pd ∈ List.filter (in_key_set S) ps).
  { intros pd Hin HS. apply list_elem_of_In, List.filter_In.
    split; [apply list_elem_of_In, Hin |].
    apply bool_decide_eq_true_2, HS. }
  split; [| split; [apply filter_sublist | split; [exact Hsorted | split; [| split]]]].
  - intros pd Hin. apply list_elem_of_In, List.filter_In in Hin as [Hin _].
    apply list_elem_of_In, Hin.
  - destruct (page_with_number ps (length doc) 1 Hnum) as (pd & Hin & H1); [lia |].
    exists pd. split; [| exact H1]. apply Hmem; [exact Hin |].
    rewrite H1. apply one_in_key_set.
  - intros HN.
    destruct (page_with_number ps (length doc) (length doc) Hnum)
      as (pd & Hin & Hl); [lia |].
    exists pd. split; [| exact Hl]. apply Hmem; [exact Hin |].
    rewrite Hl, <- Hlen0. apply last_in_key_set. lia.
  - apply Nat.min_glb.
    + etransitivity; [apply List.filter_length_le | lia].
    + rewrite <- (List.length_map page_number).
      etransitivity; [| apply (key_set_of_size pages0)].
      apply NoDup_length_le_size; [apply sorted_by_number_NoDup, Hsorted |].
      intros x Hx.
      apply list_elem_of_In, List.in_map_iff in Hx as (pd & <- & Hin).
      apply List.filter_In in Hin as [_ Hin].
      apply bool_decide_eq_true in Hin. exact Hin.
Qed.

Lemma key_pages_invariant_witness :
  exists P,
    result (parse_pdf ascii_caption_match no_keyword two_page_doc) = Return P
    /\ (forall pd, pd ∈ key_pages P -> pd ∈ pages P)
    /\ key_pages P `sublist_of` pages P
    /\ StronglySorted (fun a b => (page_number a < page_number b)%nat) (key_pages P)
    /\ (exists pd, pd ∈ key_pages P /\ page_number pd = 1%nat)
    /\ ((1 < 2)%nat -> exists pd, pd ∈ key_pages P /\ page_number pd = 2%nat)
    /\ (length (key_pages P) <= Nat.min 2 (2 + 8))%nat.
Proof.
  eexists. split; [vm_compute; reflexivity |].
  apply (key_pages_invariant ascii_caption_match no_keyword two_page_doc).
  vm_compute. reflexivity.
Defined.

(** ** Extraction errors *)

Lemma page_loop_nonempty (FIG KW : str -> bool) (doc : fitz.Document)
    (pages0 : list PageData) :
  result (page_loop FIG KW doc 0 []) = Return pages0 ->
  map page_number pages0 = seq 1 (length doc)
  /\ map text pages0 = map fitz.get_text doc
  /\ (pages0 = [] <-> doc = []).
Proof.
  intros HR.
  destruct (page_loop_result FIG KW doc 0 [])
    as [(pds & HR' & Hpn & Htx & _) | (HR' & _)]; [| congruence].
  rewrite HR' in HR. inversion HR; subst pages0. simpl app.
  split; [exact Hpn | split; [exact Htx |]].
  apply (f_equal (@length _)) in Htx. rewrite !List.length_map in Htx.
  split; intros ->; simpl in Htx.
  - destruct doc; [reflexivity | discriminate].
  - destruct pds; [reflexivity | discriminate].
Qed.



(** ** Failures while cropping *)

Lemma caption_loop_render_failure (page : fitz.Page) (pn : nat)
    (dr rr : list fitz.Rect) (tb rest : list (fitz.Rect * str))
    (cap c : fitz.Rect) (t : str) (figs : list CroppedFigure) :
  _crop_for_caption cap t page dr rr tb = Some c ->
  too_small (clamp_to_page c (fitz.rect page)) = false ->
  fitz.get_pixmap_clip page (clamp_to_page c (fitz.rect page)) CROP_DPI = None ->
  caption_loop page pn dr rr tb ((cap, t) :: rest) figs
  = ([PixmapClip (clamp_to_page c (fitz.rect page)) CROP_DPI], Raise RuntimeError).
Proof.
  intros H TS G. simpl. rewrite H, TS. unfold _render_rect. rewrite G.
  reflexivity.
Qed.

Lemma page_failure_aborts_parse (FIG KW : str -> bool) (doc : fitz.Document)
    (j : nat) (page : fitz.Page) (e : exn) :
  doc !! j = Some page ->
  result (_extract_cropped_figures FIG page (j + 1)) = Raise e ->
  result (parse_pdf FIG KW doc) = Raise (failed_error RuntimeError).
Proof.
  intros Hj He. rewrite parse_pdf_result, parse_pdf_body_result.
  destruct (page_loop_result FIG KW doc 0 [])
    as [(pds & _ & _ & _ & Hok) | (HR & _)].
  - destruct (Hok j page Hj) as [figs Hf]. simpl in Hf. congruence.
  - rewrite HR. reflexivity.
Qed.

(** C1, as the code has it: a caption for which no region is found is
    logged and passed over, and a caption whose padded, clamped crop is
    narrower or shorter than 20 points is passed over without a log entry;
    the loop goes on with the remaining captions.  A failure while
    rendering a crop is not caught there: it ends the loop with the
    exception, and [parse_pdf] raises the extraction error instead of
    returning a [ParsedPDF].  When no rendering of a crop fails on a page,
    the figures of the page are returned. *)
Theorem crop_failures_skip_or_abort (FIG KW : str -> bool) :
  (forall page pn dr rr tb rest cap t figs,
      _crop_for_caption cap t page dr rr tb = None ->
      caption_loop page pn dr rr tb ((cap, t) :: rest) figs
      = (emit (LogDebug "Page %d: could not determine crop for '%s'"
                 [int_of_nat pn; ArgStr (take 40 t)]) ;;;
         caption_loop page pn dr rr tb rest figs))
  /\ (forall page pn dr rr tb rest cap c t figs,
        _crop_for_caption cap t page dr rr tb = Some c ->
        too_small (clamp_to_page c (fitz.rect page)) = true ->
        caption_loop page pn dr rr tb ((cap, t) :: rest) figs
        = caption_loop page pn dr rr tb rest figs)
  /\ (forall page pn dr rr tb rest cap c t figs,
        _crop_for_caption cap t page dr rr tb = Some c ->
        too_small (clamp_to_page c (fitz.rect page)) = false ->
        fitz.get_pixmap_clip page (clamp_to_page c (fitz.rect page)) CROP_DPI = None ->
        caption_loop page pn dr rr tb ((cap, t) :: rest) figs
        = ([PixmapClip (clamp_to_page c (fitz.rect page)) CROP_DPI],
           Raise RuntimeError))
  /\ (forall doc j page e,
        doc !! j = Some page ->
        result (_extract_cropped_figures FIG page (j + 1)) = Raise e ->
        result (parse_pdf FIG KW doc) = Raise (failed_error RuntimeError))
  /\ (forall page pn,
        clips_render page ->
        exists figs, result (_extract_cropped_figures FIG page pn) = Return figs).
Proof.
  split; [intros; apply caption_loop_no_region; assumption |].
  split; [intros; eapply caption_loop_too_small; eassumption |].
  split; [intros; apply caption_loop_render_failure; assumption |].
  split; [intros; eapply page_failure_aborts_parse; eassumption |].
  intros. apply _extract_cropped_figures_returns. assumption.
Qed.

Lemma crop_failures_skip_or_abort_witness :
  [two_caption_page fails_on_first] !! 0%nat = Some (two_caption_page fails_on_first)
  /\ result (_extract_cropped_figures ascii_caption_match
               (two_caption_page fails_on_first) (0 + 1))
     = Raise RuntimeError
  /\ result (parse_pdf ascii_caption_match no_keyword
               [two_caption_page fails_on_first])
     = Raise (failed_error RuntimeError).
Proof.
  split; [reflexivity |]. split; [vm_compute; reflexivity |].
  apply (proj1 (proj2 (proj2 (proj2
           (crop_failures_skip_or_abort ascii_caption_match no_keyword))))
           [two_caption_page fails_on_first] 0%nat
           (two_caption_page fails_on_first) RuntimeError).
  - reflexivity.
  - vm_compute. reflexivity.
Defined.

(** C1 as stated fails: the page parses into two cropped figures when the
    renderings succeed, and when the rendering of the first crop fails no
    [ParsedPDF] is returned and the second caption is never cropped. *)
Lemma render_failure_aborts_parse :
  (exists P,
      result (parse_pdf ascii_caption_match no_keyword
                [two_caption_page always_renders]) = Return P
      /\ length (all_cropped_figures P) = 2%nat)
  /\ result (parse_pdf ascii_caption_match no_keyword
               [two_caption_page fails_on_first])
     = Raise (failed_error RuntimeError)
  /\ trace (_extract_cropped_figures ascii_caption_match
              (two_caption_page fails_on_first) 1)
     = [LogDebug "Page %d: %d caption(s), %d drawings, %d rasters."
          [ArgInt 1; ArgInt 2; ArgInt 1; ArgInt 0];
        PixmapClip (fitz.mkRect 92 192 308 423) 200].
Proof.
  split; [| split].
  - eexists. split; vm_compute; reflexivity.
  - vm_compute. reflexivity.
  - vm_compute. reflexivity.
Qed.

(** ** The document handle *)

Lemma caption_loop_page_events (page : fitz.Page) (pn : nat)
    (dr rr : list fitz.Rect) (tb caps : list (fitz.Rect * str)) :
  forall figs,
    Forall page_event (trace (caption_loop page pn dr rr tb caps figs)).
Proof.
  induction caps as [| [cap t] rest IH]; intros figs; simpl.
  - constructor.
  - destruct (_crop_for_caption cap t page dr rr tb) as [c |].
    + destruct (too_small (clamp_to_page c (fitz.rect page))).
      * apply IH.
      * apply Forall_trace_bind.
        -- rewrite _render_rect_trace. repeat constructor.
        -- intros png _. rewrite bind_emit. simpl.
           constructor; [exact I | apply IH].
    + rewrite bind_emit. simpl. constructor; [exact I | apply IH].
Qed.

Lemma _extract_cropped_figures_page_events (FIG : str -> bool)
    (page : fitz.Page) (pn : nat) :
  Forall page_event (trace (_extract_cropped_figures FIG page pn)).
Proof.
  destruct (_extract_cropped_figures_unfold FIG page pn) as [[_ ->] | [_ ->]];
    rewrite bind_emit; simpl; constructor; try exact I.
  - constructor.
  - apply caption_loop_page_events.
Qed.

Lemma page_loop_page_events (FIG KW : str -> bool) (doc : fitz.Document) :
  forall i acc, Forall page_event (trace (page_loop FIG KW doc i acc)).
Proof.
  induction doc as [| p rest IH]; intros i acc; simpl.
  - constructor.
  - apply Forall_trace_bind; [apply _extract_cropped_figures_page_events |].
    intros cropped _. rewrite _math_density_ret, bind_ret_l. apply IH.
Qed.

Lemma mark_loop_page_events (doc : fitz.Document) (S : gset nat)
    (todo : list PageData) :
  forall acc, Forall page_event (trace (mark_loop doc S todo acc)).
Proof.
  induction todo as [| pd rest IH]; intros acc; simpl.
  - constructor.
  - destruct (bool_decide (page_number pd ∈ S)).
    + apply Forall_trace_bind.
      { unfold getitem. repeat match goal with
        | |- context [if ?b then _ else _] => destruct b
        | |- context [match ?o with Some _ => _ | None => _ end] => destruct o
        end; constructor. }
      intros fitz_page _. apply Forall_trace_bind.
      { unfold _render_full_page. rewrite bind_emit.
        destruct (fitz.get_pixmap fitz_page FULL_PAGE_DPI); repeat constructor. }
      intros png _. apply Forall_trace_bind; [apply IH |].
      intros r _. constructor.
    + apply Forall_trace_bind; [apply IH |]. intros r _. constructor.
Qed.

Lemma page_event_not_close (l : list event) :
  Forall page_event l -> DocClose ∉ l.
Proof.
  intros HF Hin. rewrite Forall_forall in HF. exact (HF _ Hin).
Qed.

(** The handle is closed by the run exactly when the run returns. *)
Lemma doc_closed_iff_returned (FIG KW : str -> bool) (doc : fitz.Document) :
  DocClose ∈ trace (parse_pdf FIG KW doc)
  <-> exists P, result (parse_pdf FIG KW doc) = Return P.
Proof.
  rewrite parse_pdf_result. unfold parse_pdf.
  rewrite bind_emit. simpl trace.
  rewrite trace_try_finally_emit, trace_try_except.
  assert (Hbody : DocClose ∈ trace (parse_pdf_body FIG KW doc)
                  <-> exists P, result (parse_pdf_body FIG KW doc) = Return P).
  { rewrite parse_pdf_body_result. unfold parse_pdf_body.
    rewrite bind_emit. simpl trace.
    rewrite elem_of_cons, trace_bind.
    pose proof (page_event_not_close _ (page_loop_page_events FIG KW doc 0 [])) as Hpl.
    destruct (result (page_loop FIG KW doc 0 [])) as [[| pd pds] | e].
    - split.
      + intros [H | [H | (a & Ha & H)]]; [discriminate | contradiction |].
        inversion Ha; subst a. inversion H.
      + intros [P H]. discriminate.
    - cbv zeta.
      destruct (length (strip (join [10; 10]%N (map text (pd :: pds)))) <? 100)%nat
        eqn:Hshort.
      + split.
        * intros [H | [H | (a & Ha & H)]]; [discriminate | contradiction |].
          inversion Ha; subst a. cbv beta iota zeta in H.
          rewrite Hshort in H. inversion H.
        * intros [P H]. discriminate.
      + pose proof (page_event_not_close _
                      (mark_loop_page_events doc (key_set_of (pd :: pds)) (pd :: pds) []))
          as Hml.
        split.
        * intros [H | [H | (a & Ha & H)]]; [discriminate | contradiction |].
          inversion Ha; subst a. cbv beta iota zeta in H.
          rewrite Hshort in H.
          rewrite select_key_pages_ret, bind_ret_l in H.
          fold (key_set_of (pd :: pds)) in H.
          apply trace_bind in H as [H | (marked & Hm & _)]; [contradiction |].
          rewrite Hm. eauto.
        * intros [P H]. right. right. exists (pd :: pds).
          split; [reflexivity |]. cbv beta iota zeta. rewrite Hshort.
          rewrite select_key_pages_ret, bind_ret_l.
          fold (key_set_of (pd :: pds)).
          destruct (result (mark_loop doc (key_set_of (pd :: pds)) (pd :: pds) []))
            as [marked | e] eqn:Hm; [| discriminate].
          apply trace_bind. right. exists marked. split; [exact Hm |].
          rewrite bind_emit. simpl. apply elem_of_cons. left. reflexivity.
    - split.
      + intros [H | [H | (a & Ha & _)]]; [discriminate | contradiction | discriminate].
      + intros [P H]. discriminate. }
  rewrite elem_of_cons, !elem_of_app, Hbody.
  destruct (result (parse_pdf_body FIG KW doc)) as [P | e] eqn:HR.
  - split; [eauto |]. intros _. right. left. left. eauto.
  - destruct (parse_pdf_handler_typed e) as (msg & orig & Hh).
    split.
    + intros [H | [[[P HP] | H] | H]];
        [discriminate | discriminate | |
         apply list_elem_of_singleton in H; discriminate].
      destruct e; simpl in H; inversion H.
    + intros [P HP]. rewrite Hh in HP. discriminate.
Qed.

(** C2 at a page with three characters of text: the run opens the
    document, raises the too-little-text error and deletes the temporary
    file, and the document handle is never closed; the run of a document
    that parses does close it. *)
Theorem document_left_open_on_error :
  result (parse_pdf ascii_caption_match no_keyword [short_page])
  = Raise little_text_error
  /\ trace (parse_pdf ascii_caption_match no_keyword [short_page])
     = [WriteTempPdf; FitzOpen;
        LogDebug "Page %d: no figure captions found." [ArgInt 1];
        SafeUnlink]
  /\ (DocClose ∉ trace (parse_pdf ascii_caption_match no_keyword [short_page]))
  /\ (DocClose ∈ trace (parse_pdf ascii_caption_match no_keyword two_page_doc)).
Proof.
  split; [vm_compute; reflexivity |].
  split; [vm_compute; reflexivity |].
  split.
  - rewrite doc_closed_iff_returned. intros [P HP].
    vm_compute in HP. discriminate.
  - apply doc_closed_iff_returned. eexists. vm_compute. reflexivity.
Qed.

(** * Further properties of the parser *)

(** ** Stripping *)

Lemma lstrip_head (s s' : str) (c : char) :
  lstrip s = c :: s' -> isspace c = false.
Proof.
  induction s as [| a s IH]; simpl; [discriminate |].
  destruct (isspace a) eqn:E; [exact IH |].
  intros H. inversion H; subst. exact E.
Qed.

Lemma lstrip_nonspace (c : char) (s : str) :
  isspace c = false -> lstrip (c :: s) = c :: s.
Proof. intros E. simpl. rewrite E. reflexivity. Qed.

Lemma lstrip_snoc_nonspace (s : str) (c : char) :
  isspace c = false -> lstrip (s ++ [c]) = lstrip s ++ [c].
Proof.
  intros E. induction s as [| a s IH]; simpl; [rewrite E; reflexivity |].
  destruct (isspace a); [exact IH | reflexivity].
Qed.

Lemma rstrip_nonspace_head (c : char) (s : str) :
  isspace c = false -> rstrip (c :: s) = c :: rstrip s.
Proof.
  intros E. unfold rstrip.
  rewrite reverse_cons, (lstrip_snoc_nonspace _ _ E), reverse_snoc.
  reflexivity.
Qed.

Lemma rstrip_idem (s : str) : rstrip (rstrip s) = rstrip s.
Proof.
  unfold rstrip. rewrite reverse_involutive.
  destruct (lstrip (reverse s)) as [| c t] eqn:E; [reflexivity |].
  rewrite (lstrip_nonspace _ _ (lstrip_head _ _ _ E)). reflexivity.
Qed.

Lemma strip_head (s s' : str) (c : char) :
  strip s = c :: s' -> isspace c = false.
Proof.
  unfold strip. destruct (lstrip s) as [| a t] eqn:E.
  - discriminate.
  - pose proof (lstrip_head _ _ _ E) as Ha.
    rewrite (rstrip_nonspace_head _ _ Ha). intros H. inversion H; subst.
    exact Ha.
Qed.

Lemma strip_idem (s : str) : strip (strip s) = strip s.
Proof.
  destruct (strip s) as [| c t] eqn:E; [reflexivity |].
  pose proof (strip_head _ _ _ E) as Hc.
  unfold strip. rewrite (lstrip_nonspace _ _ Hc). fold (strip s) in *.
  rewrite <- E. unfold strip. apply rstrip_idem.
Qed.

(** ** The collectors *)

Lemma width_gt (r : fitz.Rect) (q : Q) :
  0 <= q -> (Qgtb (fitz.width r) q = true <-> q < fitz.x1 r - fitz.x0 r).
Proof.
  intros Hq. rewrite Qgtb_gt. unfold fitz.width.
  destruct (py_max_spec 0 (fitz.x1 r - fitz.x0 r)) as [[? ->] | [? ->]]; lra.
Qed.

Lemma height_gt (r : fitz.Rect) (q : Q) :
  0 <= q -> (Qgtb (fitz.height r) q = true <-> q < fitz.y1 r - fitz.y0 r).
Proof.
  intros Hq. rewrite Qgtb_gt. unfold fitz.height.
  destruct (py_max_spec 0 (fitz.y1 r - fitz.y0 r)) as [[? ->] | [? ->]]; lra.
Qed.

Lemma big_enough_edges (r : fitz.Rect) :
  big_enough r = true
  <-> 10 < fitz.x1 r - fitz.x0 r /\ 10 < fitz.y1 r - fitz.y0 r.
Proof.
  unfold big_enough, MIN_DRAWING_W, MIN_DRAWING_H.
  rewrite andb_true_iff, width_gt, height_gt by lra. reflexivity.
Qed.

(** X1: when [page.get_drawings()] raises, no drawing is collected and
    nothing is raised; otherwise the collected rectangles are, in their
    order, exactly the drawings whose right edge is more than 10 points
    beyond the left one and whose bottom edge more than 10 points below
    the top one (so no inverted or thin rectangle gets through). *)
Theorem collected_drawings (page : fitz.Page) :
  (fitz.get_drawings page = None /\ _collect_drawing_rects page = [])
  \/ (exists ds,
        fitz.get_drawings page = Some ds
        /\ _collect_drawing_rects page `sublist_of` ds
        /\ forall r, r ∈ _collect_drawing_rects page
                     <-> r ∈ ds /\ 10 < fitz.x1 r - fitz.x0 r
                                /\ 10 < fitz.y1 r - fitz.y0 r).
Proof.
  unfold _collect_drawing_rects.
  destruct (fitz.get_drawings page) as [ds |]; [right | left; auto].
  exists ds. split; [reflexivity |]. split; [apply filter_sublist |].
  intros r. rewrite !list_elem_of_In, List.filter_In, big_enough_edges.
  reflexivity.
Qed.

(** X2: the collected raster rectangles are exactly the bounding boxes of
    the image blocks (type 1) that are more than 10 points wide and high
    between their edges; blocks of any other type never contribute. *)
Theorem collected_rasters (page : fitz.Page) (r : fitz.Rect) :
  r ∈ _collect_raster_blocks page
  <-> exists blk,
        blk ∈ fitz.get_text_dict page
        /\ fitz.blk_type blk = 1%Z /\ fitz.blk_bbox blk = r
        /\ 10 < fitz.x1 r - fitz.x0 r /\ 10 < fitz.y1 r - fitz.y0 r.
Proof.
  unfold _collect_raster_blocks.
  rewrite list_elem_of_In, List.filter_In, List.in_map_iff, big_enough_edges.
  split.
  - intros [(blk & Hb & Hin) Hbig]. apply List.filter_In in Hin as [Hin Ht].
    exists blk. apply Z.eqb_eq in Ht.
    split; [apply list_elem_of_In, Hin | auto].
  - intros (blk & Hin & Ht & Hb & Hbig). split; [| exact Hbig].
    exists blk. split; [exact Hb |]. apply List.filter_In.
    split; [apply list_elem_of_In, Hin | apply Z.eqb_eq, Ht].
Qed.

Lemma text_blocks_of_cons (b : fitz.Block) (blocks : list fitz.Block) :
  text_blocks_of (b :: blocks)
  = if negb (fitz.blk_type b =? 0)%Z then text_blocks_of blocks
    else
      let text := strip (join (lit " ") (concat (fitz.blk_lines b))) in
      match text with
      | [] => text_blocks_of blocks
      | _ :: _ => (fitz.blk_bbox b, text) :: text_blocks_of blocks
      end.
Proof. reflexivity. Qed.

Lemma text_blocks_of_spec (blocks : list fitz.Block) (r : fitz.Rect) (t : str) :
  (r, t) ∈ text_blocks_of blocks
  <-> exists blk,
        blk ∈ blocks /\ fitz.blk_type blk = 0%Z /\ fitz.blk_bbox blk = r
        /\ t = strip (join (lit " ") (concat (fitz.blk_lines blk)))
        /\ t <> [].
Proof.
  induction blocks as [| b blocks IH].
  - simpl. split; [intros H; inversion H | intros (blk & H & _); inversion H].
  - rewrite text_blocks_of_cons.
    destruct (Z.eqb_spec (fitz.blk_type b) 0) as [Ht | Ht]; simpl negb;
      cbv iota zeta.
    + destruct (strip (join (lit " ") (concat (fitz.blk_lines b)))) as [| c s] eqn:E.
      * rewrite IH. split; intros (blk & Hin & Hrest).
        -- exists blk. split; [apply elem_of_cons; right; exact Hin | exact Hrest].
        -- apply elem_of_cons in Hin as [-> | Hin]; [| eauto].
           destruct Hrest as (_ & _ & Ht' & Hne). rewrite E in Ht'. contradiction.
      * rewrite elem_of_cons, IH. split.
        -- intros [H | (blk & Hin & Hrest)].
           ++ inversion H; subst. exists b.
              split; [apply elem_of_cons; left; reflexivity |].
              rewrite E. repeat split; auto; discriminate.
           ++ exists blk. split; [apply elem_of_cons; right; exact Hin | exact Hrest].
        -- intros (blk & Hin & Hrest).
           apply elem_of_cons in Hin as [-> | Hin]; [left | right; eauto].
           destruct Hrest as (_ & <- & -> & _). rewrite E. reflexivity.
    + rewrite IH. split; intros (blk & Hin & Hrest).
      * exists blk. split; [apply elem_of_cons; right; exact Hin | exact Hrest].
      * apply elem_of_cons in Hin as [-> | Hin]; [| eauto].
        destruct Hrest as (Ht' & _). contradiction.
Qed.

(** X3: every collected text block is a text block (type 0) of the page
    with its bounding box; its text is the span texts joined by spaces and
    stripped, is not empty, and stripping it again changes nothing, so it
    neither starts nor ends with whitespace.  A text block whose spans
    are only whitespace is not collected. *)
Theorem collected_text_blocks (page : fitz.Page) (r : fitz.Rect) (t : str) :
  ((r, t) ∈ _collect_text_blocks page
   <-> exists blk,
         blk ∈ fitz.get_text_dict_ws page
         /\ fitz.blk_type blk = 0%Z /\ fitz.blk_bbox blk = r
         /\ t = strip (join (lit " ") (concat (fitz.blk_lines blk)))
         /\ t <> [])
  /\ ((r, t) ∈ _collect_text_blocks page ->
      strip t = t /\ exists c t', t = c :: t' /\ isspace c = false).
Proof.
  split; [apply text_blocks_of_spec |].
  intros H. apply text_blocks_of_spec in H as (blk & _ & _ & _ & Ht & Hne).
  split; [rewrite Ht; apply strip_idem |].
  destruct t as [| c t']; [contradiction |].
  exists c, t'. split; [reflexivity |].
  symmetry in Ht. exact (strip_head _ _ _ Ht).
Qed.

Lemma collected_text_blocks_witness :
  (caption_box, lit "Figure 1: Test") ∈ _collect_text_blocks figure_page
  /\ strip (lit "Figure 1: Test") = lit "Figure 1: Test"
  /\ exists c t', lit "Figure 1: Test" = c :: t' /\ isspace c = false.
Proof.
  assert (H : (caption_box, lit "Figure 1: Test") ∈ _collect_text_blocks figure_page).
  { vm_compute. apply list_elem_of_In. left. reflexivity. }
  split; [exact H |].
  exact (proj2 (collected_text_blocks figure_page caption_box (lit "Figure 1: Test")) H).
Defined.

(** ** Unions of rectangles *)











(** ** The crop of a caption *)





(** ** The figures of a page *)

Lemma count_clips_app (l1 l2 : list event) :
  count_clips (l1 ++ l2) = (count_clips l1 + count_clips l2)%nat.
Proof. unfold count_clips. rewrite List.filter_app, length_app. reflexivity. Qed.

Lemma caption_loop_new_figures (page : fitz.Page) (pn : nat)
    (dr rr : list fitz.Rect) (tb caps : list (fitz.Rect * str)) :
  forall figs figs',
    result (caption_loop page pn dr rr tb caps figs) = Return figs' ->
    exists new,
      figs' = figs ++ new
      /\ Forall (fun f => cf_page_number f = pn) new
      /\ map caption new `sublist_of` map (fun rt => strip (snd rt)) caps
      /\ count_clips (trace (caption_loop page pn dr rr tb caps figs)) = length new.
Proof.
  induction caps as [| [cap t] rest IH]; intros figs figs' HR; simpl in *.
  - inversion HR; subst. exists []. rewrite app_nil_r.
    repeat split; auto; constructor.
  - destruct (_crop_for_caption cap t page dr rr tb) as [c |].
    + destruct (too_small (clamp_to_page c (fitz.rect page))).
      * destruct (IH _ _ HR) as (new & E & HF & HS & HC).
        exists new. repeat split; auto. apply sublist_cons, HS.
      * rewrite result_bind, _render_rect_result in HR.
        rewrite trace_bind_app, _render_rect_trace, _render_rect_result.
        destruct (fitz.get_pixmap_clip page (clamp_to_page c (fitz.rect page)) CROP_DPI)
          as [png |]; [| discriminate].
        rewrite result_emit_then in HR. rewrite bind_emit. simpl trace.
        destruct (IH _ _ HR) as (new & E & HF & HS & HC).
        exists (mkCroppedFigure pn (strip t) png :: new).
        split; [rewrite E, <- app_assoc; reflexivity |].
        split; [constructor; [reflexivity | exact HF] |].
        split; [simpl; apply sublist_skip, HS |].
        simpl. unfold count_clips in *. simpl. rewrite HC. reflexivity.
    + rewrite result_emit_then in HR. rewrite bind_emit. simpl trace.
      destruct (IH _ _ HR) as (new & E & HF & HS & HC).
      exists new. repeat split; auto. apply sublist_cons, HS.
Qed.

Lemma collected_texts_stripped (FIG : str -> bool) (page : fitz.Page) :
  map (fun rt => strip (snd rt))
      (List.filter (fun rt => FIG (snd rt)) (_collect_text_blocks page))
  = map snd (List.filter (fun rt => FIG (snd rt)) (_collect_text_blocks page)).
Proof.
  apply List.map_ext_in. intros [r t] Hin. simpl.
  apply List.filter_In in Hin as [Hin _].
  apply list_elem_of_In, text_blocks_of_spec in Hin as (blk & _ & _ & _ & Ht & _).
  rewrite Ht. apply strip_idem.
Qed.

Lemma extracted_figures_core
    (FIG : str -> bool) (page : fitz.Page) (pn : nat) (figs : list CroppedFigure) :
  result (_extract_cropped_figures FIG page pn) = Return figs ->
  Forall (fun f => cf_page_number f = pn) figs
  /\ map caption figs
       `sublist_of` map snd (List.filter (fun rt => FIG (snd rt))
                               (_collect_text_blocks page))
  /\ count_clips (trace (_extract_cropped_figures FIG page pn)) = length figs.
Proof.
  intros HR.
  destruct (_extract_cropped_figures_unfold FIG page pn) as [[E0 E] | [_ E]];
    rewrite E in *; rewrite result_emit_then in HR; rewrite bind_emit;
    simpl trace; unfold count_clips; simpl List.filter; fold (count_clips).
  - inversion HR; subst figs. repeat split; [constructor | apply sublist_nil_l].
  - destruct (caption_loop_new_figures _ _ _ _ _ _ _ _ HR)
      as (new & E' & HF & HS & HC).
    simpl in E'. subst new. rewrite collected_texts_stripped in HS.
    repeat split; assumption.
Qed.

(** X6: the figures that [_extract_cropped_figures] returns all carry the
    page number it was given; their captions are, in order, texts of
    collected text blocks that match the caption pattern (taken verbatim:
    the stripping changes nothing), so there are at most as many figures
    as matching blocks and none on a page without one; and exactly one
    crop was rendered per figure. *)
Theorem cropped_figures_of_page
    (FIG : str -> bool) (page : fitz.Page) (pn : nat) (figs : list CroppedFigure) :
  result (_extract_cropped_figures FIG page pn) = Return figs ->
  Forall (fun f => cf_page_number f = pn) figs
  /\ map caption figs
       `sublist_of` map snd (List.filter (fun rt => FIG (snd rt))
                               (_collect_text_blocks page))
  /\ (forall f, f ∈ figs ->
        FIG (caption f) = true
        /\ exists r, (r, caption f) ∈ _collect_text_blocks page)
  /\ (length figs
      <= length (List.filter (fun rt => FIG (snd rt)) (_collect_text_blocks page)))%nat
  /\ count_clips (trace (_extract_cropped_figures FIG page pn)) = length figs.
Proof.
  intros HR.
  destruct (extracted_figures_core FIG page pn figs HR) as (HF & HS & HC).
  split; [exact HF | split; [exact HS | split; [| split; [| exact HC]]]].
  - intros f Hf.
    assert (Hin : caption f ∈ map snd (List.filter (fun rt => FIG (snd rt))
                                         (_collect_text_blocks page))).
    { eapply elem_of_sublist; [| exact HS].
      apply list_elem_of_In, List.in_map, list_elem_of_In, Hf. }
    apply list_elem_of_In, List.in_map_iff in Hin as ([r t] & Ht & Hin).
    simpl in Ht. subst t. apply List.filter_In in Hin as [Hin Hm].
    split; [exact Hm |]. exists r. apply list_elem_of_In, Hin.
  - apply sublist_length in HS. rewrite !List.length_map in HS. exact HS.
Qed.

Lemma cropped_figures_of_page_witness :
  result (_extract_cropped_figures ascii_caption_match figure_page 1)
  = Return [mkCroppedFigure 1 (lit "Figure 1: Test") (lit "PNG")]
  /\ count_clips (trace (_extract_cropped_figures ascii_caption_match figure_page 1))
     = 1%nat.
Proof.
  assert (R : result (_extract_cropped_figures ascii_caption_match figure_page 1)
              = Return [mkCroppedFigure 1 (lit "Figure 1: Test") (lit "PNG")])
    by (vm_compute; reflexivity).
  split; [exact R |].
  exact (proj2 (proj2 (proj2 (proj2
           (cropped_figures_of_page ascii_caption_match figure_page 1 _ R))))).
Defined.

(** ** The page data of the result *)

Lemma page_loop_data (FIG KW : str -> bool) (doc : fitz.Document) :
  forall i acc pages,
    result (page_loop FIG KW doc i acc) = Return pages ->
    exists pds,
      pages = acc ++ pds
      /\ length pds = length doc
      /\ forall j page,
           doc !! j = Some page ->
           exists pd,
             pds !! j = Some pd
             /\ describes FIG KW page (i + j + 1) pd
             /\ is_key_page pd = false /\ png_b64 pd = [].
Proof.
  induction doc as [| p rest IH]; intros i acc pages HR.
  - simpl in HR. inversion HR; subst. exists []. rewrite app_nil_r.
    repeat split; auto. intros j page H. discriminate.
  - simpl page_loop in HR. rewrite result_bind in HR.
    destruct (result (_extract_cropped_figures FIG p (i + 1))) as [cropped | e] eqn:E;
      [| discriminate].
    rewrite _math_density_ret, bind_ret_l in HR.
    match type of HR with
    | context [page_loop _ _ rest (S i) (acc ++ [?x])] => set (pd := x) in *
    end.
    destruct (IH _ _ _ HR) as (pds & -> & Hlen & Hdata).
    exists (pd :: pds). rewrite <- app_assoc. simpl.
    split; [reflexivity |]. split; [f_equal; exact Hlen |].
    intros [| j] page Hj; simpl in Hj.
    + inversion Hj; subst page. exists pd. split; [reflexivity |].
      replace (i + 0 + 1)%nat with (i + 1)%nat by lia.
      unfold describes. subst pd. simpl. repeat split; auto.
    + destruct (Hdata j page Hj) as (qd & Hq & Hd).
      exists qd. split; [exact Hq |].
      replace (i + S j + 1)%nat with (S i + j + 1)%nat by lia. exact Hd.
Qed.

Lemma same_page_data_refl (pd : PageData) : same_page_data pd pd.
Proof. unfold same_page_data. repeat split. Qed.

Lemma getitem_return {A} (l : list A) (i : Z) (a : A) :
  result (getitem l i) = Return a -> getitem l i = ret a.
Proof.
  unfold getitem. cbv zeta.
  set (j := (if (i <? 0)%Z then (Z.of_nat (length l) + i)%Z else i)).
  destruct (j <? 0)%Z; [discriminate |].
  destruct (l !! Z.to_nat j); [| discriminate].
  intros H. inversion H. reflexivity.
Qed.

Lemma mark_loop_data (doc : fitz.Document) (S : gset nat) (todo : list PageData) :
  forall acc ps kl,
    result (mark_loop doc S todo acc) = Return (ps, kl) ->
    length ps = length todo
    /\ forall j pd,
         todo !! j = Some pd ->
         exists pd',
           ps !! j = Some pd'
           /\ same_page_data pd pd'
           /\ ((page_number pd ∈ S
                /\ is_key_page pd' = true
                /\ exists page,
                     getitem doc (Z.of_nat (page_number pd) - 1) = ret page
                     /\ fitz.get_pixmap page FULL_PAGE_DPI = Some (png_b64 pd'))
               \/ ((page_number pd ∉ S) /\ pd' = pd)).
Proof.
  induction todo as [| pd rest IH]; intros acc ps kl HR.
  - simpl in HR. inversion HR; subst. split; [reflexivity |].
    intros j pd H. discriminate.
  - simpl mark_loop in HR.
    destruct (bool_decide (page_number pd ∈ S)) eqn:B.
    + apply bool_decide_eq_true in B. rewrite result_bind in HR.
      destruct (result (getitem doc (Z.of_nat (page_number pd) - 1)))
        as [page | e] eqn:G; [| discriminate].
      apply getitem_return in G as G'.
      rewrite result_bind, _render_full_page_result in HR.
      destruct (fitz.get_pixmap page FULL_PAGE_DPI) as [png |] eqn:P; [| discriminate].
      rewrite result_bind in HR.
      match type of HR with
      | context [mark_loop doc S rest (acc ++ [?x])] => set (pd' := x) in *
      end.
      destruct (result (mark_loop doc S rest (acc ++ [pd']))) as [[ps' kl'] | e] eqn:HM;
        [| discriminate].
      rewrite result_ret in HR. inversion HR; subst ps kl. simpl.
      destruct (IH _ _ _ HM) as (Hlen & Hdata).
      split; [f_equal; exact Hlen |].
      intros [| j] qd Hj; simpl in Hj.
      * inversion Hj; subst qd. exists pd'. split; [reflexivity |].
        split; [unfold same_page_data; subst pd'; simpl; repeat split |].
        left. split; [exact B |]. split; [reflexivity |].
        exists page. split; [exact G' | exact P].
      * exact (Hdata j qd Hj).
    + apply bool_decide_eq_false in B. rewrite result_bind in HR.
      destruct (result (mark_loop doc S rest acc)) as [[ps' kl'] | e] eqn:HM;
        [| discriminate].
      rewrite result_ret in HR. inversion HR; subst ps kl. simpl.
      destruct (IH _ _ _ HM) as (Hlen & Hdata).
      split; [f_equal; exact Hlen |].
      intros [| j] qd Hj; simpl in Hj.
      * inversion Hj; subst qd. exists pd. split; [reflexivity |].
        split; [apply same_page_data_refl | right; auto].
      * exact (Hdata j qd Hj).
Qed.

(** The steps of a run that returns. *)
Lemma parse_pdf_return_steps (FIG KW : str -> bool) (doc : fitz.Document) (P : ParsedPDF) :
  result (parse_pdf FIG KW doc) = Return P ->
  exists pages0 kl,
    result (page_loop FIG KW doc 0 []) = Return pages0
    /\ result (mark_loop doc (key_set_of pages0) pages0 []) = Return (pages P, kl)
    /\ key_pages P = sorted_by_page_number kl.
Proof.
  rewrite parse_pdf_result, parse_pdf_body_result.
  assert (Hraise : forall e, result (parse_pdf_handler e) <> Return P).
  { intros e. destruct (parse_pdf_handler_typed e) as (m & o & ->). discriminate. }
  destruct (result (page_loop FIG KW doc 0 [])) as [[| pd pds] | e];
    [intros H; destruct (Hraise _ H) | | intros H; destruct (Hraise _ H)].
  cbv zeta.
  destruct (length (strip (join [10; 10]%N (map text (pd :: pds)))) <? 100)%nat;
    [intros H; destruct (Hraise _ H) |].
  destruct (result (mark_loop doc (key_set_of (pd :: pds)) (pd :: pds) []))
    as [[ps kl] | e] eqn:HM; [| intros H; destruct (Hraise _ H)].
  intros H. inversion H; subst P. simpl.
  exists (pd :: pds), kl. repeat split; [exact HM].
Qed.

Lemma key_pages_are_filter (FIG KW : str -> bool) (doc : fitz.Document) (P : ParsedPDF) :
  result (parse_pdf FIG KW doc) = Return P ->
  exists pages0,
    result (page_loop FIG KW doc 0 []) = Return pages0
    /\ map page_number (pages P) = seq 1 (length doc)
    /\ key_pages P = List.filter (in_key_set (key_set_of pages0)) (pages P).
Proof.
  intros HP.
  destruct (parse_pdf_return_inv FIG KW doc P HP)
    as (pages0 & ps & HR0 & _ & Hpn0 & _ & _ & Hpn & _ & Hps & _ & Hkey).
  exists pages0. subst ps.
  assert (Hnum : map page_number (pages P) = seq 1 (length doc)) by congruence.
  split; [exact HR0 | split; [exact Hnum |]].
  rewrite Hkey. apply sorted_by_page_number_id.
  apply filter_strongly_sorted, sorted_by_number_of_map.
  rewrite Hnum. apply seq_strongly_sorted.
Qed.

Lemma describes_same (FIG KW : str -> bool) (page : fitz.Page) (pn : nat)
    (pd pd' : PageData) :
  describes FIG KW page pn pd -> same_page_data pd pd' ->
  describes FIG KW page pn pd'.
Proof.
  unfold describes, same_page_data.
  intros (? & ? & ? & ? & ? & ?) (? & ? & ? & ? & ? & ?).
  repeat split; congruence.
Qed.

(** The page data before and after the marking, by position. *)
Lemma parsed_page_at (FIG KW : str -> bool) (doc : fitz.Document) (P : ParsedPDF) :
  result (parse_pdf FIG KW doc) = Return P ->
  exists pages0,
    result (page_loop FIG KW doc 0 []) = Return pages0
    /\ length (pages P) = length doc
    /\ forall j page,
         doc !! j = Some page ->
         exists pd0 pd,
           pages P !! j = Some pd
           /\ describes FIG KW page (j + 1) pd0
           /\ is_key_page pd0 = false /\ png_b64 pd0 = []
           /\ same_page_data pd0 pd
           /\ ((page_number pd0 ∈ key_set_of pages0
                /\ is_key_page pd = true
                /\ exists fp,
                     getitem doc (Z.of_nat (page_number pd0) - 1) = ret fp
                     /\ fitz.get_pixmap fp FULL_PAGE_DPI = Some (png_b64 pd))
               \/ ((page_number pd0 ∉ key_set_of pages0) /\ pd = pd0)).
Proof.
  intros HP.
  destruct (parse_pdf_return_steps FIG KW doc P HP) as (pages0 & kl & HR0 & HM & _).
  destruct (page_loop_data FIG KW doc 0 [] pages0 HR0) as (pds & E & Hlen & Hdata).
  simpl in E. subst pds.
  destruct (mark_loop_data doc _ pages0 [] _ _ HM) as (Hlen' & Hmark).
  exists pages0. split; [exact HR0 | split; [congruence |]].
  intros j page Hj.
  destruct (Hdata j page Hj) as (pd0 & H0 & Hd & Hk & Hp).
  destruct (Hmark j pd0 H0) as (pd & Hpd & Hsame & Hcase).
  exists pd0, pd. simpl in Hd.
  split; [exact Hpd |]. split; [exact Hd |]. split; [exact Hk |].
  split; [exact Hp |]. split; [exact Hsame | exact Hcase].
Qed.

(** X7: in the result of a run that returns, the page at position j
    carries the number j + 1, the text of the j-th page of the document,
    the outcome of the keyword search on that text, its symbol density
    (between 0 and 1), the number of its embedded images, and the figures
    cropped from it, each of which carries the page's number. *)
Theorem parsed_page_data
    (FIG KW : str -> bool) (doc : fitz.Document) (P : ParsedPDF) :
  result (parse_pdf FIG KW doc) = Return P ->
  length (pages P) = length doc
  /\ forall j page,
       doc !! j = Some page ->
       exists pd,
         pages P !! j = Some pd
         /\ describes FIG KW page (j + 1) pd
         /\ 0 <= math_density pd /\ math_density pd <= 1
         /\ Forall (fun f => cf_page_number f = page_number pd) (cropped_figures pd).
Proof.
  intros HP.
  destruct (parsed_page_at FIG KW doc P HP) as (pages0 & _ & Hlen & Hat).
  split; [exact Hlen |]. intros j page Hj.
  destruct (Hat j page Hj) as (pd0 & pd & Hpd & Hd & _ & _ & Hsame & _).
  exists pd. split; [exact Hpd |].
  pose proof (describes_same _ _ _ _ _ _ Hd Hsame) as Hd'.
  split; [exact Hd' |].
  destruct Hd' as (Hn & _ & _ & Hden & _ & Hfigs).
  rewrite Hden. split; [apply math_density_of_range |].
  split; [apply math_density_of_range |].
  rewrite Hn. exact (proj1 (extracted_figures_core _ _ _ _ Hfigs)).
Qed.

Lemma parsed_page_data_witness :
  exists P,
    result (parse_pdf ascii_caption_match no_keyword [figure_page]) = Return P
    /\ length (pages P) = 1%nat
    /\ forall j page,
         [figure_page] !! j = Some page ->
         exists pd,
           pages P !! j = Some pd
           /\ describes ascii_caption_match no_keyword page (j + 1) pd
           /\ 0 <= math_density pd /\ math_density pd <= 1
           /\ Forall (fun f => cf_page_number f = page_number pd) (cropped_figures pd).
Proof.
  eexists. split; [vm_compute; reflexivity |].
  apply (parsed_page_data ascii_caption_match no_keyword [figure_page]).
  vm_compute. reflexivity.
Defined.

(** ** Key page flags and images *)

Lemma getitem_ret_lookup {A} (l : list A) (n : nat) (a : A) :
  (1 <= n)%nat -> getitem l (Z.of_nat n - 1) = ret a -> l !! (n - 1)%nat = Some a.
Proof.
  intros Hn. unfold getitem. cbv zeta.
  destruct (Z.ltb_spec (Z.of_nat n - 1) 0) as [? | _]; [lia |].
  destruct (Z.ltb_spec (Z.of_nat n - 1) 0) as [? | _]; [lia |].
  replace (Z.to_nat (Z.of_nat n - 1)) with (n - 1)%nat by lia.
  destruct (l !! (n - 1)%nat); [| discriminate].
  intros H. inversion H. reflexivity.
Qed.

(** X8: in the result of a run that returns, a page is flagged as key page
    exactly when it is in [key_pages]; a flagged page carries the
    rendering of its own page of the document at the full-page
    resolution; a page that is not flagged carries no image. *)
Theorem key_page_flags
    (FIG KW : str -> bool) (doc : fitz.Document) (P : ParsedPDF) :
  result (parse_pdf FIG KW doc) = Return P ->
  forall pd, pd ∈ pages P ->
    (is_key_page pd = true <-> pd ∈ key_pages P)
    /\ (is_key_page pd = true ->
        exists page,
          doc !! (page_number pd - 1)%nat = Some page
          /\ fitz.get_pixmap page FULL_PAGE_DPI = Some (png_b64 pd))
    /\ (is_key_page pd = false -> png_b64 pd = []).
Proof.
  intros HP pd Hin.
  destruct (parsed_page_at FIG KW doc P HP) as (pages0 & HR0 & Hlen & Hat).
  destruct (key_pages_are_filter FIG KW doc P HP) as (pages0' & HR0' & _ & Hkey).
  assert (pages0' = pages0) by congruence. subst pages0'.
  apply list_elem_of_lookup_1 in Hin as [j Hj].
  assert (Hjd : is_Some (doc !! j)).
  { apply lookup_lt_is_Some. rewrite <- Hlen. apply lookup_lt_is_Some. eauto. }
  destruct Hjd as [page Hpage].
  destruct (Hat j page Hpage)
    as (pd0 & pd' & Hpd' & Hd & Hk0 & Hp0 & Hsame & Hcase).
  assert (pd' = pd) by congruence. subst pd'.
  destruct Hd as (Hn0 & _). destruct Hsame as (Hn & _).
  assert (Hmem : pd ∈ key_pages P <-> page_number pd ∈ key_set_of pages0).
  { rewrite Hkey, list_elem_of_In, List.filter_In. unfold in_key_set.
    rewrite bool_decide_eq_true. split; [tauto |]. intros H.
    split; [| exact H]. apply list_elem_of_In, list_elem_of_lookup_2 with j, Hj. }
  rewrite Hmem, Hn.
  destruct Hcase as [(HS & Hflag & fp & Hget & Hpix) | (HS & ->)].
  - split; [tauto |]. split; [| congruence].
    intros _. exists fp. split; [| exact Hpix].
    apply getitem_ret_lookup; [lia | exact Hget].
  - rewrite Hk0. split; [split; [discriminate | contradiction] |].
    split; [discriminate | intros _; exact Hp0].
Qed.

Lemma key_page_flags_witness :
  exists P,
    result (parse_pdf ascii_caption_match no_keyword two_page_doc) = Return P
    /\ forall pd, pd ∈ pages P ->
         (is_key_page pd = true <-> pd ∈ key_pages P)
         /\ (is_key_page pd = true ->
             exists page,
               two_page_doc !! (page_number pd - 1)%nat = Some page
               /\ fitz.get_pixmap page FULL_PAGE_DPI = Some (png_b64 pd))
         /\ (is_key_page pd = false -> png_b64 pd = []).
Proof.
  eexists. split; [vm_compute; reflexivity |].
  apply (key_page_flags ascii_caption_match no_keyword two_page_doc).
  vm_compute. reflexivity.
Defined.

(** ** All cropped figures *)

Lemma constant_sorted (a : nat) (l : list nat) :
  Forall (fun n => n = a) l -> StronglySorted le l.
Proof.
  induction 1 as [| n ns Hn HF IH]; constructor; [exact IH |].
  eapply Forall_impl; [exact HF |]. simpl. intros m ->. lia.
Qed.

Lemma concat_figures_sorted (l : list PageData) :
  forall a,
    map page_number l = seq a (length l) ->
    (forall pd, pd ∈ l ->
       Forall (fun f => cf_page_number f = page_number pd) (cropped_figures pd)) ->
    StronglySorted le (map cf_page_number (concat (map cropped_figures l)))
    /\ Forall (fun n => (a <= n < a + length l)%nat)
              (map cf_page_number (concat (map cropped_figures l))).
Proof.
  induction l as [| pd l IH]; intros a Hnum Hfig; simpl.
  - split; constructor.
  - simpl in Hnum. injection Hnum as Ha Hrest.
    destruct (IH (S a) Hrest) as [HS HB].
    { intros qd Hq. apply Hfig, elem_of_cons. right. exact Hq. }
    assert (Hhead : Forall (fun n => n = a) (map cf_page_number (cropped_figures pd))).
    { apply Forall_forall. intros n Hn.
      apply list_elem_of_In, List.in_map_iff in Hn as (f & <- & Hf).
      assert (Hpd : pd ∈ pd :: l) by (apply elem_of_cons; left; reflexivity).
      pose proof (Hfig pd Hpd) as HF.
      rewrite Forall_forall in HF. rewrite (HF f) by (apply list_elem_of_In, Hf).
      exact Ha. }
    rewrite List.map_app. split.
    + apply StronglySorted_app_2; [| | exact HS].
      * intros x1 x2 H1 H2. rewrite Forall_forall in Hhead, HB.
        rewrite (Hhead x1 H1). pose proof (HB x2 H2). lia.
      * apply constant_sorted with a, Hhead.
    + apply Forall_app. split.
      * eapply Forall_impl; [exact Hhead |]. simpl. intros n ->. lia.
      * eapply Forall_impl; [exact HB |]. simpl. intros n Hn. lia.
Qed.

(** X9: in the result of a run that returns, [all_cropped_figures] lists
    the figures of the pages in page order: their page numbers never
    decrease and lie between 1 and the number of pages, and each figure
    belongs to the page whose number it carries. *)
Theorem all_cropped_figures_in_page_order
    (FIG KW : str -> bool) (doc : fitz.Document) (P : ParsedPDF) :
  result (parse_pdf FIG KW doc) = Return P ->
  StronglySorted le (map cf_page_number (all_cropped_figures P))
  /\ forall f, f ∈ all_cropped_figures P ->
       (1 <= cf_page_number f <= length doc)%nat
       /\ exists pd,
            pd ∈ pages P /\ f ∈ cropped_figures pd
            /\ page_number pd = cf_page_number f.
Proof.
  intros HP.
  destruct (key_pages_are_filter FIG KW doc P HP) as (_ & _ & Hnum & _).
  destruct (parsed_page_at FIG KW doc P HP) as (pages0 & _ & Hlen & Hat).
  assert (Hfig : forall pd, pd ∈ pages P ->
            Forall (fun f => cf_page_number f = page_number pd) (cropped_figures pd)).
  { intros pd Hin. apply list_elem_of_lookup_1 in Hin as [j Hj].
    assert (Hjd : is_Some (doc !! j)).
    { apply lookup_lt_is_Some. rewrite <- Hlen. apply lookup_lt_is_Some. eauto. }
    destruct Hjd as [page Hpage].
    destruct (Hat j page Hpage) as (pd0 & pd' & Hpd' & Hd & _ & _ & Hsame & _).
    assert (pd' = pd) by congruence. subst pd'.
    destruct (describes_same _ _ _ _ _ _ Hd Hsame) as (Hn & _ & _ & _ & _ & Hfigs).
    rewrite Hn. exact (proj1 (extracted_figures_core _ _ _ _ Hfigs)). }
  rewrite <- Hlen in Hnum.
  destruct (concat_figures_sorted (pages P) 1 Hnum Hfig) as [HS HB].
  unfold all_cropped_figures. split; [exact HS |].
  intros f Hf. split.
  - rewrite Forall_forall in HB.
    assert (Hn : cf_page_number f ∈ map cf_page_number (concat (map cropped_figures (pages P)))).
    { apply list_elem_of_In, List.in_map, list_elem_of_In, Hf. }
    pose proof (HB _ Hn). lia.
  - apply list_elem_of_In, List.in_concat in Hf as (figs & Hfigs & Hf).
    apply List.in_map_iff in Hfigs as (pd & <- & Hpd).
    exists pd. apply list_elem_of_In in Hpd, Hf.
    split; [exact Hpd | split; [exact Hf |]].
    pose proof (Hfig pd Hpd) as HF. rewrite Forall_forall in HF.
    symmetry. exact (HF f Hf).
Qed.

Lemma all_cropped_figures_in_page_order_witness :
  exists P,
    result (parse_pdf ascii_caption_match no_keyword
              [figure_page; two_caption_page always_renders]) = Return P
    /\ map cf_page_number (all_cropped_figures P) = [1; 2; 2]%nat
    /\ StronglySorted le (map cf_page_number (all_cropped_figures P)).
Proof.
  eexists. split; [vm_compute; reflexivity |]. split; [vm_compute; reflexivity |].
  apply (all_cropped_figures_in_page_order ascii_caption_match no_keyword
           [figure_page; two_caption_page always_renders]).
  vm_compute. reflexivity.
Defined.

(** ** The events of a run *)

Lemma parse_pdf_handler_trace (e : exn) : trace (parse_pdf_handler e) = [].
Proof. destruct e; reflexivity. Qed.

Lemma parse_pdf_body_trace (FIG KW : str -> bool) (doc : fitz.Document) :
  trace (parse_pdf_body FIG KW doc) = FitzOpen :: run_events FIG KW doc.
Proof.
  unfold parse_pdf_body, run_events. rewrite bind_emit. simpl trace.
  f_equal. rewrite trace_bind_app. f_equal.
  destruct (result (page_loop FIG KW doc 0 [])) as [[| pd pds] | e];
    [reflexivity | | reflexivity].
  cbv zeta.
  destruct (length (strip (join [10; 10]%N (map text (pd :: pds)))) <? 100)%nat;
    [reflexivity |].
  rewrite select_key_pages_ret, bind_ret_l. fold (key_set_of (pd :: pds)).
  rewrite trace_bind_app. reflexivity.
Qed.

Lemma parse_pdf_trace (FIG KW : str -> bool) (doc : fitz.Document) :
  trace (parse_pdf FIG KW doc)
  = WriteTempPdf :: FitzOpen :: run_events FIG KW doc ++ [SafeUnlink].
Proof.
  unfold parse_pdf. rewrite bind_emit. simpl trace.
  rewrite trace_try_finally_emit, trace_try_except, parse_pdf_body_trace.
  assert (E : match result (parse_pdf_body FIG KW doc) with
              | Return _ => []
              | Raise e => trace (parse_pdf_handler e)
              end = []).
  { destruct (result (parse_pdf_body FIG KW doc));
      [reflexivity | apply parse_pdf_handler_trace]. }
  rewrite E, app_nil_r. reflexivity.
Qed.

(** X10: every run writes the temporary file first, opens the document
    next and removes the temporary file last, whatever happens in
    between.  In a run that returns, the document is closed after the
    last rendering and only the summary is logged after that; in a run
    that raises, the events in between are renderings and debug logs
    only. *)
Theorem run_is_bracketed (FIG KW : str -> bool) (doc : fitz.Document) :
  trace (parse_pdf FIG KW doc)
  = WriteTempPdf :: FitzOpen :: run_events FIG KW doc ++ [SafeUnlink]
  /\ ((exists P evs fmt args,
          result (parse_pdf FIG KW doc) = Return P
          /\ run_events FIG KW doc = evs ++ [DocClose; LogInfo fmt args]
          /\ Forall page_event evs)
      \/ ((exists e, result (parse_pdf FIG KW doc) = Raise e)
          /\ Forall page_event (run_events FIG KW doc))).
Proof.
  split; [apply parse_pdf_trace |].
  rewrite parse_pdf_result, parse_pdf_body_result. unfold run_events.
  pose proof (page_loop_page_events FIG KW doc 0 []) as Hpl.
  assert (Hraise : forall e, exists e', result (parse_pdf_handler e) = Raise e').
  { intros e. destruct (parse_pdf_handler_typed e) as (m & o & ->). eauto. }
  destruct (result (page_loop FIG KW doc 0 [])) as [[| pd pds] | e];
    [right; rewrite app_nil_r; auto | | right; rewrite app_nil_r; auto].
  cbv zeta.
  destruct (length (strip (join [10; 10]%N (map text (pd :: pds)))) <? 100)%nat;
    [right; rewrite app_nil_r; auto |].
  pose proof (mark_loop_page_events doc (key_set_of (pd :: pds)) (pd :: pds) []) as Hml.
  destruct (result (mark_loop doc (key_set_of (pd :: pds)) (pd :: pds) []))
    as [marked | e].
  - left. eexists _, _, _, _. split; [reflexivity |].
    split; [unfold closing_events; rewrite app_assoc; reflexivity |].
    apply Forall_app. auto.
  - right. rewrite app_nil_r. split; [auto | apply Forall_app; auto].
Qed.

(** ** The number of full-page renderings *)

Lemma caption_loop_events (Q : event -> Prop) (page : fitz.Page) (pn : nat)
    (dr rr : list fitz.Rect) (tb caps : list (fitz.Rect * str)) :
  (forall fmt args, Q (LogDebug fmt args)) ->
  (forall r dpi, Q (PixmapClip r dpi)) ->
  forall figs, Forall Q (trace (caption_loop page pn dr rr tb caps figs)).
Proof.
  intros HL HC.
  induction caps as [| [cap t] rest IH]; intros figs; simpl.
  - constructor.
  - destruct (_crop_for_caption cap t page dr rr tb) as [c |].
    + destruct (too_small (clamp_to_page c (fitz.rect page))).
      * apply IH.
      * apply Forall_trace_bind.
        -- rewrite _render_rect_trace. repeat constructor. apply HC.
        -- intros png _. rewrite bind_emit. simpl.
           constructor; [apply HL | apply IH].
    + rewrite bind_emit. simpl. constructor; [apply HL | apply IH].
Qed.

Lemma page_loop_events (Q : event -> Prop) (FIG KW : str -> bool)
    (doc : fitz.Document) :
  (forall fmt args, Q (LogDebug fmt args)) ->
  (forall r dpi, Q (PixmapClip r dpi)) ->
  forall i acc, Forall Q (trace (page_loop FIG KW doc i acc)).
Proof.
  intros HL HC.
  induction doc as [| p rest IH]; intros i acc; simpl.
  - constructor.
  - apply Forall_trace_bind.
    + destruct (_extract_cropped_figures_unfold FIG p (i + 1)) as [[_ ->] | [_ ->]];
        rewrite bind_emit; simpl; constructor; try apply HL.
      * constructor.
      * apply caption_loop_events; assumption.
    + intros cropped _. rewrite _math_density_ret, bind_ret_l. apply IH.
Qed.

Lemma count_page_renders_app (l1 l2 : list event) :
  count_page_renders (l1 ++ l2)
  = (count_page_renders l1 + count_page_renders l2)%nat.
Proof.
  unfold count_page_renders. rewrite List.filter_app, length_app. reflexivity.
Qed.

Lemma count_page_renders_none (l : list event) :
  Forall (fun e => is_page_render e = false) l -> count_page_renders l = 0%nat.
Proof.
  unfold count_page_renders. induction 1 as [| e l He _ IH]; simpl; [reflexivity |].
  rewrite He. exact IH.
Qed.

Lemma page_loop_no_page_render (FIG KW : str -> bool) (doc : fitz.Document) :
  count_page_renders (trace (page_loop FIG KW doc 0 [])) = 0%nat.
Proof.
  apply count_page_renders_none, page_loop_events; reflexivity.
Qed.

Lemma getitem_trace {A} (l : list A) (i : Z) : trace (getitem l i) = [].
Proof.
  unfold getitem. cbv zeta.
  set (j := (if (i <? 0)%Z then (Z.of_nat (length l) + i)%Z else i)).
  destruct (j <? 0)%Z; [reflexivity |].
  destruct (l !! Z.to_nat j); reflexivity.
Qed.

Lemma _render_full_page_trace (page : fitz.Page) (dpi : Z) :
  trace (_render_full_page page dpi) = [PixmapPage dpi].
Proof.
  unfold _render_full_page. rewrite bind_emit.
  destruct (fitz.get_pixmap page dpi); reflexivity.
Qed.

Lemma mark_loop_renders (doc : fitz.Document) (S : gset nat) (todo : list PageData) :
  forall acc,
    (count_page_renders (trace (mark_loop doc S todo acc))
     <= length (List.filter (in_key_set S) todo))%nat
    /\ forall ps kl,
         result (mark_loop doc S todo acc) = Return (ps, kl) ->
         (count_page_renders (trace (mark_loop doc S todo acc)) + length acc)%nat
         = length kl.
Proof.
  induction todo as [| pd rest IH]; intros acc.
  - simpl. split; [unfold count_page_renders; simpl; lia |].
    intros ps kl H. inversion H; subst. reflexivity.
  - simpl mark_loop. simpl List.filter. unfold in_key_set at 1.
    destruct (bool_decide (page_number pd ∈ S)).
    + rewrite trace_bind_app, getitem_trace, result_bind. simpl app.
      destruct (result (getitem doc (Z.of_nat (page_number pd) - 1))) as [page | e].
      2: { split; [unfold count_page_renders; simpl; lia | discriminate]. }
      rewrite trace_bind_app, _render_full_page_trace, result_bind,
        _render_full_page_result.
      destruct (fitz.get_pixmap page FULL_PAGE_DPI) as [png |].
      2: { split; [unfold count_page_renders; simpl; lia | discriminate]. }
      match goal with
      | |- context [mark_loop doc S rest (acc ++ [?x])] => set (pd' := x)
      end.
      destruct (IH (acc ++ [pd'])) as [Hle Heq].
      rewrite trace_bind_app, result_bind, count_page_renders_app,
        count_page_renders_app.
      destruct (result (mark_loop doc S rest (acc ++ [pd']))) as [[ps' kl'] | e] eqn:HM.
      * change (count_page_renders [PixmapPage FULL_PAGE_DPI]) with 1%nat.
        change (count_page_renders (trace (ret (pd' :: fst (ps', kl'), snd (ps', kl')))))
          with 0%nat.
        split; [simpl length; lia |].
        intros ps kl H. rewrite result_ret in H. inversion H; subst ps kl. simpl.
        specialize (Heq ps' kl' eq_refl). rewrite length_app in Heq. simpl in Heq. lia.
      * change (count_page_renders [PixmapPage FULL_PAGE_DPI]) with 1%nat.
        change (count_page_renders []) with 0%nat.
        split; [simpl length; lia | discriminate].
    + destruct (IH acc) as [Hle Heq].
      rewrite trace_bind_app, result_bind, count_page_renders_app.
      destruct (result (mark_loop doc S rest acc)) as [[ps' kl'] | e] eqn:HM.
      * change (count_page_renders (trace (ret (pd :: fst (ps', kl'), snd (ps', kl')))))
          with 0%nat.
        split; [lia |].
        intros ps kl H. rewrite result_ret in H. inversion H; subst ps kl. simpl.
        specialize (Heq ps' kl' eq_refl). lia.
      * change (count_page_renders []) with 0%nat.
        split; [lia | discriminate].
Qed.

Lemma key_filter_length_bound (S : gset nat) (l : list PageData) (n : nat) :
  map page_number l = seq 1 n ->
  (length (List.filter (in_key_set S) l) <= Nat.min n (size S))%nat.
Proof.
  intros Hnum.
  assert (Hsorted : StronglySorted
                      (fun a b => (page_number a < page_number b)%nat)
                      (List.filter (in_key_set S) l)).
  { apply filter_strongly_sorted, sorted_by_number_of_map.
    rewrite Hnum. apply seq_strongly_sorted. }
  apply Nat.min_glb.
  - etransitivity; [apply List.filter_length_le |].
    rewrite <- (List.length_map page_number), Hnum, List.length_seq. lia.
  - rewrite <- (List.length_map page_number).
    apply NoDup_length_le_size; [apply sorted_by_number_NoDup, Hsorted |].
    intros x Hx.
    apply list_elem_of_In, List.in_map_iff in Hx as (pd & <- & Hin).
    apply List.filter_In in Hin as [_ Hin].
    apply bool_decide_eq_true in Hin. exact Hin.
Qed.

(** X11: whatever the document, a run renders at most min(N, 10) full
    pages, N being the number of pages; a run that returns renders exactly
    one full page per key page. *)
Theorem full_page_renderings_bounded (FIG KW : str -> bool) (doc : fitz.Document) :
  (count_page_renders (trace (parse_pdf FIG KW doc))
   <= Nat.min (length doc) 10)%nat
  /\ forall P,
       result (parse_pdf FIG KW doc) = Return P ->
       count_page_renders (trace (parse_pdf FIG KW doc)) = length (key_pages P).
Proof.
  assert (Hcount : count_page_renders (trace (parse_pdf FIG KW doc))
                   = count_page_renders (run_events FIG KW doc)).
  { rewrite parse_pdf_trace.
    change (WriteTempPdf :: FitzOpen :: run_events FIG KW doc ++ [SafeUnlink])
      with ([WriteTempPdf; FitzOpen] ++ run_events FIG KW doc ++ [SafeUnlink]).
    rewrite !count_page_renders_app.
    change (count_page_renders [WriteTempPdf; FitzOpen]) with 0%nat.
    change (count_page_renders [SafeUnlink]) with 0%nat. lia. }
  rewrite Hcount. unfold run_events.
  rewrite count_page_renders_app, page_loop_no_page_render, Nat.add_0_l.
  split.
  - destruct (result (page_loop FIG KW doc 0 [])) as [[| pd pds] | e] eqn:HR;
      [apply Nat.le_0_l | | apply Nat.le_0_l].
    cbv zeta.
    destruct (length (strip (join [10; 10]%N (map text (pd :: pds)))) <? 100)%nat;
      [apply Nat.le_0_l |].
    destruct (page_loop_nonempty FIG KW doc _ HR) as (Hnum & _).
    destruct (mark_loop_renders doc (key_set_of (pd :: pds)) (pd :: pds) []) as [Hle _].
    pose proof (key_filter_length_bound (key_set_of (pd :: pds)) _ _ Hnum) as Hb.
    pose proof (key_set_of_size (pd :: pds)) as Hs. unfold MAX_VISION_PAGES in Hs.
    rewrite count_page_renders_app.
    assert (Hc : count_page_renders
                   match result (mark_loop doc (key_set_of (pd :: pds)) (pd :: pds) []) with
                   | Return marked =>
                       closing_events (strip (join [10; 10]%N (map text (pd :: pds)))) marked
                   | Raise _ => []
                   end = 0%nat).
    { destruct (result (mark_loop doc (key_set_of (pd :: pds)) (pd :: pds) []));
        reflexivity. }
    rewrite Hc. lia.
  - intros P HP.
    destruct (parse_pdf_return_steps FIG KW doc P HP) as (pages0 & kl & HR0 & HM & Hkey).
    rewrite HR0. destruct pages0 as [| pd pds].
    { simpl in HM. inversion HM; subst. rewrite Hkey. reflexivity. }
    cbv zeta.
    destruct (length (strip (join [10; 10]%N (map text (pd :: pds)))) <? 100)%nat eqn:Hshort.
    { revert HP. rewrite parse_pdf_result, parse_pdf_body_result, HR0. cbv zeta.
      rewrite Hshort. discriminate. }
    destruct (mark_loop_renders doc (key_set_of (pd :: pds)) (pd :: pds) []) as [_ Heq].
    specialize (Heq _ _ HM). simpl length in Heq.
    rewrite count_page_renders_app, HM.
    change (count_page_renders (closing_events _ _)) with 0%nat.
    rewrite Hkey. unfold sorted_by_page_number.
    rewrite (Permutation_length (sort_by_perm _ kl)). lia.
Qed.

Lemma full_page_renderings_bounded_witness :
  exists P,
    result (parse_pdf ascii_caption_match no_keyword two_page_doc) = Return P
    /\ count_page_renders (trace (parse_pdf ascii_caption_match no_keyword two_page_doc))
       = length (key_pages P).
Proof.
  eexists. split; [vm_compute; reflexivity |].
  apply (proj2 (full_page_renderings_bounded ascii_caption_match no_keyword
                  two_page_doc)).
  vm_compute. reflexivity.
Defined.

(** ** Scores and the threshold *)

(** X12: the score of a page is never negative and at most 30 plus 3 per
    cropped figure.  A keyword alone gives at least 4, a cropped figure at
    least 3 and an embedded image at least 2, so each of them lifts the
    page over the threshold of 0.5; a page at or below the threshold has
    none of them and at most one symbol in 40 characters. *)
Theorem score_bounds (pd : PageData) :
  exists s,
    _score_page pd = ret s
    /\ 0 <= s
    /\ s <= 30 + 3 * Q_of_nat (length (cropped_figures pd))
    /\ (has_figure_keyword pd = true -> 4 <= s)
    /\ (cropped_figures pd <> [] -> 3 <= s)
    /\ ((0 < image_count pd)%nat -> 2 <= s)
    /\ (s <= 0.5 ->
        has_figure_keyword pd = false /\ cropped_figures pd = []
        /\ image_count pd = 0%nat /\ math_density_of (text pd) <= 1 / 40).
Proof.
  exists (score_of pd). split; [apply _score_page_ret |].
  pose proof (score_of_formula pd) as HF.
  pose proof (math_density_of_range (text pd)) as [Hd0 Hd1].
  pose proof (Q_of_nat_nonneg (length (cropped_figures pd))) as Hf0.
  pose proof (Q_of_nat_nonneg (Nat.min (image_count pd) 3)) as Hi0.
  assert (Hi3 : Q_of_nat (Nat.min (image_count pd) 3) <= 3).
  { change 3 with (Q_of_nat 3). apply Q_of_nat_le. lia. }
  assert (Hf1 : cropped_figures pd <> [] -> 1 <= Q_of_nat (length (cropped_figures pd))).
  { intros Hne. change 1 with (Q_of_nat 1). apply Q_of_nat_le.
    destruct (cropped_figures pd); [contradiction | simpl; lia]. }
  assert (Hi1 : (0 < image_count pd)%nat -> 1 <= Q_of_nat (Nat.min (image_count pd) 3)).
  { intros Hpos. change 1 with (Q_of_nat 1). apply Q_of_nat_le. lia. }
  assert (Hk : 0 <= (if has_figure_keyword pd then 1 else 0)
               /\ (if has_figure_keyword pd then 1 else 0) <= 1).
  { destruct (has_figure_keyword pd); split; lra. }
  destruct Hk as [Hk0 Hk1].
  split; [lra |]. split; [lra |].
  split; [intros E; rewrite E in HF; lra |].
  split; [intros Hne; specialize (Hf1 Hne); lra |].
  split; [intros Hpos; specialize (Hi1 Hpos); lra |].
  intros Hs.
  split; [destruct (has_figure_keyword pd); [lra | reflexivity] |].
  split.
  { destruct (cropped_figures pd) as [| f fs] eqn:E; [reflexivity |].
    assert (Hne : f :: fs <> []) by discriminate. specialize (Hf1 Hne). lra. }
  split.
  { destruct (image_count pd) as [| n] eqn:E; [reflexivity |].
    assert (Hpos : (0 < S n)%nat) by lia. specialize (Hi1 Hpos). lra. }
  assert (Hd : math_density_of (text pd) <= 1 # 40) by lra.
  eapply Qle_trans; [exact Hd |]. vm_compute. discriminate.
Qed.

Lemma score_bounds_witness :
  has_figure_keyword half_score_page = false
  /\ cropped_figures half_score_page = []
  /\ image_count half_score_page = 0%nat
  /\ math_density_of (text half_score_page) <= 1 / 40.
Proof.
  destruct (score_bounds half_score_page) as (s & Hs & _ & _ & _ & _ & _ & H).
  apply H. rewrite _score_page_ret in Hs. inversion Hs; subst s.
  vm_compute. discriminate.
Defined.

(** ** Key pages of short documents *)

Lemma elem_of_initial_key_pages (k n : nat) :
  k ∈ initial_key_pages n <-> k = 1%nat \/ ((1 < n)%nat /\ k = n).
Proof.
  unfold initial_key_pages. destruct (Nat.ltb_spec 1 n) as [H | H].
  - rewrite elem_of_union, !elem_of_singleton. tauto.
  - rewrite elem_of_singleton. split; [tauto | intros [? | [? ?]]; [assumption | lia]].
Qed.

Lemma same_number_same_page (l : list PageData) (a b : PageData) :
  NoDup (map page_number l) -> a ∈ l -> b ∈ l ->
  page_number a = page_number b -> a = b.
Proof.
  induction l as [| x l IH]; simpl; intros HN Ha Hb E; [inversion Ha |].
  inversion HN as [| ? ? Hx HN']; subst.
  apply elem_of_cons in Ha as [-> | Ha], Hb as [-> | Hb]; auto.
  - exfalso. apply Hx. rewrite E.
    apply list_elem_of_In, List.in_map, list_elem_of_In, Hb.
  - exfalso. apply Hx. rewrite <- E.
    apply list_elem_of_In, List.in_map, list_elem_of_In, Ha.
Qed.

Lemma key_set_of_short (pages : list PageData) (pd : PageData) :
  (length pages <= MAX_VISION_PAGES)%nat ->
  NoDup (map page_number pages) -> pd ∈ pages ->
  (page_number pd ∈ key_set_of pages
   <-> page_number pd = 1%nat
       \/ ((1 < length pages)%nat /\ page_number pd = length pages)
       \/ 0.5 < score_of pd).
Proof.
  intros Hlen HN Hin. unfold key_set_of.
  rewrite elem_of_union, elem_of_initial_key_pages, elem_of_list_to_set.
  assert (Hadd : page_number pd ∈ map page_number (scored_additions pages)
                 <-> 0.5 < score_of pd).
  { rewrite list_elem_of_In, List.in_map_iff. split.
    - intros (qd & E & Hq). apply list_elem_of_In in Hq.
      apply scored_additions_spec in Hq as [Hq Hs].
      apply elem_of_take in Hq as (i & Hi & _).
      apply list_elem_of_lookup_2 in Hi.
      rewrite (ranked_perm pages) in Hi.
      rewrite <- (same_number_same_page pages qd pd HN Hi Hin E). exact Hs.
    - intros Hs. exists pd. split; [reflexivity |].
      apply list_elem_of_In, scored_additions_spec. split; [| exact Hs].
      rewrite take_ge.
      + rewrite (ranked_perm pages). exact Hin.
      + rewrite (Permutation_length (ranked_perm pages)). exact Hlen. }
  rewrite Hadd. tauto.
Qed.

Lemma same_page_data_score (pd pd' : PageData) :
  same_page_data pd pd' -> score_of pd' = score_of pd.
Proof.
  intros (_ & Ht & Hk & _ & Hi & Hf). unfold score_of.
  rewrite Ht, Hk, Hi, Hf. reflexivity.
Qed.

(** X13: in the result of a run on a document of at most 8 pages, the key
    pages are exactly the first page, the last page and the pages whose
    score is strictly above 0.5. *)
Theorem key_pages_of_short_document
    (FIG KW : str -> bool) (doc : fitz.Document) (P : ParsedPDF) :
  (length doc <= 8)%nat ->
  result (parse_pdf FIG KW doc) = Return P ->
  forall pd, pd ∈ pages P ->
    (pd ∈ key_pages P
     <-> page_number pd = 1%nat \/ page_number pd = length doc
         \/ 0.5 < score_of pd).
Proof.
  intros Hshort HP pd Hin.
  destruct (key_pages_are_filter FIG KW doc P HP) as (pages0 & HR0 & Hnum & Hkey).
  destruct (parse_pdf_return_steps FIG KW doc P HP) as (p0 & kl & Hp0 & HM & _).
  assert (p0 = pages0) by congruence. subst p0.
  destruct (mark_loop_data doc (key_set_of pages0) pages0 [] (pages P) kl HM)
    as (Hlen & Hm).
  destruct (page_loop_nonempty FIG KW doc pages0 HR0) as (Hnum0 & _ & _).
  assert (Hlen0 : length pages0 = length doc).
  { apply (f_equal (@length _)) in Hnum0.
    rewrite List.length_map, List.length_seq in Hnum0. exact Hnum0. }
  assert (HN : NoDup (map page_number pages0)).
  { rewrite Hnum0. apply NoDup_seq. }
  pose proof Hin as Hin'.
  apply list_elem_of_lookup_1 in Hin' as [j Hj].
  assert (Hj0 : is_Some (pages0 !! j)).
  { apply lookup_lt_is_Some. rewrite <- Hlen. apply lookup_lt_is_Some. eauto. }
  destruct Hj0 as [pd0 Hpd0].
  destruct (Hm j pd0 Hpd0) as (pd' & Hpd' & Hsame & _).
  assert (pd' = pd) by congruence. subst pd'.
  assert (Hin0 : pd0 ∈ pages0) by (apply list_elem_of_lookup_2 with j, Hpd0).
  assert (Hmem : pd ∈ key_pages P <-> page_number pd ∈ key_set_of pages0).
  { rewrite Hkey, list_elem_of_In, List.filter_In. unfold in_key_set.
    rewrite bool_decide_eq_true. split; [tauto |]. intros H.
    split; [| exact H]. apply list_elem_of_In, Hin. }
  rewrite Hmem, (same_page_data_score pd0 pd Hsame).
  destruct Hsame as (Hn & _). rewrite Hn.
  rewrite (key_set_of_short pages0 pd0);
    [| unfold MAX_VISION_PAGES; lia | exact HN | exact Hin0].
  rewrite Hlen0. split.
  - intros [H | [[_ H] | H]]; auto.
  - intros [H | [H | H]]; auto.
    destruct (Nat.ltb_spec 1 (length doc)) as [L | L]; [auto |].
    left. rewrite H.
    assert (0 < length doc)%nat.
    { rewrite <- Hlen0. destruct pages0; [inversion Hin0 | simpl; lia]. }
    lia.
Qed.

Lemma key_pages_of_short_document_witness :
  exists P,
    result (parse_pdf ascii_caption_match no_keyword two_page_doc) = Return P
    /\ forall pd, pd ∈ pages P ->
         (pd ∈ key_pages P
          <-> page_number pd = 1%nat \/ page_number pd = 2%nat
              \/ 0.5 < score_of pd).
Proof.
  eexists. split; [vm_compute; reflexivity |].
  apply (key_pages_of_short_document ascii_caption_match no_keyword two_page_doc).
  - vm_compute. lia.
  - vm_compute. reflexivity.
Defined.

(** * Matching described figures to crops *)

Lemma keyword_loop_spec (py_lower : str -> str) (digit : char -> bool)
    (described : str) (l : list CroppedFigure) :
  match vision_service.keyword_loop py_lower digit (py_lower described) l with
  | Some png =>
    exists l1 c l2,
      l = l1 ++ c :: l2 /\ png = cf_png_b64 c
      /\ shares py_lower digit described c = true
      /\ Forall (fun c' => shares py_lower digit described c' = false) l1
  | None => Forall (fun c' => shares py_lower digit described c' = false) l
  end.
Proof.
  induction l as [| a l IH]; simpl; [constructor |].
  fold (shares py_lower digit described a).
  destruct (shares py_lower digit described a) eqn:Ha.
  - exists [], a, l. repeat split; auto; constructor.
  - destruct (vision_service.keyword_loop py_lower digit (py_lower described) l).
    + destruct IH as (l1 & c & l2 & -> & Hp & Hc & Hl1).
      exists (a :: l1), c, l2. repeat split; auto; constructor; assumption.
    + constructor; assumption.
Qed.

Lemma filter_split {A} (f : A -> bool) (l : list A) :
  forall l1 c l2,
    List.filter f l = l1 ++ c :: l2 ->
    exists k1 k2,
      l = k1 ++ c :: k2 /\ List.filter f k1 = l1 /\ f c = true
      /\ List.filter f k2 = l2.
Proof.
  induction l as [| a l IH]; simpl; intros l1 c l2 E.
  - destruct l1; discriminate.
  - destruct (f a) eqn:Ha.
    + destruct l1 as [| b l1]; simpl in E; injection E as Ea E; subst a.
      * exists [], l. simpl. auto.
      * destruct (IH _ _ _ E) as (k1 & k2 & -> & H1 & Hc & H2).
        exists (b :: k1), k2. simpl. rewrite Ha, H1. auto.
    + destruct (IH _ _ _ E) as (k1 & k2 & -> & H1 & Hc & H2).
      exists (a :: k1), k2. simpl. rewrite Ha. auto.
Qed.

Lemma Forall_filter_impl {A} (f : A -> bool) (P : A -> Prop) (l : list A) :
  Forall P (List.filter f l) <-> Forall (fun x => f x = true -> P x) l.
Proof.
  rewrite !Forall_forall. split.
  - intros H x Hx Hf. apply H, list_elem_of_In, List.filter_In.
    split; [apply list_elem_of_In, Hx | exact Hf].
  - intros H x Hx. apply list_elem_of_In, List.filter_In in Hx as [Hx Hf].
    apply H; [apply list_elem_of_In, Hx | exact Hf].
Qed.

Lemma filter_nil_Forall {A} (f : A -> bool) (l : list A) :
  List.filter f l = [] <-> Forall (fun x => f x = false) l.
Proof.
  induction l as [| a l IH]; simpl.
  - split; [constructor | reflexivity].
  - destruct (f a) eqn:Ha.
    + split; [discriminate | intros H; inversion H; congruence].
    + rewrite IH. split; [intros H; constructor; assumption
                         | intros H; inversion H; assumption].
Qed.

Lemma match_cropped_cases
    (py_lower : str -> str) (digit : char -> bool)
    (described : str) (pn : nat) (crops : list CroppedFigure) :
  let r := vision_service._match_cropped py_lower digit described pn crops in
  (Forall (fun c => cf_page_number c <> pn) crops /\ r = [])
  \/ exists k1 c k2,
       crops = k1 ++ c :: k2 /\ cf_page_number c = pn /\ r = cf_png_b64 c
       /\ ((shares py_lower digit described c = true
            /\ none_shares py_lower digit described pn k1)
           \/ (Forall (fun c' => cf_page_number c' <> pn) k1
               /\ none_shares py_lower digit described pn crops)).
Proof.
  cbv zeta. unfold vision_service._match_cropped. cbv zeta.
  set (f := fun c : CroppedFigure => (cf_page_number c =? pn)%nat).
  assert (Hf : forall c, f c = true <-> cf_page_number c = pn).
  { intros c. unfold f. apply Nat.eqb_eq. }
  assert (Hnf : forall c, f c = false <-> cf_page_number c <> pn).
  { intros c. unfold f. apply Nat.eqb_neq. }
  pose proof (keyword_loop_spec py_lower digit described (List.filter f crops)) as HK.
  destruct (vision_service.keyword_loop py_lower digit (py_lower described)
              (List.filter f crops)) as [png |].
  - right. destruct HK as (l1 & c & l2 & E & -> & Hc & Hl1).
    destruct (filter_split f crops l1 c l2 E) as (k1 & k2 & -> & H1 & Hfc & _).
    exists k1, c, k2. split; [reflexivity |]. split; [apply Hf, Hfc |].
    split; [reflexivity |]. left. split; [exact Hc |].
    subst l1. apply Forall_filter_impl in Hl1. unfold none_shares.
    eapply Forall_impl; [exact Hl1 |]. simpl. intros x Hx Hp. apply Hx, Hf, Hp.
  - destruct (List.filter f crops) as [| c l2] eqn:E.
    + left. split; [| reflexivity].
      apply filter_nil_Forall in E. eapply Forall_impl; [exact E |].
      simpl. intros x. apply Hnf.
    + right.
      destruct (filter_split f crops [] c l2 E) as (k1 & k2 & Hcrops & H1 & Hfc & _).
      exists k1, c, k2. split; [exact Hcrops |]. split; [apply Hf, Hfc |].
      split; [reflexivity |]. right. split.
      * apply filter_nil_Forall in H1. eapply Forall_impl; [exact H1 |].
        simpl. intros x. apply Hnf.
      * rewrite <- E in HK. apply Forall_filter_impl in HK. unfold none_shares.
        eapply Forall_impl; [exact HK |]. simpl. intros x Hx Hp. apply Hx, Hf, Hp.
Qed.

(** X14: [_match_cropped] of [vision_service.py] returns the empty string
    when no crop carries the page number; otherwise it returns the image
    of a crop with that page number, never of another page: the first one
    that shares a run of digits with the caption, and the first crop of
    the page when none shares one. *)
Theorem matched_crop_is_of_the_page
    (py_lower : str -> str) (digit : char -> bool)
    (described : str) (pn : nat) (crops : list CroppedFigure) :
  let r := vision_service._match_cropped py_lower digit described pn crops in
  (Forall (fun c => cf_page_number c <> pn) crops /\ r = [])
  \/ exists k1 c k2,
       crops = k1 ++ c :: k2 /\ cf_page_number c = pn /\ r = cf_png_b64 c
       /\ ((shares py_lower digit described c = true
            /\ none_shares py_lower digit described pn k1)
           \/ (Forall (fun c' => cf_page_number c' <> pn) k1
               /\ none_shares py_lower digit described pn crops)).
Proof. apply match_cropped_cases. Qed.

Lemma share_number_empty_l (nums : gset str) : share_number ∅ nums = false.
Proof.
  unfold share_number. apply bool_decide_eq_false. intros H. apply H.
  apply intersection_empty_l_L.
Qed.

(** X15: for a caption without a digit, [_match_cropped] returns the image
    of the first crop carrying the page number, whatever the crops'
    captions say. *)
Theorem caption_without_number_takes_first
    (py_lower : str -> str) (digit : char -> bool)
    (described : str) (pn : nat) (crops : list CroppedFigure) :
  findall_digits digit [] (py_lower described) = [] ->
  vision_service._match_cropped py_lower digit described pn crops
  = match List.filter (fun c => cf_page_number c =? pn)%nat crops with
    | c :: _ => cf_png_b64 c
    | [] => []
    end.
Proof.
  intros Hno. unfold vision_service._match_cropped. cbv zeta.
  pose proof (keyword_loop_spec py_lower digit described
                (List.filter (fun c => cf_page_number c =? pn)%nat crops)) as HK.
  destruct (vision_service.keyword_loop py_lower digit (py_lower described) _)
    as [png |]; [| reflexivity].
  destruct HK as (_ & c & _ & _ & _ & Hc & _). exfalso.
  unfold shares, digit_runs in Hc. rewrite Hno in Hc. simpl in Hc.
  rewrite share_number_empty_l in Hc. discriminate.
Qed.

Lemma caption_without_number_takes_first_witness :
  vision_service._match_cropped ascii_lower isdigit (lit "Overview diagram") 2
    [crop_of 1 "Figure 1" "A"; crop_of 2 "Figure 2" "B"; crop_of 2 "Figure 3" "C"]
  = lit "B".
Proof.
  rewrite (caption_without_number_takes_first ascii_lower isdigit).
  - reflexivity.
  - vm_compute. reflexivity.
Defined.

(** X16: the two implementations of [_match_cropped] return the same
    image on every input. *)
Theorem gemini_match_agrees
    (py_lower : str -> str) (digit : char -> bool)
    (described : str) (pn : nat) (crops : list CroppedFigure) :
  gemini_vision_service._match_cropped py_lower digit described pn crops
  = vision_service._match_cropped py_lower digit described pn crops.
Proof.
  unfold gemini_vision_service._match_cropped, vision_service._match_cropped.
  cbv zeta.
  assert (E : forall cl l,
            gemini_vision_service.number_loop py_lower digit cl l
            = vision_service.keyword_loop py_lower digit cl l).
  { intros cl l. induction l as [| a l IH]; simpl; [reflexivity |].
    rewrite IH. reflexivity. }
  rewrite E. reflexivity.
Qed.

Lemma parsed_figures_numbered
    (FIG KW : str -> bool) (doc : fitz.Document) (P : ParsedPDF) :
  result (parse_pdf FIG KW doc) = Return P ->
  forall pd, pd ∈ pages P ->
    Forall (fun f => cf_page_number f = page_number pd) (cropped_figures pd).
Proof.
  intros HP pd Hin.
  destruct (parsed_page_at FIG KW doc P HP) as (pages0 & _ & Hlen & Hat).
  apply list_elem_of_lookup_1 in Hin as [j Hj].
  assert (Hjd : is_Some (doc !! j)).
  { apply lookup_lt_is_Some. rewrite <- Hlen. apply lookup_lt_is_Some. eauto. }
  destruct Hjd as [page Hpage].
  destruct (Hat j page Hpage) as (pd0 & pd' & Hpd' & Hd & _ & _ & Hsame & _).
  assert (pd' = pd) by congruence. subst pd'.
  destruct (describes_same _ _ _ _ _ _ Hd Hsame) as (Hn & _ & _ & _ & _ & Hfigs).
  rewrite Hn. exact (proj1 (extracted_figures_core _ _ _ _ Hfigs)).
Qed.

Lemma filter_all {A} (f : A -> bool) (l : list A) :
  Forall (fun x => f x = true) l -> List.filter f l = l.
Proof.
  induction 1 as [| a l Ha _ IH]; simpl; [reflexivity |].
  rewrite Ha, IH. reflexivity.
Qed.

Lemma figures_of_other_pages (l : list PageData) (n : nat) :
  (forall pd, pd ∈ l ->
     Forall (fun f => cf_page_number f = page_number pd) (cropped_figures pd)) ->
  n ∉ map page_number l ->
  List.filter (fun c => cf_page_number c =? n)%nat (concat (map cropped_figures l)) = [].
Proof.
  intros Hfig Hn. apply filter_nil_Forall, Forall_forall. intros c Hc.
  apply Nat.eqb_neq. intros E. apply Hn.
  apply list_elem_of_In, List.in_concat in Hc as (fs & Hfs & Hc).
  apply List.in_map_iff in Hfs as (pd & <- & Hpd).
  apply list_elem_of_In in Hpd.
  pose proof (Hfig pd Hpd) as HF. rewrite Forall_forall in HF.
  rewrite <- E, (HF c) by (apply list_elem_of_In, Hc).
  apply list_elem_of_In, List.in_map, list_elem_of_In, Hpd.
Qed.

Lemma figures_of_own_page (l : list PageData) :
  NoDup (map page_number l) ->
  (forall pd, pd ∈ l ->
     Forall (fun f => cf_page_number f = page_number pd) (cropped_figures pd)) ->
  forall pd, pd ∈ l ->
    List.filter (fun c => cf_page_number c =? page_number pd)%nat
                (concat (map cropped_figures l))
    = cropped_figures pd.
Proof.
  induction l as [| a l IH]; intros HN Hfig pd Hin; [inversion Hin |].
  simpl in HN. inversion HN as [| ? ? Ha HN']; subst.
  assert (Hfig' : forall qd, qd ∈ l ->
            Forall (fun f => cf_page_number f = page_number qd) (cropped_figures qd)).
  { intros qd Hq. apply Hfig, elem_of_cons. right. exact Hq. }
  assert (Hfa : Forall (fun f => cf_page_number f = page_number a) (cropped_figures a)).
  { apply Hfig, elem_of_cons. left. reflexivity. }
  simpl. rewrite List.filter_app.
  destruct (decide (page_number pd = page_number a)) as [E | NE].
  - assert (pd = a).
    { apply elem_of_cons in Hin as [-> | Hin]; [reflexivity |].
      exfalso. apply Ha. rewrite <- E.
      apply list_elem_of_In, List.in_map, list_elem_of_In, Hin. }
    subst pd. rewrite (figures_of_other_pages l _ Hfig' Ha), app_nil_r.
    apply filter_all. eapply Forall_impl; [exact Hfa |].
    simpl. intros f Hf. apply Nat.eqb_eq, Hf.
  - apply elem_of_cons in Hin as [-> | Hin]; [contradiction |].
    rewrite (IH HN' Hfig' pd Hin).
    assert (E0 : List.filter (fun c => cf_page_number c =? page_number pd)%nat
                   (cropped_figures a) = []).
    { apply filter_nil_Forall. eapply Forall_impl; [exact Hfa |].
      simpl. intros f Hf. apply Nat.eqb_neq. rewrite Hf. auto. }
    rewrite E0. reflexivity.
Qed.

Lemma parsed_figure_captions
    (FIG KW : str -> bool) (doc : fitz.Document) (P : ParsedPDF) :
  result (parse_pdf FIG KW doc) = Return P ->
  forall pd f, pd ∈ pages P -> f ∈ cropped_figures pd -> FIG (caption f) = true.
Proof.
  intros HP pd f Hin Hf.
  destruct (parsed_page_at FIG KW doc P HP) as (pages0 & _ & Hlen & Hat).
  apply list_elem_of_lookup_1 in Hin as [j Hj].
  assert (Hjd : is_Some (doc !! j)).
  { apply lookup_lt_is_Some. rewrite <- Hlen. apply lookup_lt_is_Some. eauto. }
  destruct Hjd as [page Hpage].
  destruct (Hat j page Hpage) as (pd0 & pd' & Hpd' & Hd & _ & _ & Hsame & _).
  assert (pd' = pd) by congruence. subst pd'.
  destruct (describes_same _ _ _ _ _ _ Hd Hsame) as (_ & _ & _ & _ & _ & Hfigs).
  destruct (extracted_figures_core _ _ _ _ Hfigs) as (_ & HS & _).
  assert (Hc : caption f ∈ map snd (List.filter (fun rt => FIG (snd rt))
                                      (_collect_text_blocks page))).
  { eapply elem_of_sublist; [| exact HS].
    apply list_elem_of_In, List.in_map, list_elem_of_In, Hf. }
  apply list_elem_of_In, List.in_map_iff in Hc as ([r t] & Ht & Hc).
  apply List.filter_In in Hc as [_ Hc]. simpl in Ht, Hc. subst t. exact Hc.
Qed.

(** X17: for a key page of a parsed PDF, matching against all cropped
    figures of the document is matching against the page's own figures:
    the image attached to a figure described on that page is one cropped
    from that page (whose caption matched the caption pattern), and it is
    the empty string when the page has no cropped figure. *)
Theorem matched_crop_from_own_page
    (FIG KW : str -> bool) (doc : fitz.Document) (P : ParsedPDF)
    (py_lower : str -> str) (digit : char -> bool) :
  result (parse_pdf FIG KW doc) = Return P ->
  forall pd, pd ∈ key_pages P ->
  forall described,
    let r := vision_service._match_cropped py_lower digit described
               (page_number pd) (all_cropped_figures P) in
    r = vision_service._match_cropped py_lower digit described
          (page_number pd) (cropped_figures pd)
    /\ match cropped_figures pd with
       | [] => r = []
       | _ :: _ => exists f, f ∈ cropped_figures pd /\ r = cf_png_b64 f
                             /\ FIG (caption f) = true
       end.
Proof.
  intros HP pd Hkey described. cbv zeta.
  destruct (key_pages_are_filter FIG KW doc P HP) as (pages0 & _ & Hnum & Hk).
  assert (Hin : pd ∈ pages P).
  { rewrite Hk in Hkey. apply list_elem_of_In, List.filter_In in Hkey as [Hkey _].
    apply list_elem_of_In, Hkey. }
  pose proof (parsed_figures_numbered FIG KW doc P HP) as Hfig.
  assert (HN : NoDup (map page_number (pages P))).
  { rewrite Hnum. apply NoDup_seq. }
  pose proof (figures_of_own_page (pages P) HN Hfig pd Hin) as Hown.
  assert (Hself : List.filter (fun c => cf_page_number c =? page_number pd)%nat
                    (cropped_figures pd) = cropped_figures pd).
  { apply filter_all. eapply Forall_impl; [exact (Hfig pd Hin) |].
    simpl. intros f Hf. apply Nat.eqb_eq, Hf. }
  assert (E : vision_service._match_cropped py_lower digit described
                (page_number pd) (all_cropped_figures P)
              = vision_service._match_cropped py_lower digit described
                  (page_number pd) (cropped_figures pd)).
  { unfold vision_service._match_cropped, all_cropped_figures. cbv zeta.
    rewrite Hown, Hself. reflexivity. }
  split; [exact E |]. rewrite E.
  pose proof (match_cropped_cases py_lower digit described (page_number pd)
                (cropped_figures pd)) as HC.
  cbv zeta in HC.
  destruct HC as [[Hno Hr] | (k1 & c & k2 & Hc & _ & Hr & _)].
  - rewrite Hr. pose proof (Hfig pd Hin) as HF.
    destruct (cropped_figures pd) as [| f fs]; [reflexivity |].
    exfalso. inversion Hno as [| ? ? Hf _]; subst. apply Hf.
    inversion HF; subst. assumption.
  - assert (Hcin : c ∈ cropped_figures pd).
    { rewrite Hc. apply elem_of_app. right. apply elem_of_cons. left. reflexivity. }
    pose proof (parsed_figure_captions FIG KW doc P HP pd c Hin Hcin) as Hcap.
    destruct (cropped_figures pd) as [| f fs]; [inversion Hcin |].
    exists c. split; [exact Hcin | split; [exact Hr | exact Hcap]].
Qed.

Lemma matched_crop_from_own_page_witness :
  exists P,
    result (parse_pdf ascii_caption_match no_keyword [figure_page]) = Return P
    /\ forall pd, pd ∈ key_pages P ->
       forall described,
         let r := vision_service._match_cropped ascii_lower isdigit described
                    (page_number pd) (all_cropped_figures P) in
         r = vision_service._match_cropped ascii_lower isdigit described
               (page_number pd) (cropped_figures pd)
         /\ match cropped_figures pd with
            | [] => r = []
            | _ :: _ => exists f, f ∈ cropped_figures pd /\ r = cf_png_b64 f
                                  /\ ascii_caption_match (caption f) = true
            end.
Proof.
  eexists. split; [vm_compute; reflexivity |].
  apply (matched_crop_from_own_page ascii_caption_match no_keyword [figure_page]).
  vm_compute. reflexivity.
Defined.

(** * Chunks of the full text *)

Lemma slice_index_within (n i : Z) :
  (0 <= i <= n)%Z -> chunker.slice_index n i = i.
Proof.
  intros H. unfold chunker.slice_index.
  destruct (Z.ltb_spec i 0); lia.
Qed.

Lemma len_nonneg (s : str) : (0 <= chunker.len s)%Z.
Proof. unfold chunker.len. lia. Qed.

Lemma slice_within (s : str) (i j : Z) :
  (0 <= i <= j)%Z -> (j <= chunker.len s)%Z ->
  chunker.slice s i j = take (Z.to_nat (j - i)) (drop (Z.to_nat i) s)
  /\ chunker.len (chunker.slice s i j) = (j - i)%Z.
Proof.
  intros Hi Hj. unfold chunker.slice. cbv zeta.
  rewrite !slice_index_within by lia. split; [reflexivity |].
  unfold chunker.len in *. rewrite length_take, length_drop. lia.
Qed.

Lemma rfind_from_cases (s sub : str) (lo : Z) (n : nat) :
  chunker.rfind_from s sub lo n = (-1)%Z
  \/ ((lo <= chunker.rfind_from s sub lo n < lo + Z.of_nat n)%Z
      /\ take (length sub)
              (drop (Z.to_nat (chunker.rfind_from s sub lo n)) s) = sub).
Proof.
  induction n as [| n IH]; simpl; [left; reflexivity |].
  destruct (bool_decide _) eqn:E.
  - right. apply bool_decide_eq_true in E. split; [lia | exact E].
  - destruct IH as [IH | [IH1 IH2]]; [left; exact IH | right].
    split; [lia | exact IH2].
Qed.

Lemma rfind_cases (s sub : str) (a b : Z) :
  (0 <= a <= b)%Z -> (b <= chunker.len s)%Z ->
  chunker.rfind s sub a b = (-1)%Z
  \/ ((a <= chunker.rfind s sub a b)%Z
      /\ (chunker.rfind s sub a b + chunker.len sub <= b)%Z
      /\ chunker.slice s (chunker.rfind s sub a b)
           (chunker.rfind s sub a b + chunker.len sub) = sub).
Proof.
  intros Ha Hb. unfold chunker.rfind. cbv zeta.
  rewrite !slice_index_within by lia.
  set (n := Z.to_nat (b - chunker.len sub - a + 1)).
  destruct (rfind_from_cases s sub a n) as [H | [H1 H2]]; [left; exact H | right].
  set (r := chunker.rfind_from s sub a n) in *.
  pose proof (len_nonneg sub) as Hs.
  assert (Hr : (r + chunker.len sub <= b)%Z) by (unfold n in H1; lia).
  split; [lia | split; [exact Hr |]].
  rewrite (proj1 (slice_within s r (r + chunker.len sub) ltac:(lia) ltac:(lia))).
  replace (Z.to_nat (r + chunker.len sub - r)) with (length sub)
    by (unfold chunker.len; lia).
  exact H2.
Qed.

(** Where a chunk that starts inside the text ends: at the end of the
    text, after [CHUNK_SIZE] characters, or right after a break that lies
    in the second half of those characters. *)
Lemma chunk_end_cases (text : str) (start : Z) :
  (0 <= start < chunker.len text)%Z ->
  let e := chunker.chunk_end text start in
  (e = chunker.len text /\ (chunker.len text <= start + 6000)%Z)
  \/ (e = (start + 6000)%Z /\ (e < chunker.len text)%Z)
  \/ ((start + 3002 <= e <= start + 6000)%Z /\ (e < chunker.len text)%Z
      /\ (chunker.slice text (e - 2) e = [10; 10]%N
          \/ chunker.slice text (e - 2) e = [46; 32]%N)).
Proof.
  intros Hs. cbv zeta. unfold chunker.chunk_end. cbv zeta.
  change (chunker.CHUNK_SIZE / 2)%Z with 3000%Z.
  change chunker.CHUNK_SIZE with 6000%Z.
  destruct (Z.ltb_spec (Z.min (start + 6000) (chunker.len text)) (chunker.len text))
    as [Hlt | Hge]; [| left; lia].
  assert (Hmin : Z.min (start + 6000) (chunker.len text) = (start + 6000)%Z) by lia.
  rewrite Hmin in *.
  destruct (rfind_cases text [10; 10]%N (start + 3000) (start + 6000)
              ltac:(lia) ltac:(lia)) as [Hp | (Hp1 & Hp2 & Hp3)].
  - rewrite Hp. simpl negb. cbv iota.
    destruct (rfind_cases text [46; 32]%N (start + 3000) (start + 6000)
                ltac:(lia) ltac:(lia)) as [Hq | (Hq1 & Hq2 & Hq3)].
    + rewrite Hq. simpl negb. cbv iota. right. left. lia.
    + set (r := chunker.rfind text [46; 32]%N (start + 3000) (start + 6000)) in *.
      change (chunker.len [46; 32]%N) with 2%Z in *.
      destruct (Z.eqb_spec r (-1)); [lia |]. simpl negb. cbv iota.
      right. right. split; [lia |]. split; [lia |]. right.
      replace (r + 2 - 2)%Z with r by lia. exact Hq3.
  - set (r := chunker.rfind text [10; 10]%N (start + 3000) (start + 6000)) in *.
    change (chunker.len [10; 10]%N) with 2%Z in *.
    destruct (Z.eqb_spec r (-1)); [lia |]. simpl negb. cbv iota.
    right. right. split; [lia |]. split; [lia |]. left.
    replace (r + 2 - 2)%Z with r by lia. exact Hp3.
Qed.

Lemma chunk_end_bounds (text : str) (start : Z) :
  (5000 < chunker.len text)%Z ->
  (0 <= start <= chunker.len text - 500)%Z ->
  let e := chunker.chunk_end text start in
  (start < e <= chunker.len text)%Z
  /\ (e <= start + 6000)%Z
  /\ (e = chunker.len text \/ (start + 3002 <= e)%Z)
  /\ (start <= e - 500)%Z.
Proof.
  intros Hlong Hs. cbv zeta.
  destruct (chunk_end_cases text start ltac:(lia)) as [H | [H | H]];
    cbv zeta in H; lia.
Qed.

Lemma next_start (e : Z) :
  Z.max (e - chunker.OVERLAP) (e - chunker.CHUNK_SIZE / 4) = (e - chunker.OVERLAP)%Z.
Proof.
  change (chunker.CHUNK_SIZE / 4)%Z with 1500%Z.
  change chunker.OVERLAP with 500%Z. lia.
Qed.

(** From a start inside a long text the loop runs until the index reaches
    [MAX_CHUNKS]: it never stops at the end of the text. *)
Lemma chunk_loop_run (text : str) :
  (5000 < chunker.len text)%Z ->
  forall fuel start idx chunks,
    (0 <= start <= chunker.len text - 500)%Z ->
    (0 <= idx <= 12)%Z ->
    (Z.to_nat (12 - idx) <= fuel)%nat ->
    exists new,
      chunker.chunk_loop fuel text start idx chunks = Some (chunks ++ new)
      /\ length new = Z.to_nat (12 - idx)
      /\ chained text start idx new.
Proof.
  intros Hlong. induction fuel as [| fuel IH]; intros start idx chunks Hs Hi Hf.
  - assert (idx = 12%Z) by lia. subst idx. simpl.
    change (12 <? chunker.MAX_CHUNKS)%Z with false. rewrite andb_false_r.
    exists []. rewrite app_nil_r. repeat split.
  - simpl. destruct (Z.ltb_spec idx chunker.MAX_CHUNKS) as [Hlt | Hge].
    + destruct (Z.ltb_spec start (chunker.len text)) as [_ | ?]; [| lia].
      simpl andb. cbv iota. rewrite next_start.
      change chunker.MAX_CHUNKS with 12%Z in Hlt.
      destruct (chunk_end_bounds text start Hlong Hs) as (He1 & He2 & He3 & He4).
      cbv zeta in He1, He2, He3, He4.
      set (e := chunker.chunk_end text start) in *.
      change chunker.OVERLAP with 500%Z.
      destruct (IH (e - 500)%Z (idx + 1)%Z
                  (chunks ++ [chunker.mkChunk idx (chunker.slice text start e) start e])
                  ltac:(lia) ltac:(lia) ltac:(lia)) as (new & HL & Hn & Hc).
      exists (chunker.mkChunk idx (chunker.slice text start e) start e :: new).
      rewrite HL, <- app_assoc. split; [reflexivity |].
      split; [simpl; lia |].
      simpl. change chunker.OVERLAP with 500%Z. fold e. auto.
    + change chunker.MAX_CHUNKS with 12%Z in Hge.
      rewrite andb_false_r. exists []. rewrite app_nil_r.
      split; [reflexivity |]. split; [simpl; lia | exact I].
Qed.

Lemma last_end_cons2 (c c' : chunker.Chunk) (rest : list chunker.Chunk) :
  last_end (c :: c' :: rest) = last_end (c' :: rest).
Proof. reflexivity. Qed.

Lemma chained_well_cut (text : str) :
  (5000 < chunker.len text)%Z ->
  forall l start idx,
    (0 <= start <= chunker.len text - 500)%Z ->
    chained text start idx l ->
    Forall (well_cut text) l.
Proof.
  intros Hlong. induction l as [| c rest IH]; intros start idx Hs Hc;
    [constructor |].
  destruct Hc as (_ & Hst & He & Ht & Hrest).
  destruct (chunk_end_bounds text start Hlong Hs) as (He1 & He2 & He3 & He4).
  cbv zeta in He1, He2, He3, He4. rewrite <- He in He1, He2, He3, He4.
  constructor.
  - unfold well_cut. rewrite Hst, Ht.
    change chunker.CHUNK_SIZE with 6000%Z.
    destruct (slice_within text start (chunker.end_ c) ltac:(lia) ltac:(lia))
      as [_ Hlen].
    repeat split; try lia; exact Hlen.
  - apply (IH (chunker.end_ c - chunker.OVERLAP)%Z (idx + 1)%Z);
      [change chunker.OVERLAP with 500%Z; lia | exact Hrest].
Qed.

Lemma chained_index (text : str) :
  forall l start idx,
    chained text start idx l ->
    map chunker.index l = map (fun k => (idx + Z.of_nat k)%Z) (seq 0 (length l)).
Proof.
  induction l as [| c rest IH]; intros start idx Hc; [reflexivity |].
  destruct Hc as (Hi & _ & _ & _ & Hrest).
  simpl. rewrite Hi, (IH _ _ Hrest), <- List.seq_shift, List.map_map.
  f_equal; [lia |]. apply List.map_ext. intros k. lia.
Qed.

Lemma chained_consecutive (text : str) :
  forall l start idx,
    chained text start idx l ->
    forall i c c',
      l !! i = Some c -> l !! S i = Some c' ->
      chunker.start c' = (chunker.end_ c - chunker.OVERLAP)%Z.
Proof.
  induction l as [| a rest IH]; intros start idx Hc i c c' Hi Hi';
    [discriminate |].
  destruct Hc as (_ & _ & _ & _ & Hrest).
  destruct i as [| i]; simpl in Hi, Hi'.
  - injection Hi as ->. destruct rest as [| b rest]; [discriminate |].
    simpl in Hi'. injection Hi' as ->.
    destruct Hrest as (_ & Hst & _). exact Hst.
  - exact (IH _ _ Hrest i c c' Hi Hi').
Qed.

(** The ends of the chunks of a long text never decrease, and the chunks
    cover the text from the first start to the last end without a gap. *)
Lemma chained_cover (text : str) :
  (5000 < chunker.len text)%Z ->
  forall l start idx,
    (0 <= start <= chunker.len text - 500)%Z ->
    chained text start idx l -> l <> [] ->
    (chunker.chunk_end text start <= last_end l <= chunker.len text)%Z
    /\ forall p, Exists (in_chunk p) l <-> (start <= p < last_end l)%Z.
Proof.
  intros Hlong. induction l as [| c rest IH]; intros start idx Hs Hc Hne;
    [contradiction |].
  destruct Hc as (_ & Hst & He & _ & Hrest).
  destruct (chunk_end_bounds text start Hlong Hs) as (He1 & He2 & He3 & He4).
  cbv zeta in He1, He2, He3, He4. rewrite <- He in *.
  destruct rest as [| c' rest'].
  - unfold last_end. simpl. split; [lia |].
    intros p. rewrite Exists_cons, Exists_nil. unfold in_chunk. rewrite Hst. tauto.
  - rewrite last_end_cons2.
    assert (Hs' : (0 <= chunker.end_ c - chunker.OVERLAP <= chunker.len text - 500)%Z)
      by (change chunker.OVERLAP with 500%Z; lia).
    destruct (IH _ _ Hs' Hrest ltac:(discriminate)) as [Hle Hcov].
    destruct (chunk_end_bounds text _ Hlong Hs') as (Hn1 & _ & _ & _).
    cbv zeta in Hn1. change chunker.OVERLAP with 500%Z in *.
    assert (Hmono : (chunker.end_ c <= last_end (c' :: rest'))%Z).
    { destruct (chunk_end_bounds text _ Hlong Hs') as (_ & _ & [E | E] & _);
        cbv zeta in E; lia. }
    split; [lia |].
    intros p. rewrite Exists_cons, Hcov. unfold in_chunk. rewrite Hst. lia.
Qed.

(** How far [n] chunks reach: to the end of the text, or at least 3002
    characters and then 2502 more with each further chunk; never beyond
    6000 and then 5500 more with each further chunk. *)
Lemma chained_reach (text : str) :
  (5000 < chunker.len text)%Z ->
  forall l start idx,
    (0 <= start <= chunker.len text - 500)%Z ->
    chained text start idx l -> l <> [] ->
    (last_end l = chunker.len text
     \/ (start + 3002 + 2502 * (Z.of_nat (length l) - 1) <= last_end l)%Z)
    /\ (last_end l <= start + 6000 + 5500 * (Z.of_nat (length l) - 1))%Z.
Proof.
  intros Hlong. induction l as [| c rest IH]; intros start idx Hs Hc Hne;
    [contradiction |].
  destruct Hc as (_ & Hst & He & _ & Hrest).
  destruct (chunk_end_bounds text start Hlong Hs) as (He1 & He2 & He3 & He4).
  cbv zeta in He1, He2, He3, He4. rewrite <- He in *.
  destruct rest as [| c' rest'].
  - unfold last_end. simpl last. simpl length. lia.
  - rewrite last_end_cons2.
    assert (Hs' : (0 <= chunker.end_ c - chunker.OVERLAP <= chunker.len text - 500)%Z)
      by (change chunker.OVERLAP with 500%Z; lia).
    destruct (IH _ _ Hs' Hrest ltac:(discriminate)) as [Hlow Hup].
    destruct (chained_cover text Hlong _ _ _ Hs' Hrest ltac:(discriminate))
      as [[_ Hlen] _].
    change chunker.OVERLAP with 500%Z in *.
    change (length (c :: c' :: rest')) with (S (length (c' :: rest'))).
    split; [| lia].
    destruct Hlow as [Hlow | Hlow]; [left; exact Hlow |].
    destruct He3 as [He3 | He3]; [| right; lia].
    left. rewrite He3 in Hlow.
    assert (0 <= Z.of_nat (length (c' :: rest')) - 1)%Z by (simpl; lia).
    lia.
Qed.

Lemma slice_split (s : str) (i k j : Z) :
  (0 <= i <= k)%Z -> (k <= j)%Z -> (j <= chunker.len s)%Z ->
  chunker.slice s i j = chunker.slice s i k ++ chunker.slice s k j.
Proof.
  intros Hi Hk Hj.
  rewrite (proj1 (slice_within s i j ltac:(lia) Hj)).
  rewrite (proj1 (slice_within s i k ltac:(lia) ltac:(lia))).
  rewrite (proj1 (slice_within s k j ltac:(lia) Hj)).
  replace (Z.to_nat (j - i)) with (Z.to_nat (k - i) + Z.to_nat (j - k))%nat by lia.
  rewrite <- take_take_drop, drop_drop. do 3 f_equal. lia.
Qed.

Lemma slice_all (s : str) : chunker.slice s 0 (chunker.len s) = s.
Proof.
  rewrite (proj1 (slice_within s 0 (chunker.len s) ltac:(pose proof (len_nonneg s); lia)
                    ltac:(lia))).
  simpl drop. apply take_ge. unfold chunker.len. lia.
Qed.

Lemma chained_ends (text : str) :
  forall l start idx,
    chained text start idx l ->
    Forall (fun c => chunker.end_ c = chunker.chunk_end text (chunker.start c)
                     /\ chunker.text c
                        = chunker.slice text (chunker.start c) (chunker.end_ c)) l.
Proof.
  induction l as [| c rest IH]; intros start idx Hc; [constructor |].
  destruct Hc as (_ & Hst & He & Ht & Hrest).
  constructor; [rewrite Hst; auto | exact (IH _ _ Hrest)].
Qed.

Lemma chunk_end_at_tail (text : str) :
  (5000 < chunker.len text)%Z ->
  chunker.chunk_end text (chunker.len text - 500) = chunker.len text.
Proof.
  intros Hlong.
  destruct (chunk_end_cases text (chunker.len text - 500) ltac:(lia))
    as [H | [H | H]]; cbv zeta in H; lia.
Qed.

Lemma chunk_text_short (text : str) :
  (chunker.len text <= 5000)%Z ->
  chunker.chunk_text text
  = Some (ret [chunker.mkChunk 0 text 0 (chunker.len text)])
  /\ chunker.is_single_chunk text = true.
Proof.
  intros H. unfold chunker.chunk_text, chunker.chunk_text_with,
    chunker.is_single_chunk.
  change chunker.DIRECT_THRESHOLD with 5000%Z.
  destruct (Z.leb_spec (chunker.len text) 5000); [auto | lia].
Qed.

Lemma chunk_text_long (text : str) :
  (5000 < chunker.len text)%Z ->
  exists chunks,
    chunker.chunk_text text
    = Some (emit (LogInfo "Chunked %d chars into %d chunks (max %d chars each)."
                    [ArgInt (chunker.len text); ArgInt 12; ArgInt 6000]) ;;;
            ret chunks)
    /\ chunker.is_single_chunk text = false
    /\ length chunks = 12%nat
    /\ chained text 0 0 chunks.
Proof.
  intros H. unfold chunker.chunk_text, chunker.chunk_text_with,
    chunker.is_single_chunk.
  change chunker.DIRECT_THRESHOLD with 5000%Z.
  destruct (Z.leb_spec (chunker.len text) 5000); [lia |].
  destruct (chunk_loop_run text H (Z.to_nat chunker.MAX_CHUNKS) 0 0 []
              ltac:(lia) ltac:(lia) ltac:(change chunker.MAX_CHUNKS with 12%Z; lia))
    as (new & HL & Hn & Hc).
  simpl app in HL. rewrite HL. exists new.
  change (Z.to_nat (12 - 0)) with 12%nat in Hn. rewrite Hn.
  repeat split; auto.
Qed.

(** X18: [chunk_text] returns for every text.  A text of at most 5000
    characters gives one chunk and no log line.  A longer text gives
    exactly 12 chunks, whatever its length, and the log line says so.  The
    chunks are numbered from 0, the first starts at position 0, each next
    one starts 500 characters before the end of the one before it, and,
    unless the text is empty, every chunk is a non-empty slice of the
    text of at most 6000 characters, cut at the bounds it records. *)
Theorem chunk_text_chunks (text : str) :
  exists m chunks,
    chunker.chunk_text text = Some m
    /\ result m = Return chunks
    /\ length chunks = (if chunker.is_single_chunk text then 1 else 12)%nat
    /\ trace m
       = (if chunker.is_single_chunk text then []
          else [LogInfo "Chunked %d chars into %d chunks (max %d chars each)."
                  [ArgInt (chunker.len text); ArgInt 12; ArgInt 6000]])
    /\ map chunker.index chunks = map Z.of_nat (seq 0 (length chunks))
    /\ (exists c rest, chunks = c :: rest /\ chunker.start c = 0%Z)
    /\ (forall i c c',
          chunks !! i = Some c -> chunks !! S i = Some c' ->
          chunker.start c' = (chunker.end_ c - 500)%Z)
    /\ (text = [] \/ Forall (well_cut text) chunks).
Proof.
  destruct (Z.le_gt_cases (chunker.len text) 5000) as [Hshort | Hlong].
  - destruct (chunk_text_short text Hshort) as [E Hs].
    exists (ret [chunker.mkChunk 0 text 0 (chunker.len text)]),
      [chunker.mkChunk 0 text 0 (chunker.len text)].
    rewrite Hs. repeat split; auto.
    + eexists _, _. split; reflexivity.
    + intros i c c' _ Hi'. destruct i; discriminate.
    + destruct text as [| ch text']; [left; reflexivity | right].
      constructor; [| constructor]. unfold well_cut. simpl chunker.start.
      simpl chunker.end_. simpl chunker.text.
      change chunker.CHUNK_SIZE with 6000%Z. rewrite slice_all.
      assert (0 < chunker.len (ch :: text'))%Z by (unfold chunker.len; simpl; lia).
      repeat split; lia.
  - destruct (chunk_text_long text ltac:(lia)) as (chunks & E & Hs & Hn & Hc).
    eexists _, chunks. split; [exact E |]. rewrite Hs.
    split; [reflexivity |]. split; [exact Hn |]. split; [reflexivity |].
    split; [| split; [| split]].
    + rewrite (chained_index text chunks 0 0 Hc). apply List.map_ext.
      intros k. lia.
    + destruct chunks as [| c rest]; [discriminate |].
      exists c, rest. split; [reflexivity |]. destruct Hc as (_ & Hst & _). exact Hst.
    + intros i c c' Hi Hi'.
      exact (chained_consecutive text chunks 0 0 Hc i c c' Hi Hi').
    + right. apply (chained_well_cut text ltac:(lia) chunks 0 0); [lia | exact Hc].
Qed.

(** X19: the chunks of [chunk_text] cover the text from its first
    character up to the end of the last chunk, without a gap, and no
    further.  A text of at most 30524 characters is covered to its end;
    of a text of more than 66500 characters nothing beyond the first
    66500 characters is in any chunk. *)
Theorem chunk_text_coverage (text : str) :
  exists m chunks,
    chunker.chunk_text text = Some m
    /\ result m = Return chunks
    /\ (last_end chunks <= chunker.len text)%Z
    /\ (forall p, Exists (in_chunk p) chunks <-> (0 <= p < last_end chunks)%Z)
    /\ ((chunker.len text <= 30524)%Z -> last_end chunks = chunker.len text)
    /\ ((66500 < chunker.len text)%Z -> (last_end chunks <= 66500)%Z).
Proof.
  destruct (Z.le_gt_cases (chunker.len text) 5000) as [Hshort | Hlong].
  - destruct (chunk_text_short text Hshort) as [E _].
    eexists _, _. split; [exact E |]. split; [reflexivity |].
    change (last_end [chunker.mkChunk 0 text 0 (chunker.len text)])
      with (chunker.len text).
    split; [lia |]. split; [| split; [reflexivity | lia]].
    intros p. rewrite Exists_cons, Exists_nil. unfold in_chunk. simpl. tauto.
  - assert (Hl : (5000 < chunker.len text)%Z) by lia.
    destruct (chunk_text_long text Hl) as (chunks & E & _ & Hn & Hc).
    eexists _, chunks. split; [exact E |]. split; [reflexivity |].
    assert (Hne : chunks <> []) by (destruct chunks; [discriminate | discriminate]).
    destruct (chained_cover text Hl chunks 0 0 ltac:(lia) Hc Hne) as [[_ Hle] Hcov].
    destruct (chained_reach text Hl chunks 0 0 ltac:(lia) Hc Hne) as [Hlow Hup].
    rewrite Hn in Hlow, Hup.
    split; [exact Hle |]. split; [exact Hcov |]. split; lia.
Qed.

(** X20: where a chunk of a long text ends: at the end of the text, or
    6000 characters after its start, or in the second half of those 6000
    characters right after a blank line or after a full stop and a space,
    which then are the last two characters of the chunk. *)
Theorem chunk_boundaries (text : str) :
  exists m chunks,
    chunker.chunk_text text = Some m
    /\ result m = Return chunks
    /\ Forall (fun c =>
         chunker.end_ c = chunker.len text
         \/ chunker.end_ c = (chunker.start c + 6000)%Z
         \/ ((chunker.start c + 3002 <= chunker.end_ c < chunker.start c + 6000)%Z
             /\ exists pre,
                  chunker.text c = pre ++ [10; 10]%N
                  \/ chunker.text c = pre ++ [46; 32]%N)) chunks.
Proof.
  destruct (Z.le_gt_cases (chunker.len text) 5000) as [Hshort | Hlong].
  - destruct (chunk_text_short text Hshort) as [E _].
    eexists _, _. split; [exact E |]. split; [reflexivity |].
    constructor; [left; reflexivity | constructor].
  - assert (Hl : (5000 < chunker.len text)%Z) by lia.
    destruct (chunk_text_long text Hl) as (chunks & E & _ & Hn & Hc).
    eexists _, chunks. split; [exact E |]. split; [reflexivity |].
    pose proof (chained_well_cut text Hl chunks 0 0 ltac:(lia) Hc) as HW.
    pose proof (chained_ends text chunks 0 0 Hc) as HE.
    rewrite Forall_forall in HW, HE. apply Forall_forall. intros c Hin.
    destruct (HW c Hin) as (Hs0 & Hse & Hel & _ & Ht & _).
    destruct (HE c Hin) as (He & _).
    destruct (chunk_end_cases text (chunker.start c) ltac:(lia))
      as [H | [H | (H1 & H2 & H3)]].
    + left. rewrite He. apply H.
    + right. left. rewrite He. apply H.
    + rewrite <- He in H1, H2, H3.
      destruct (Z.eq_dec (chunker.end_ c) (chunker.start c + 6000)%Z) as [E6 | N6];
        [right; left; exact E6 |].
      right. right. split; [lia |].
      exists (chunker.slice text (chunker.start c) (chunker.end_ c - 2)%Z).
      rewrite Ht.
      rewrite (slice_split text (chunker.start c) (chunker.end_ c - 2)%Z (chunker.end_ c))
        by lia.
      destruct H3 as [H3 | H3]; rewrite H3; auto.
Qed.

(** X21: once a chunk of a long text has reached the end of the text, the
    loop does not stop: every chunk after it is the last 500 characters of
    the text again. *)
Theorem chunks_after_text_end (text : str) :
  exists m chunks,
    chunker.chunk_text text = Some m
    /\ result m = Return chunks
    /\ forall i c c',
         chunks !! i = Some c -> chunks !! S i = Some c' ->
         chunker.end_ c = chunker.len text ->
         chunker.start c' = (chunker.len text - 500)%Z
         /\ chunker.end_ c' = chunker.len text
         /\ chunker.text c'
            = chunker.slice text (chunker.len text - 500) (chunker.len text)
         /\ chunker.len (chunker.text c') = 500%Z.
Proof.
  destruct (Z.le_gt_cases (chunker.len text) 5000) as [Hshort | Hlong].
  - destruct (chunk_text_short text Hshort) as [E _].
    eexists _, _. split; [exact E |]. split; [reflexivity |].
    intros i c c' _ Hi'. destruct i; discriminate.
  - assert (Hl : (5000 < chunker.len text)%Z) by lia.
    destruct (chunk_text_long text Hl) as (chunks & E & _ & Hn & Hc).
    eexists _, chunks. split; [exact E |]. split; [reflexivity |].
    intros i c c' Hi Hi' Hend.
    pose proof (chained_consecutive text chunks 0 0 Hc i c c' Hi Hi') as Hst.
    change chunker.OVERLAP with 500%Z in Hst. rewrite Hend in Hst.
    pose proof (chained_ends text chunks 0 0 Hc) as HE.
    rewrite Forall_forall in HE.
    destruct (HE c' (list_elem_of_lookup_2 _ _ _ Hi')) as (He & Ht).
    rewrite Hst, (chunk_end_at_tail text Hl) in He.
    rewrite Hst, He in Ht.
    split; [exact Hst |]. split; [exact He |]. split; [exact Ht |].
    rewrite Ht.
    rewrite (proj2 (slice_within text (chunker.len text - 500)%Z (chunker.len text)
                      ltac:(lia) ltac:(lia))).
    lia.
Qed.

Lemma chunks_after_text_end_witness :
  exists chunks c c',
    option_map result (chunker.chunk_text long_text) = Some (Return chunks)
    /\ chunks !! 0%nat = Some c /\ chunks !! 1%nat = Some c'
    /\ chunker.end_ c = 5200%Z
    /\ chunker.start c' = 4700%Z
    /\ chunker.end_ c' = 5200%Z
    /\ chunker.len (chunker.text c') = 500%Z.
Proof.
  destruct (chunks_after_text_end long_text) as (m & chunks & E & R & H).
  assert (Hc : exists c c' rest, chunks = c :: c' :: rest
                                 /\ chunker.end_ c = 5200%Z).
  { assert (E' : option_map result (chunker.chunk_text long_text)
                 = Some (Return chunks)) by (rewrite E; simpl; rewrite R; reflexivity).
    vm_compute in E'. injection E' as E'. rewrite <- E'.
    eexists _, _, _. split; reflexivity. }
  destruct Hc as (c & c' & rest & -> & Hend).
  destruct (H 0%nat c c' eq_refl eq_refl) as (Hs & He & _ & Hl).
  { rewrite Hend. vm_compute. reflexivity. }
  exists (c :: c' :: rest), c, c'.
  change (chunker.len long_text) with 5200%Z in Hs, He.
  rewrite E. simpl option_map. rewrite R.
  repeat split; auto.
Defined.
